(** * Hourglass particle system: grain store, release scheduler and physics step

    A shallow embedding of [src/renderer/canvas/ParticleSystem.ts].

    Numbers.  A TypeScript [number] is modelled as a real number.  In the
    release schedule the rounding of IEEE arithmetic decides how many
    grains are released, so its two divisions are rounded as the code
    rounds them: [init] stores [binary64 (totalMs / totalGrains)] as the
    release interval and [update] floors
    [binary64 (timerElapsedMs / releaseInterval)]; [binary64] is rounding
    to the nearest number of 53 significant bits, ties to even.  The
    exponent is not bounded and zero has no sign: [binary64] is the
    rounding of the code on the normal range, magnitudes from 2^-1022 up
    to 2^1024, which a quotient leaves only for a duration or an elapsed
    time below 1e-150 ms or above 1e150 ms in magnitude.  The positions
    and velocities of the physics are real-valued results and are
    computed without rounding.
    The non-finite values that the code itself can produce from finite
    inputs are written out with [Ext]: the release target of [update]
    divides by [_releaseInterval], which is zero after [init 0], and
    [_releaseNextGrain] starts its search at minus infinity.  The other
    divisions are by constants or guarded, except those of [_getWidthAtY],
    whose theorem assumes bulbs of positive height.  Counters
    ([_totalGrains], [_releasedCount]) only ever hold integers and are
    modelled as [Z].

    Randomness.  [Math.random ()] is an oracle [rnd : nat -> R] read at a
    cursor that every call advances by one.

    Objects.  Grains are mutable objects held in an array; the spatial grid
    holds references to them.  The array is a [list Grain] and a reference
    is an index into it.

    Loops.  The [for] loops run over the indices of the array.  The [while]
    loop of [update] takes fuel and yields [None] when it runs out;
    [update_spec] and [update_total] show that [update] returns. *)

From Stdlib Require Import Reals Lra Lia ZArith String.
From stdpp Require Import base option list gmap.

Open Scope R_scope.

(** ** Numbers *)

Inductive Ext (A : Type) : Type :=
| Fin (a : A)
| PosInf
| NegInf
| NaN.
Arguments Fin {A} a.
Arguments PosInf {A}.
Arguments NegInf {A}.
Arguments NaN {A}.

Definition Rltb (a b : R) : bool := if Rlt_dec a b then true else false.
Definition Rleb (a b : R) : bool := if Rle_dec a b then true else false.
Definition Reqb (a b : R) : bool := if Req_dec_T a b then true else false.

(** Rounding to the nearest integer, ties to even. *)
Definition round_half_even (v : R) : Z :=
  let f := Zfloor v in
  if Rlt_dec (v - IZR f) (1 / 2) then f
  else if Rlt_dec (1 / 2) (v - IZR f) then (f + 1)%Z
  else if Z.even f then f else (f + 1)%Z.

(** The exponent of a number [v] other than zero:
    [2 ^ binade v <= |v| < 2 ^ (binade v + 1)]. *)
Definition binade (v : R) : Z := Zfloor (ln (Rabs v) / ln 2).

(** The result of an IEEE binary64 operation whose exact result is [v]:
    the nearest number with 53 significant bits, ties to even. *)
Definition binary64 (v : R) : R :=
  if Req_dec_T v 0 then 0
  else
    let e := (binade v - 52)%Z in
    IZR (round_half_even (v / powerRZ 2 e)) * powerRZ 2 e.

(** [a / b] on finite operands: the rounded quotient, and what IEEE
    division gives when [b] is 0. *)
Definition js_div (a b : R) : Ext R :=
  if Req_dec_T b 0 then
    (if Rlt_dec 0 a then PosInf else if Rlt_dec a 0 then NegInf else NaN)
  else Fin (binary64 (a / b)).

(** [Math.floor]. *)
Definition js_floor (q : Ext R) : Ext Z :=
  match q with
  | Fin r => Fin (Zfloor r)
  | PosInf => PosInf
  | NegInf => NegInf
  | NaN => NaN
  end.

(** [Math.min (a, q)] for a finite integer [a]. *)
Definition js_min (a : Z) (q : Ext Z) : Ext Z :=
  match q with
  | Fin z => Fin (Z.min a z)
  | PosInf => Fin a
  | NegInf => NegInf
  | NaN => NaN
  end.

(** [a < q] for a finite integer [a]; every comparison with NaN is false. *)
Definition js_lt (a : Z) (q : Ext Z) : bool :=
  match q with
  | Fin z => (a <? z)%Z
  | PosInf => true
  | NegInf => false
  | NaN => false
  end.

(** [v > q] for a finite [v] (the search of [_releaseNextGrain]). *)
Definition js_gt (v : R) (q : Ext R) : bool :=
  match q with
  | Fin r => Rltb r v
  | PosInf => false
  | NegInf => true
  | NaN => false
  end.

(** ** Data model *)

Record Grain : Type := mkGrain {
  x : R;
  y : R;
  vx : R;
  vy : R;
  radius : R;
  color : string;
  colorOffset : R;
  settled : bool;
  active : bool
}.

Record LineSegment : Type := mkLineSegment {
  x1 : R; y1 : R;
  x2 : R; y2 : R
}.

Record HourglassGeometry : Type := mkGeometry {
  walls : list LineSegment;
  neckLeft : R;
  neckRight : R;
  neckTopY : R;
  neckBottomY : R;
  bottomFloorY : R;
  topCeilingY : R
}.

Definition GRAVITY : R := 600.
Definition DAMPING : R := 0.3.
Definition FRICTION : R := 0.92.
Definition SETTLE_THRESHOLD : R := 8.
Definition GRAIN_RADIUS : R := 2.5.
Definition CELL_SIZE : R := GRAIN_RADIUS * 4.

(** The key of a grid cell is the string [`${cx},${cy}`] of two integers,
    which determines the pair; the pair itself is the key here. *)
Record ParticleSystem : Type := mkParticleSystem {
  _grains : list Grain;
  _geometry : option HourglassGeometry;
  _spatialGrid : gmap (Z * Z) (list nat);
  _totalGrains : Z;
  _releasedCount : Z;
  _releaseInterval : R;
  _lastReleaseTime : R;
  _elapsedMs : R;
  _totalMs : R
}.

(** Field assignments. *)
Definition set_x (v : R) (g : Grain) : Grain :=
  mkGrain v (y g) (vx g) (vy g) (radius g) (color g) (colorOffset g) (settled g) (active g).
Definition set_y (v : R) (g : Grain) : Grain :=
  mkGrain (x g) v (vx g) (vy g) (radius g) (color g) (colorOffset g) (settled g) (active g).
Definition set_vx (v : R) (g : Grain) : Grain :=
  mkGrain (x g) (y g) v (vy g) (radius g) (color g) (colorOffset g) (settled g) (active g).
Definition set_vy (v : R) (g : Grain) : Grain :=
  mkGrain (x g) (y g) (vx g) v (radius g) (color g) (colorOffset g) (settled g) (active g).
Definition set_settled (b : bool) (g : Grain) : Grain :=
  mkGrain (x g) (y g) (vx g) (vy g) (radius g) (color g) (colorOffset g) b (active g).
Definition set_active (b : bool) (g : Grain) : Grain :=
  mkGrain (x g) (y g) (vx g) (vy g) (radius g) (color g) (colorOffset g) (settled g) b.

Definition with_grains (gs : list Grain) (s : ParticleSystem) : ParticleSystem :=
  mkParticleSystem gs (_geometry s) (_spatialGrid s) (_totalGrains s) (_releasedCount s)
    (_releaseInterval s) (_lastReleaseTime s) (_elapsedMs s) (_totalMs s).
Definition with_geometry (geo : option HourglassGeometry) (s : ParticleSystem) : ParticleSystem :=
  mkParticleSystem (_grains s) geo (_spatialGrid s) (_totalGrains s) (_releasedCount s)
    (_releaseInterval s) (_lastReleaseTime s) (_elapsedMs s) (_totalMs s).
Definition with_spatialGrid (m : gmap (Z * Z) (list nat)) (s : ParticleSystem) : ParticleSystem :=
  mkParticleSystem (_grains s) (_geometry s) m (_totalGrains s) (_releasedCount s)
    (_releaseInterval s) (_lastReleaseTime s) (_elapsedMs s) (_totalMs s).
Definition with_totalGrains (n : Z) (s : ParticleSystem) : ParticleSystem :=
  mkParticleSystem (_grains s) (_geometry s) (_spatialGrid s) n (_releasedCount s)
    (_releaseInterval s) (_lastReleaseTime s) (_elapsedMs s) (_totalMs s).
Definition with_releasedCount (n : Z) (s : ParticleSystem) : ParticleSystem :=
  mkParticleSystem (_grains s) (_geometry s) (_spatialGrid s) (_totalGrains s) n
    (_releaseInterval s) (_lastReleaseTime s) (_elapsedMs s) (_totalMs s).
Definition with_releaseInterval (v : R) (s : ParticleSystem) : ParticleSystem :=
  mkParticleSystem (_grains s) (_geometry s) (_spatialGrid s) (_totalGrains s) (_releasedCount s)
    v (_lastReleaseTime s) (_elapsedMs s) (_totalMs s).
Definition with_lastReleaseTime (v : R) (s : ParticleSystem) : ParticleSystem :=
  mkParticleSystem (_grains s) (_geometry s) (_spatialGrid s) (_totalGrains s) (_releasedCount s)
    (_releaseInterval s) v (_elapsedMs s) (_totalMs s).
Definition with_elapsedMs (v : R) (s : ParticleSystem) : ParticleSystem :=
  mkParticleSystem (_grains s) (_geometry s) (_spatialGrid s) (_totalGrains s) (_releasedCount s)
    (_releaseInterval s) (_lastReleaseTime s) v (_totalMs s).
Definition with_totalMs (v : R) (s : ParticleSystem) : ParticleSystem :=
  mkParticleSystem (_grains s) (_geometry s) (_spatialGrid s) (_totalGrains s) (_releasedCount s)
    (_releaseInterval s) (_lastReleaseTime s) (_elapsedMs s) v.

(** [new ParticleSystem ()]. *)
Definition new_ParticleSystem : ParticleSystem :=
  mkParticleSystem [] None ∅ 0 0 0 0 0 0.

Definition setGeometry (geo : HourglassGeometry) (s : ParticleSystem) : ParticleSystem :=
  with_geometry (Some geo) s.

Definition reset (s : ParticleSystem) : ParticleSystem :=
  with_totalGrains 0
    (with_elapsedMs 0 (with_lastReleaseTime 0 (with_releasedCount 0 (with_grains [] s)))).

(** ** Width of the hourglass at a height *)

Definition _getWidthAtY (s : ParticleSystem) (py : R) : R :=
  match _geometry s with
  | None => 0
  | Some geo =>
    let neckWidth := neckRight geo - neckLeft geo in
    if Rleb (neckTopY geo) py && Rleb py (neckBottomY geo) then neckWidth
    else if Rltb py (neckTopY geo) then
      let t := (neckTopY geo - py) / (neckTopY geo - topCeilingY geo) in
      let maxWidth := (neckRight geo - neckLeft geo) + 120 in
      neckWidth + (maxWidth - neckWidth) * sqrt (Rmin 1 t)
    else
      let t := (py - neckBottomY geo) / (bottomFloorY geo - neckBottomY geo) in
      let maxWidth := (neckRight geo - neckLeft geo) + 120 in
      neckWidth + (maxWidth - neckWidth) * sqrt (Rmin 1 t)
  end.

(** The cosine ease of the renderer's outline ([outlineX] in
    [HourglassRenderer.ts]): [0.5 - 0.5 * Math.cos (t * Math.PI)]. *)
Definition cosine_ease (t : R) : R := 0.5 - 0.5 * cos (t * PI).

(** ** Wall collision *)

Definition wall_len2 (w : LineSegment) : R :=
  (x2 w - x1 w) * (x2 w - x1 w) + (y2 w - y1 w) * (y2 w - y1 w).

(** The clamped parameter [t] of the projection of the grain centre. *)
Definition wall_t (g : Grain) (w : LineSegment) : R :=
  let dx := x2 w - x1 w in
  let dy := y2 w - y1 w in
  Rmax 0 (Rmin 1 (((x g - x1 w) * dx + (y g - y1 w) * dy) / wall_len2 w)).

Definition closestX (g : Grain) (w : LineSegment) : R := x1 w + wall_t g w * (x2 w - x1 w).
Definition closestY (g : Grain) (w : LineSegment) : R := y1 w + wall_t g w * (y2 w - y1 w).

Definition wall_dist (g : Grain) (w : LineSegment) : R :=
  let distX := x g - closestX g w in
  let distY := y g - closestY g w in
  sqrt (distX * distX + distY * distY).

(** The contact normal: from the closest point to the centre, straight up
    when the centre lies on the wall. *)
Definition wall_nx (g : Grain) (w : LineSegment) : R :=
  if Rltb 0 (wall_dist g w) then (x g - closestX g w) / wall_dist g w else 0.
Definition wall_ny (g : Grain) (w : LineSegment) : R :=
  if Rltb 0 (wall_dist g w) then (y g - closestY g w) / wall_dist g w else -1.

Definition _collideWall (g : Grain) (w : LineSegment) : Grain :=
  if Reqb (wall_len2 w) 0 then g
  else
    let cX := closestX g w in
    let cY := closestY g w in
    let dist := wall_dist g w in
    if Rltb dist (radius g) then
      let nx := wall_nx g w in
      let ny := wall_ny g w in
      let g1 := set_y (cY + ny * radius g) (set_x (cX + nx * radius g) g) in
      let dot := vx g1 * nx + vy g1 * ny in
      if Rltb dot 0 then
        let g2 := set_vx (vx g1 - 2 * dot * nx * DAMPING) g1 in
        set_vy (vy g2 - 2 * dot * ny * DAMPING) g2
      else g1
    else g.

(** ** Spatial grid *)

Definition cell_of (g : Grain) : Z * Z :=
  (Zfloor (x g / CELL_SIZE), Zfloor (y g / CELL_SIZE)).

(** One iteration of the loop of [_buildSpatialGrid], at grain [i]. *)
Definition grid_add (gs : list Grain) (m : gmap (Z * Z) (list nat)) (i : nat)
  : gmap (Z * Z) (list nat) :=
  match gs !! i with
  | Some g =>
    if active g then
      let key := cell_of g in
      let m1 := match m !! key with Some _ => m | None => <[key := []]> m end in
      <[key := default [] (m1 !! key) ++ [i]]> m1
    else m
  | None => m
  end.

Definition _buildSpatialGrid (s : ParticleSystem) : ParticleSystem :=
  with_spatialGrid (foldl (grid_add (_grains s)) ∅ (seq 0 (length (_grains s)))) s.

(** References to the grains of the nine cells around [g], without the
    grain [gi] itself ([other !== g]). *)
Definition _getNearby (m : gmap (Z * Z) (list nat)) (gi : nat) (g : Grain) : list nat :=
  let cx := Zfloor (x g / CELL_SIZE) in
  let cy := Zfloor (y g / CELL_SIZE) in
  flat_map (fun dx : Z =>
    flat_map (fun dy : Z =>
      match m !! ((cx + dx)%Z, (cy + dy)%Z) with
      | Some cell => List.filter (fun other => negb (Nat.eqb other gi)) cell
      | None => []
      end) [(-1)%Z; 0%Z; 1%Z]) [(-1)%Z; 0%Z; 1%Z].

(** ** Physics step of one grain *)

Definition integrate (dt : R) (g : Grain) : Grain :=
  let g1 := set_vy (vy g + GRAVITY * dt) g in
  let g2 := set_vx (vx g1 * FRICTION) g1 in
  let g3 := set_x (x g2 + vx g2 * dt) g2 in
  set_y (y g3 + vy g3 * dt) g3.

Definition collide_floor (geo : HourglassGeometry) (g : Grain) : Grain :=
  if Rltb (bottomFloorY geo) (y g + radius g) then
    let g1 := set_y (bottomFloorY geo - radius g) g in
    let g2 := set_vy (vy g1 * - DAMPING) g1 in
    set_vx (vx g2 * FRICTION) g2
  else g.

Definition collide_ceiling (geo : HourglassGeometry) (g : Grain) : Grain :=
  if Rltb (y g - radius g) (topCeilingY geo) then
    let g1 := set_y (topCeilingY geo + radius g) g in
    set_vy (vy g1 * - DAMPING) g1
  else g.

(** One iteration of the grain-to-grain loop.  [g] is the grain being
    updated, kept apart from the array until it is written back; [j] refers
    to another grain ([_getNearby] leaves [g] out), read from and written
    to the array. *)
Definition collide_grain (st : Grain * list Grain) (j : nat) : Grain * list Grain :=
  let '(g, gs) := st in
  match gs !! j with
  | None => st
  | Some other =>
    let dx := x other - x g in
    let dy := y other - y g in
    let dist := sqrt (dx * dx + dy * dy) in
    let minDist := radius g + radius other in
    if Rltb dist minDist && Rltb 0.01 dist then
      let overlap := minDist - dist in
      let nx := dx / dist in
      let ny := dy / dist in
      let pushFactor := overlap * 0.5 in
      let g1 :=
        if negb (settled g)
        then set_y (y g - ny * pushFactor) (set_x (x g - nx * pushFactor) g)
        else g in
      let gs1 :=
        if negb (settled other)
        then <[j := set_y (y other + ny * pushFactor) (set_x (x other + nx * pushFactor) other)]> gs
        else gs in
      let g2 :=
        if negb (settled g1)
        then set_vy (vy g1 - ny * overlap * 2) (set_vx (vx g1 - nx * overlap * 2) g1)
        else g1 in
      (g2, gs1)
    else st
  end.

(** The test of the settling loop for one neighbour. *)
Definition rests_on (g : Grain) (gs : list Grain) (j : nat) : bool :=
  match gs !! j with
  | None => false
  | Some other =>
    settled other && Rltb (y g) (y other) &&
    (let dy := y other - y g in
     let dx := x other - x g in
     Rltb (sqrt (dx * dx + dy * dy)) (radius g + radius other + 1))
  end.

Definition settle (geo : HourglassGeometry) (nearby : list nat) (gs : list Grain) (g : Grain)
  : Grain :=
  if Rltb (neckBottomY geo) (y g) then
    let speed := sqrt (vx g * vx g + vy g * vy g) in
    if Rltb speed SETTLE_THRESHOLD then
      let onFloor := Rleb (bottomFloorY geo - 1) (y g + radius g) in
      let onGrain := existsb (rests_on g gs) nearby in
      if onFloor || onGrain
      then set_vy 0 (set_vx 0 (set_settled true g))
      else g
    else g
  else g.

(** [_updateGrain (g, dt)] for the grain at index [i]; [geo] is the
    non-null geometry the caller has checked. *)
Definition _updateGrain (geo : HourglassGeometry) (m : gmap (Z * Z) (list nat))
    (dt : R) (gs : list Grain) (i : nat) : list Grain :=
  match gs !! i with
  | None => gs
  | Some g =>
    let g1 := integrate dt g in
    let g2 := foldl _collideWall g1 (walls geo) in
    let g3 := collide_floor geo g2 in
    let g4 := collide_ceiling geo g3 in
    let nearby := _getNearby m i g4 in
    let '(g5, gs5) := foldl collide_grain (g4, gs) nearby in
    let g6 := settle geo nearby gs5 g5 in
    <[i := g6]> gs5
  end.

(** One iteration of the grain loop of [update]. *)
Definition update_step (geo : HourglassGeometry) (m : gmap (Z * Z) (list nat))
    (dt : R) (gs : list Grain) (i : nat) : list Grain :=
  match gs !! i with
  | None => gs
  | Some grain =>
    if negb (active grain) || settled grain then gs
    else _updateGrain geo m dt gs i
  end.

Section WithRandom.

(** [Math.random ()]: the [k]-th draw. *)
Variable rnd : nat -> R.

(** ** init *)

(** The grain literal pushed at iteration [i]; its four draws are taken in
    the order of the properties. *)
Definition new_grain (s : ParticleSystem) (geo : HourglassGeometry) (i k : nat) : Grain :=
  let centerX := (neckLeft geo + neckRight geo) / 2 in
  let topHeight := neckTopY geo - topCeilingY geo in
  let row := INR (i / 20) in
  let col := INR (i mod 20) in
  let rowY := neckTopY geo - 12 - row * (GRAIN_RADIUS * 2.2) in
  let rowWidth := _getWidthAtY s rowY * 0.8 in
  let rowStartX := centerX - rowWidth / 2 in
  let grainX := rowStartX + (col / 19) * rowWidth in
  mkGrain
    (grainX + (rnd k - 0.5) * 2)
    (Rmin rowY (topCeilingY geo + topHeight * 0.9) + (rnd (k + 1) - 0.5) * 2)
    0
    0
    (GRAIN_RADIUS + (rnd (k + 2) - 0.5) * 0.8)
    ""
    ((rnd (k + 3) - 0.5) * 2)
    true
    false.

(** [n] iterations of the loop of [init] from index [i]. *)
Fixpoint init_loop (geo : HourglassGeometry) (n i : nat) (s : ParticleSystem) (k : nat)
  : ParticleSystem * nat :=
  match n with
  | O => (s, k)
  | S n' =>
    init_loop geo n' (S i) (with_grains (_grains s ++ [new_grain s geo i k]) s) (k + 4)
  end.

Definition init (totalMs : R) (s : ParticleSystem) (k : nat) : ParticleSystem * nat :=
  let s1 := with_elapsedMs 0 (with_lastReleaseTime 0 (with_releasedCount 0 (with_grains [] s))) in
  match _geometry s1 with
  | None => (s1, k)
  | Some geo =>
    let s2 := with_totalMs totalMs s1 in
    let s3 := with_totalGrains (Z.min 400 (Z.max 200 (Zfloor (totalMs / 500)))) s2 in
    let s4 := with_releaseInterval (binary64 (totalMs / IZR (_totalGrains s3))) s3 in
    init_loop geo (Z.to_nat (_totalGrains s4)) 0 s4 k
  end.

(** ** Release *)

(** One iteration of the search of [_releaseNextGrain]: [best] and [bestY]. *)
Definition best_step (gs : list Grain) (acc : option nat * Ext R) (i : nat)
  : option nat * Ext R :=
  match gs !! i with
  | Some g => if negb (active g) && js_gt (y g) acc.2 then (Some i, Fin (y g)) else acc
  | None => acc
  end.

Definition find_best (gs : list Grain) : option nat :=
  (foldl (best_step gs) (None, NegInf) (seq 0 (length gs))).1.

Definition release_grain (geo : HourglassGeometry) (k : nat) (best : Grain) : Grain :=
  let centerX := (neckLeft geo + neckRight geo) / 2 in
  let b1 := set_x (centerX + (rnd k - 0.5) * (neckRight geo - neckLeft geo - radius best * 2)) best in
  let b2 := set_y (neckTopY geo + 2) b1 in
  let b3 := set_vx ((rnd (k + 1) - 0.5) * 10) b2 in
  let b4 := set_vy (20 + rnd (k + 2) * 30) b3 in
  let b5 := set_active true b4 in
  set_settled false b5.

Definition _releaseNextGrain (s : ParticleSystem) (k : nat) : ParticleSystem * nat :=
  match _geometry s with
  | None => (s, k)
  | Some geo =>
    let '(s1, k1) :=
      match find_best (_grains s) with
      | Some i =>
        match _grains s !! i with
        | Some best => (with_grains (<[i := release_grain geo k best]> (_grains s)) s, (k + 3)%nat)
        | None => (s, k)
        end
      | None => (s, k)
      end in
    (with_releasedCount (_releasedCount s1 + 1) s1, k1)
  end.

(** [while (this._releasedCount < targetReleased) this._releaseNextGrain ()],
    at most [fuel] iterations; [None] when the fuel does not suffice. *)
Fixpoint release_loop (fuel : nat) (target : Ext Z) (s : ParticleSystem) (k : nat)
  : option (ParticleSystem * nat) :=
  if js_lt (_releasedCount s) target then
    match fuel with
    | O => None
    | S fuel' =>
      let '(s1, k1) := _releaseNextGrain s k in
      release_loop fuel' target s1 k1
    end
  else Some (s, k).

(** ** update *)

Definition targetReleased (s : ParticleSystem) (timerElapsedMs : R) : Ext Z :=
  js_min (_totalGrains s) (js_floor (js_div timerElapsedMs (_releaseInterval s))).

Definition update (fuel : nat) (dt timerElapsedMs : R) (s : ParticleSystem) (k : nat)
  : option (ParticleSystem * nat) :=
  match _geometry s with
  | None => Some (s, k)
  | Some geo =>
    if Nat.eqb (length (_grains s)) 0 then Some (s, k)
    else
      let s1 := with_elapsedMs timerElapsedMs s in
      match release_loop fuel (targetReleased s1 timerElapsedMs) s1 k with
      | None => None
      | Some (s2, k2) =>
        let s3 := _buildSpatialGrid s2 in
        let gs := foldl (update_step geo (_spatialGrid s3) dt) (_grains s3)
                    (seq 0 (length (_grains s3))) in
        Some (with_grains gs s3, k2)
      end
  end.

(** ** explode *)

Definition explode_step (st : list Grain * nat) (i : nat) : list Grain * nat :=
  let '(gs, k) := st in
  match gs !! i with
  | Some grain =>
    if settled grain && active grain then
      let g1 := set_settled false grain in
      let g2 := set_vy (- (200 + rnd k * 300)) g1 in
      let g3 := set_vx ((rnd (k + 1) - 0.5) * 200) g2 in
      (<[i := g3]> gs, (k + 2)%nat)
    else st
  | None => st
  end.

Definition explode (s : ParticleSystem) (k : nat) : ParticleSystem * nat :=
  let '(gs, k') := foldl explode_step (_grains s, k) (seq 0 (length (_grains s))) in
  (with_grains gs s, k').

(** ** Calls from outside *)

Inductive Call : Type :=
| CallSetGeometry (geo : HourglassGeometry)
| CallInit (totalMs : R)
| CallUpdate (dt timerElapsedMs : R)
| CallExplode
| CallReset.

(** A call takes the system and the cursor of the oracle to their values
    after the call returns. *)
Inductive step : ParticleSystem * nat -> Call -> ParticleSystem * nat -> Prop :=
| step_setGeometry geo s k :
    step (s, k) (CallSetGeometry geo) (setGeometry geo s, k)
| step_init totalMs s k :
    step (s, k) (CallInit totalMs) (init totalMs s k)
| step_update fuel dt e s k st' :
    update fuel dt e s k = Some st' ->
    step (s, k) (CallUpdate dt e) st'
| step_explode s k :
    step (s, k) CallExplode (explode s k)
| step_reset s k :
    step (s, k) CallReset (reset s, k).

Inductive run : ParticleSystem * nat -> list Call -> ParticleSystem * nat -> Prop :=
| run_nil st : run st [] st
| run_cons st c st1 cs st2 : step st c st1 -> run st1 cs st2 -> run st (c :: cs) st2.

(** The systems a program can hold: a fresh one after any calls. *)
Definition reachable (st : ParticleSystem * nat) : Prop :=
  exists k0 cs, run (new_ParticleSystem, k0) cs st.

(** ** Vocabulary of the properties *)

(** Where a draw of [Math.random ()] lies. *)
Definition unit_draws : Prop := forall n, 0 <= rnd n < 1.

(** What [explode] does to one grain: a resting active grain is kicked,
    with two draws; any other grain is not written. *)
Definition exploded (g g' : Grain) : Prop :=
  if settled g && active g then
    exists k, g' = set_vx ((rnd (k + 1) - 0.5) * 200)
                     (set_vy (- (200 + rnd k * 300)) (set_settled false g))
  else g' = g.

End WithRandom.

(** The fields of a grain that only [init] and the release assign. *)
Definition fixed (g : Grain) : R * R * string * bool :=
  (colorOffset g, radius g, color g, active g).

(** The number of active grains. *)
Definition count_active (gs : list Grain) : nat :=
  length (List.filter active gs).

(** Everything but the grains and the counter is left as it was. *)
Definition same_settings (s s' : ParticleSystem) : Prop :=
  _geometry s' = _geometry s /\ _totalGrains s' = _totalGrains s /\
  _releaseInterval s' = _releaseInterval s /\ _totalMs s' = _totalMs s.

(** The grains are exactly the released ones, and there are [_totalGrains]
    of them. *)
Definition counted (s : ParticleSystem) : Prop :=
  Z.of_nat (count_active (_grains s)) = _releasedCount s /\
  Z.of_nat (length (_grains s)) = _totalGrains s.

(** The active grains are the released ones, there are [_totalGrains]
    grains, and a system that holds grains has its geometry and the
    release interval that [init] computed. *)
Definition Inv (s : ParticleSystem) : Prop :=
  counted s /\
  (_grains s <> [] ->
   _geometry s <> None /\
   _releaseInterval s = binary64 (_totalMs s / IZR (_totalGrains s))).

(** The counter after an [update], and the iterations its loop takes. *)
Definition released_after (s : ParticleSystem) (e : R) : Z :=
  match targetReleased s e with
  | Fin t => Z.max (_releasedCount s) t
  | _ => _releasedCount s
  end.

Definition releases_needed (s : ParticleSystem) (e : R) : nat :=
  match targetReleased s e with
  | Fin t => Z.to_nat (t - _releasedCount s)
  | _ => 0%nat
  end.

(** The number of grains [init] computes. *)
Definition grain_count (totalMs : R) : Z :=
  Z.min 400 (Z.max 200 (Zfloor (totalMs / 500))).

(** [clamp (v, lo, hi)] as the specification words it. *)
Definition clamp (v lo hi : Z) : Z :=
  if (v <? lo)%Z then lo else if (hi <? v)%Z then hi else v.

(** The calls of the physics: [update] and [explode]. *)
Definition physics_call (c : Call) : Prop :=
  match c with
  | CallUpdate _ _ | CallExplode => True
  | _ => False
  end.

Definition update_call (c : Call) : Prop :=
  match c with
  | CallUpdate _ _ => True
  | _ => False
  end.

(** ** Concrete systems *)

(** The geometry of the repository's tests ([createTestGeometry]). *)
Definition test_geometry : HourglassGeometry :=
  mkGeometry
    [mkLineSegment 50 0 100 200; mkLineSegment 100 200 50 400;
     mkLineSegment 350 0 300 200; mkLineSegment 300 200 350 400]
    180 220 190 210 390 10.

(** An oracle whose every draw is one half. *)
Definition half_draws : nat -> R := fun _ => 0.5.

Definition test_system : ParticleSystem := setGeometry test_geometry new_ParticleSystem.

(** A store of two grains: one resting at the bottom, one falling. *)
Definition resting_grain : Grain := mkGrain 200 387 0 0 2.5 "" 0.25 true true.
Definition falling_grain : Grain := mkGrain 200 300 1 40 2.5 "" (-0.5) false true.

Definition two_grains : ParticleSystem :=
  mkParticleSystem [resting_grain; falling_grain] (Some test_geometry) ∅ 2 2 500 0 0 1000.

(** A vertical wall and a grain that overlaps it while it moves away. *)
Definition left_wall : LineSegment := mkLineSegment 0 0 0 10.
Definition leaving_grain : Grain := mkGrain 1 5 3 4 2.5 "" 0 false true.

(** ** Vocabulary of the further properties *)

(** What a grain is given at its creation and keeps. *)
Definition born (g : Grain) : R * R * string := (colorOffset g, radius g, color g).

(** The bounds [init] draws the radius and the brightness offset from. *)
Definition grain_ok (g : Grain) : Prop :=
  GRAIN_RADIUS - 0.4 <= radius g <= GRAIN_RADIUS + 0.4 /\ -1 <= colorOffset g <= 1.

(** The calls that do not replace the grains. *)
Definition keeps_grains (c : Call) : Prop :=
  match c with
  | CallInit _ | CallReset => False
  | _ => True
  end.

(** Whether grain [i] is active and its centre lies in cell [c]. *)
Definition in_cell (gs : list Grain) (c : Z * Z) (i : nat) : bool :=
  match gs !! i with
  | Some g => active g && bool_decide (cell_of g = c)
  | None => false
  end.

(** Whether some cell of the grid refers to grain [i]. *)
Definition in_grid (m : gmap (Z * Z) (list nat)) (i : nat) : Prop :=
  exists c cell, m !! c = Some cell /\ In i cell.

(** A system with one grain released and two in the reserve. *)
Definition reserve_high : Grain := mkGrain 190 100 0 0 2.5 "" 0.5 true false.
Definition reserve_low : Grain := mkGrain 210 150 0 0 2.4 "" (-0.25) true false.

Definition reserve_system : ParticleSystem :=
  mkParticleSystem [falling_grain; reserve_high; reserve_low] (Some test_geometry) ∅
    3 1 500 0 0 1500.

(** A grain that overlaps [left_wall] while it moves into it, and two
    unsettled grains that overlap each other. *)
Definition approaching_grain : Grain := mkGrain 1 5 (-3) 4 2.5 "" 0 false true.
Definition pair_left : Grain := mkGrain 0 0 0 0 2.5 "" 0 false true.
Definition pair_right : Grain := mkGrain 1.2 1.6 0 0 2.5 "" 0 false true.


(** ** Colours and effects ([src/renderer/canvas/effects.ts]) *)

Module effects.

(** A colour string [`rgba(${r}, ${g}, ${b}, ${a})`]: the template fixes
    everything but the four numbers, which are kept here; the channels are
    results of [Math.round], hence integers. *)
Record Rgba : Type := mkRgba {
  red : Z;
  green : Z;
  blue : Z;
  alpha : R
}.

(** [Math.round]: the nearest integer, halves upwards. *)
Definition round (v : R) : Z := Zfloor (v + 0.5).

Definition is_phase (phase : option string) (name : string) : bool :=
  match phase with
  | Some p => String.eqb p name
  | None => false
  end.

Definition sandColor (progress : R) (phase : option string) : Rgba :=
  if is_phase phase "shortBreak" then mkRgba 0 230 118 0.9
  else if is_phase phase "longBreak" then mkRgba 179 136 255 0.9
  else if Rltb progress 0.6 then
    let t := progress / 0.6 in
    let r := round (0 + 255 * t) in
    let g := round (229 - 58 * t) in
    let b := round (255 - 255 * t) in
    mkRgba r g b 0.9
  else
    let t := (progress - 0.6) / 0.4 in
    let r := 255%Z in
    let g := round (171 - 148 * t) in
    let b := round (0 + 68 * t) in
    mkRgba r g b 0.9.

Definition clamp (v : R) : Z := Z.max 0 (Z.min 255 (round v)).

Definition sandColorVariant (progress : R) (phase : option string) (offset : R) : Rgba :=
  let shift := offset * 25 in
  if is_phase phase "shortBreak" then
    mkRgba (clamp (0 + shift)) (clamp (230 + shift)) (clamp (118 + shift)) 0.9
  else if is_phase phase "longBreak" then
    mkRgba (clamp (179 + shift)) (clamp (136 + shift)) (clamp (255 + shift)) 0.9
  else if Rltb progress 0.6 then
    let t := progress / 0.6 in
    let r := round (0 + 255 * t) in
    let g := round (229 - 58 * t) in
    let b := round (255 - 255 * t) in
    mkRgba (clamp (IZR r + shift)) (clamp (IZR g + shift)) (clamp (IZR b + shift)) 0.9
  else
    let t := (progress - 0.6) / 0.4 in
    let r := 255%Z in
    let g := round (171 - 148 * t) in
    let b := round (0 + 68 * t) in
    mkRgba (clamp (IZR r + shift)) (clamp (IZR g + shift)) (clamp (IZR b + shift)) 0.9.

Definition glowColor (progress : R) (phase : option string) : Rgba :=
  if is_phase phase "shortBreak" then mkRgba 0 230 118 0.3
  else if is_phase phase "longBreak" then mkRgba 179 136 255 0.3
  else if Rltb progress 0.6 then
    let t := progress / 0.6 in
    mkRgba (round (0 + 255 * t)) (round (229 - 58 * t)) (round (255 - 255 * t))
      (0.2 + 0.15 * t)
  else
    let t := (progress - 0.6) / 0.4 in
    mkRgba 255 (round (171 - 148 * t)) (round (0 + 68 * t)) (0.35 + 0.15 * t).

(** The screen shake of the alarm. *)
Record ScreenShake : Type := mkScreenShake {
  _intensity : R;
  _decayRate : R
}.

Definition new_ScreenShake : ScreenShake := mkScreenShake 0 4.

(** The getters [offsetX] and [offsetY]: the offset, and the cursor of the
    oracle after the call; no draw is taken below the threshold. *)
Definition offsetX (rnd : nat -> R) (sh : ScreenShake) (k : nat) : R * nat :=
  if Rltb (_intensity sh) 0.5 then (0, k)
  else ((rnd k - 0.5) * _intensity sh, S k).

Definition offsetY (rnd : nat -> R) (sh : ScreenShake) (k : nat) : R * nat :=
  if Rltb (_intensity sh) 0.5 then (0, k)
  else ((rnd k - 0.5) * _intensity sh, S k).

Definition trigger (intensity : R) (sh : ScreenShake) : ScreenShake :=
  mkScreenShake intensity (_decayRate sh).

Definition update (dt : R) (sh : ScreenShake) : ScreenShake :=
  mkScreenShake (Rmax 0 (_intensity sh - _decayRate sh * dt)) (_decayRate sh).

Definition active (sh : ScreenShake) : bool := Rltb 0.5 (_intensity sh).

Definition idleBreathValue (time : R) : R := 0.5 + 0.5 * sin (time * 0.002 * PI).

Definition alarmPulse (time : R) : R := 0.6 + 0.4 * sin (time * 0.008 * PI).

End effects.

(** ** The renderer's geometry and reservoir ([HourglassRenderer.ts]) *)

Module HourglassRenderer.

Record HourglassMetrics : Type := mkMetrics {
  cx : R;
  cy : R;
  topY : R;
  botY : R;
  maxW : R;
  neckW : R;
  neckTopY : R;
  neckBotY : R
}.

(** The helper [outlineX] of [_buildWallSegments]: the right outline. *)
Definition outlineX (m : HourglassMetrics) (py : R) : R :=
  if Rleb py (neckTopY m) then
    let t := (py - topY m) / (neckTopY m - topY m) in
    let curve := cosine_ease t in
    cx m + maxW m - curve * (maxW m - neckW m)
  else if Rleb (neckBotY m) py then
    let t := (py - neckBotY m) / (botY m - neckBotY m) in
    let curve := cosine_ease t in
    cx m + neckW m + curve * (maxW m - neckW m)
  else cx m + neckW m.

Definition steps : nat := 16.

Definition right_segment (m : HourglassMetrics) (i : nat) : LineSegment :=
  let py1 := topY m + (botY m - topY m) * (INR i / INR steps) in
  let py2 := topY m + (botY m - topY m) * (INR (i + 1) / INR steps) in
  mkLineSegment (outlineX m py1) py1 (outlineX m py2) py2.

Definition left_segment (m : HourglassMetrics) (i : nat) : LineSegment :=
  let py1 := topY m + (botY m - topY m) * (INR i / INR steps) in
  let py2 := topY m + (botY m - topY m) * (INR (i + 1) / INR steps) in
  mkLineSegment (2 * cx m - outlineX m py1) py1 (2 * cx m - outlineX m py2) py2.

Definition _buildWallSegments (m : HourglassMetrics) : list LineSegment :=
  map (right_segment m) (seq 0 steps) ++ map (left_segment m) (seq 0 steps).

(** [_computeMetrics] for a container [w] wide and [h] high: the metrics
    it stores and the particle system with the geometry it sets. *)
Definition _computeMetrics (w h : R) (particles : ParticleSystem)
  : HourglassMetrics * ParticleSystem :=
  let cx := w / 2 in
  let cy := h / 2 in
  let glassH := Rmin (h * 0.88) 320 in
  let topY := cy - glassH / 2 in
  let botY := cy + glassH / 2 in
  let maxW := Rmin (w * 0.35) 75 in
  let neckW := 7 in
  let neckH := glassH * 0.06 in
  let neckTopY := cy - neckH / 2 in
  let neckBotY := cy + neckH / 2 in
  let m := mkMetrics cx cy topY botY maxW neckW neckTopY neckBotY in
  let walls := _buildWallSegments m in
  (m, setGeometry
        (mkGeometry walls (cx - neckW) (cx + neckW) neckTopY neckBotY (botY - 8) (topY + 8))
        particles).

(** The calls on the canvas context that [_drawTopSand] makes. *)
Inductive CanvasCall : Type :=
| save
| beginPath
| moveTo (px py : R)
| lineTo (px py : R)
| quadraticCurveTo (cpx cpy px py : R)
| closePath
| fillStyle (c : effects.Rgba)
| globalAlpha (a : R)
| fill
| restore.

Definition _drawTopSand (particles : ParticleSystem)
    (cx topY neckTopY maxW neckW : R) (color : effects.Rgba) : list CanvasCall :=
  let total := _totalGrains particles in
  let released := _releasedCount particles in
  let remaining := (total - released)%Z in
  if (remaining <=? 0)%Z || (total <=? 0)%Z then []
  else
    let fraction := IZR remaining / IZR total in
    let bulbH := neckTopY - topY - 16 in
    let sandH := bulbH * fraction in
    let sandTopY := neckTopY - 8 - sandH in
    let getWidth := fun py : R =>
      let t := (py - topY) / (neckTopY - topY) in
      let curve := cosine_ease t in
      maxW - curve * (maxW - neckW) in
    let sandBotY := neckTopY - 8 in
    let w1 := getWidth sandTopY - 4 in
    let w2 := getWidth sandBotY - 4 in
    [save; beginPath;
     moveTo (cx - w1) sandTopY;
     lineTo (cx + w1) sandTopY;
     quadraticCurveTo (cx + w2 + 2) (sandBotY - sandH * 0.3) (cx + w2) sandBotY;
     quadraticCurveTo (cx + neckW + 3) (sandBotY + 3) cx (sandBotY + 6);
     quadraticCurveTo (cx - neckW - 3) (sandBotY + 3) (cx - w2) sandBotY;
     quadraticCurveTo (cx - w2 - 2) (sandBotY - sandH * 0.3) (cx - w1) sandTopY;
     closePath;
     fillStyle color; globalAlpha 0.7; fill; globalAlpha 1; restore].

End HourglassRenderer.

(** * Properties *)

(** ** Rounding *)

Lemma pow2_pos e : 0 < powerRZ 2 e.
Proof. apply powerRZ_lt. lra. Qed.

Lemma pow2_ln e : ln (powerRZ 2 e) = IZR e * ln 2.
Proof. rewrite powerRZ_Rpower by lra. apply ln_Rpower. Qed.

Lemma ln2_pos : 0 < ln 2.
Proof. pose proof ln_lt_2. lra. Qed.

Lemma pow2_S e : powerRZ 2 (e + 1) = 2 * powerRZ 2 e.
Proof. rewrite powerRZ_add by lra. simpl. lra. Qed.

Lemma pow2_le a b : (a <= b)%Z -> powerRZ 2 a <= powerRZ 2 b.
Proof.
  intros H. replace b with (a + Z.of_nat (Z.to_nat (b - a)))%Z by lia.
  induction (Z.to_nat (b - a)) as [|n IH].
  - rewrite Z.add_0_r. lra.
  - rewrite Nat2Z.inj_succ. unfold Z.succ. rewrite Z.add_assoc, pow2_S.
    pose proof (pow2_pos a). lra.
Qed.

Lemma pow2_lt_inv a b : powerRZ 2 a < powerRZ 2 b -> (a < b)%Z.
Proof.
  intros H. destruct (Z_lt_le_dec a b) as [|Hle]; [done|].
  pose proof (pow2_le b a Hle). lra.
Qed.

Lemma powerRZ2_pos (n : positive) : powerRZ 2 (Z.pos n) = IZR (2 ^ Z.pos n).
Proof.
  rewrite <- (positive_nat_Z n). rewrite <- pow_IZR. by rewrite <- pow_powerRZ.
Qed.

Lemma powerRZ2_neg (n : positive) : powerRZ 2 (Z.neg n) = / IZR (2 ^ Z.pos n).
Proof.
  change (Z.neg n) with (- Z.pos n)%Z. rewrite powerRZ_neg'. by rewrite powerRZ2_pos.
Qed.

Lemma powerRZ2_nonneg d : (0 <= d)%Z -> powerRZ 2 d = IZR (2 ^ d).
Proof. destruct d as [|p|p]; [done|intros _; apply powerRZ2_pos|lia]. Qed.

Lemma binade_bounds v :
  v <> 0 -> powerRZ 2 (binade v) <= Rabs v < powerRZ 2 (binade v + 1).
Proof.
  intros Hv. pose proof (Rabs_pos_lt v Hv) as Hpos.
  pose proof (Zfloor_bound (ln (Rabs v) / ln 2)) as [H1 H2]. fold (binade v) in H1, H2.
  pose proof ln2_pos as H0.
  assert (Hl : IZR (binade v) * ln 2 <= ln (Rabs v) < (IZR (binade v) + 1) * ln 2).
  { split.
    - apply (Rmult_le_compat_r (ln 2)) in H1; [|lra].
      unfold Rdiv in H1. rewrite Rmult_assoc, Rinv_l in H1 by lra. lra.
    - apply (Rmult_lt_compat_r (ln 2)) in H2; [|lra].
      unfold Rdiv in H2. rewrite Rmult_assoc, Rinv_l in H2 by lra. lra. }
  rewrite <- plus_IZR, <- !pow2_ln in Hl. destruct Hl as [Hl1 Hl2].
  split.
  - destruct (Rle_lt_dec (powerRZ 2 (binade v)) (Rabs v)) as [|Hlt]; [done|].
    apply ln_increasing in Hlt; [lra|done].
  - apply ln_lt_inv; [done|apply pow2_pos|done].
Qed.

Lemma binade_unique v b :
  powerRZ 2 b <= Rabs v < powerRZ 2 (b + 1) -> binade v = b.
Proof.
  intros [H1 H2]. pose proof (pow2_pos b) as Hb.
  assert (Hv : v <> 0).
  { intros ->. rewrite Rabs_R0 in H1. lra. }
  destruct (binade_bounds v Hv) as [H3 H4].
  assert (b < binade v + 1)%Z by (apply pow2_lt_inv; lra).
  assert (binade v < b + 1)%Z by (apply pow2_lt_inv; lra).
  lia.
Qed.

Lemma Rabs_le_between a b : Rabs a <= b -> - b <= a <= b.
Proof. unfold Rabs. destruct (Rcase_abs a); lra. Qed.

Lemma round_half_even_near v : Rabs (IZR (round_half_even v) - v) <= 1 / 2.
Proof.
  unfold round_half_even. pose proof (Zfloor_bound v) as [H1 H2]. cbv zeta.
  destruct (Rlt_dec (v - IZR (Zfloor v)) (1 / 2)).
  { apply Rabs_le. lra. }
  destruct (Rlt_dec (1 / 2) (v - IZR (Zfloor v))).
  { rewrite plus_IZR. apply Rabs_le. lra. }
  destruct (Z.even (Zfloor v)); [|rewrite plus_IZR]; apply Rabs_le; lra.
Qed.

Lemma round_half_even_eq v m :
  IZR m - 1 / 2 < v < IZR m + 1 / 2 -> round_half_even v = m.
Proof.
  intros [H1 H2]. pose proof (round_half_even_near v) as H.
  apply Rabs_le_between in H.
  assert (IZR (round_half_even v) < IZR m + 1) by lra.
  assert (IZR m < IZR (round_half_even v) + 1) by lra.
  rewrite <- plus_IZR in *.
  assert (round_half_even v < m + 1)%Z by (by apply lt_IZR).
  assert (m < round_half_even v + 1)%Z by (by apply lt_IZR).
  lia.
Qed.

Lemma round_half_even_IZR m : round_half_even (IZR m) = m.
Proof. apply round_half_even_eq. lra. Qed.

(** The value of [binary64] from the binade of its argument. *)
Lemma binary64_eq v e m :
  powerRZ 2 (e + 52) <= Rabs v < powerRZ 2 (e + 53) ->
  IZR m - 1 / 2 < v / powerRZ 2 e < IZR m + 1 / 2 ->
  binary64 v = IZR m * powerRZ 2 e.
Proof.
  intros Hb Hm. unfold binary64.
  destruct (Req_dec_T v 0) as [->|Hv].
  { rewrite Rabs_R0 in Hb. pose proof (pow2_pos (e + 52)). lra. }
  cbv zeta. replace (e + 53)%Z with (e + 52 + 1)%Z in Hb by lia.
  rewrite (binade_unique v (e + 52) Hb).
  replace (e + 52 - 52)%Z with e by lia.
  by rewrite (round_half_even_eq _ m Hm).
Qed.

(** Rounding moves a number by at most half a unit in its last place. *)
Lemma binary64_error v : Rabs (binary64 v - v) <= Rabs v * powerRZ 2 (-53).
Proof.
  unfold binary64. destruct (Req_dec_T v 0) as [->|Hv].
  { rewrite Rminus_diag, Rabs_R0. lra. }
  cbv zeta. set (e := (binade v - 52)%Z).
  pose proof (pow2_pos e) as He.
  pose proof (round_half_even_near (v / powerRZ 2 e)) as Hn.
  destruct (binade_bounds v Hv) as [Hb _].
  replace (binade v) with (e + 53 + -1)%Z in Hb by lia.
  assert (H2 : powerRZ 2 (e + 53 + -1) = powerRZ 2 e * powerRZ 2 53 * / 2).
  { rewrite !powerRZ_add by lra. simpl. lra. }
  assert (H3 : powerRZ 2 53 * powerRZ 2 (-53) = 1).
  { rewrite <- powerRZ_add by lra. done. }
  replace (IZR (round_half_even (v / powerRZ 2 e)) * powerRZ 2 e - v)
    with ((IZR (round_half_even (v / powerRZ 2 e)) - v / powerRZ 2 e) * powerRZ 2 e)
    by (field; lra).
  rewrite Rabs_mult, (Rabs_pos_eq (powerRZ 2 e)) by lra.
  pose proof (pow2_pos 53). pose proof (pow2_pos (-53)).
  apply Rle_trans with (1 / 2 * powerRZ 2 e).
  { apply Rmult_le_compat_r; lra. }
  apply Rle_trans with (powerRZ 2 e * powerRZ 2 53 * / 2 * powerRZ 2 (-53)).
  { replace (powerRZ 2 e * powerRZ 2 53 * / 2 * powerRZ 2 (-53))
      with (powerRZ 2 e * / 2 * (powerRZ 2 53 * powerRZ 2 (-53))) by ring.
    rewrite H3. lra. }
  apply Rmult_le_compat_r; lra.
Qed.

Lemma pow2_m53 : powerRZ 2 (-53) < 1 / 2.
Proof. rewrite powerRZ2_neg. change (2 ^ 53)%Z with 9007199254740992%Z. lra. Qed.

(** Rounding keeps the sign, and zero is the only number rounded to zero. *)
Lemma binary64_sign v :
  (0 < v -> 0 < binary64 v) /\ (v < 0 -> binary64 v < 0) /\ (v = 0 -> binary64 v = 0).
Proof.
  pose proof (binary64_error v) as H. pose proof pow2_m53 as Hp.
  pose proof (pow2_pos (-53)) as Hp0.
  split; [|split].
  - intros Hv. rewrite (Rabs_pos_eq v) in H by lra. apply Rabs_le_between in H. nra.
  - intros Hv. rewrite (Rabs_left v) in H by lra. apply Rabs_le_between in H. nra.
  - intros ->. unfold binary64. by destruct (Req_dec_T 0 0).
Qed.

Lemma binary64_0 : binary64 0 = 0.
Proof. by apply binary64_sign. Qed.

Lemma binary64_nonzero v : v <> 0 -> binary64 v <> 0.
Proof.
  intros Hv. destruct (binary64_sign v) as (H1 & H2 & _).
  destruct (Rtotal_order v 0) as [H|[H|H]]; [specialize (H2 H); lra|done|specialize (H1 H); lra].
Qed.

(** A number with a significand of at most 53 bits is not moved. *)
Lemma binary64_exact v m e :
  v = IZR m * powerRZ 2 e -> (Z.abs m < 2 ^ 53)%Z -> binary64 v = v.
Proof.
  intros Hv Hm. destruct (Req_dec_T v 0) as [H0|H0].
  { rewrite H0. apply binary64_0. }
  unfold binary64. destruct (Req_dec_T v 0) as [|_]; [done|]. cbv zeta.
  destruct (binade_bounds v H0) as [Hb _].
  pose proof (pow2_pos e) as He.
  assert (Habs : Rabs v = IZR (Z.abs m) * powerRZ 2 e).
  { rewrite Hv, Rabs_mult, (Rabs_pos_eq (powerRZ 2 e)) by lra. by rewrite abs_IZR. }
  assert (Hlt : (binade v < 53 + e)%Z).
  { apply pow2_lt_inv. rewrite (powerRZ_add 2 53 e) by lra.
    apply IZR_lt in Hm. rewrite Habs in Hb. rewrite (powerRZ2_pos 53). nra. }
  set (b := binade v) in *. set (d := (e - (b - 52))%Z).
  assert (Hd : (0 <= d)%Z) by lia.
  assert (Hs : v / powerRZ 2 (b - 52) = IZR (m * 2 ^ d)).
  { rewrite mult_IZR, <- (powerRZ2_nonneg d Hd). unfold d. rewrite Hv.
    replace (e - (b - 52))%Z with (e + - (b - 52))%Z by lia.
    rewrite (powerRZ_add 2 e) by lra. rewrite powerRZ_neg'.
    field. apply Rgt_not_eq. apply pow2_pos. }
  rewrite Hs, round_half_even_IZR, <- Hs. field. apply Rgt_not_eq. apply pow2_pos.
Qed.

Lemma binary64_int v (n : Z) : v = IZR n -> (Z.abs n < 2 ^ 53)%Z -> binary64 v = v.
Proof.
  intros Hv Hn. apply (binary64_exact v n 0); [|done]. rewrite Hv. simpl. lra.
Qed.

(** ** Comparisons *)

Lemma Rltb_lt a b : Rltb a b = true <-> a < b.
Proof. unfold Rltb. destruct (Rlt_dec a b); split; intros; try done. Qed.

Lemma Rltb_nlt a b : Rltb a b = false <-> ~ a < b.
Proof. unfold Rltb. destruct (Rlt_dec a b); split; intros; try done. Qed.


Lemma Rleb_nle a b : Rleb a b = false <-> ~ a <= b.
Proof. unfold Rleb. destruct (Rle_dec a b); split; intros; try done. Qed.

Lemma Reqb_eq a b : Reqb a b = true <-> a = b.
Proof. unfold Reqb. destruct (Req_dec_T a b); split; intros; try done. Qed.

Lemma Reqb_neq a b : Reqb a b = false <-> a <> b.
Proof. unfold Reqb. destruct (Req_dec_T a b); split; intros; try done. Qed.

(** ** What the physics never writes *)

Lemma fixed_integrate dt g : fixed (integrate dt g) = fixed g.
Proof. reflexivity. Qed.

Lemma fixed_collideWall g w : fixed (_collideWall g w) = fixed g.
Proof.
  unfold _collideWall.
  destruct (Reqb (wall_len2 w) 0); [done|].
  destruct (Rltb (wall_dist g w) (radius g)); [|done].
  cbv zeta. match goal with |- context [if ?c then _ else _] => destruct c end; reflexivity.
Qed.

Lemma fixed_walls ws : forall g, fixed (foldl _collideWall g ws) = fixed g.
Proof.
  induction ws as [|w ws IH]; intros g; simpl; [done|].
  rewrite IH. apply fixed_collideWall.
Qed.

Lemma fixed_floor geo g : fixed (collide_floor geo g) = fixed g.
Proof. unfold collide_floor. destruct (Rltb _ _); reflexivity. Qed.

Lemma fixed_ceiling geo g : fixed (collide_ceiling geo g) = fixed g.
Proof. unfold collide_ceiling. destruct (Rltb _ _); reflexivity. Qed.

Lemma fixed_settle geo nearby gs g : fixed (settle geo nearby gs g) = fixed g.
Proof.
  unfold settle. destruct (Rltb _ _); [|done]. cbv zeta.
  destruct (Rltb _ _); [|done].
  destruct (_ || _); reflexivity.
Qed.

(** Writing a grain with the same fixed fields leaves them as they were
    in the whole array. *)
Lemma fixed_insert (gs : list Grain) i g g' :
  gs !! i = Some g -> fixed g' = fixed g ->
  fixed <$> (<[i := g']> gs) = fixed <$> gs.
Proof.
  intros Hi Hf. rewrite list_fmap_insert, Hf.
  apply list_insert_id. by rewrite list_lookup_fmap, Hi.
Qed.

Lemma fixed_lookup (gs gs' : list Grain) i g :
  fixed <$> gs' = fixed <$> gs -> gs !! i = Some g ->
  exists g', gs' !! i = Some g' /\ fixed g' = fixed g.
Proof.
  intros Heq Hi.
  assert (H : (fixed <$> gs') !! i = Some (fixed g)) by (by rewrite Heq, list_lookup_fmap, Hi).
  rewrite list_lookup_fmap in H.
  destruct (gs' !! i) as [g'|]; simpl in H; [|done].
  exists g'. split; [done|congruence].
Qed.

Lemma fixed_collide_grain g gs j :
  fixed (collide_grain (g, gs) j).1 = fixed g /\
  fixed <$> (collide_grain (g, gs) j).2 = fixed <$> gs.
Proof.
  unfold collide_grain.
  destruct (gs !! j) as [other|] eqn:Hj; [|done].
  cbv zeta. destruct (_ && _); [|done].
  simpl. split.
  - destruct (settled g) eqn:E; simpl; rewrite ?E; reflexivity.
  - destruct (settled other); simpl; [done|].
    by apply fixed_insert with other.
Qed.

Lemma fixed_collide_grains nearby : forall g gs,
  fixed (foldl collide_grain (g, gs) nearby).1 = fixed g /\
  fixed <$> (foldl collide_grain (g, gs) nearby).2 = fixed <$> gs.
Proof.
  induction nearby as [|j nearby IH]; intros g gs; [done|].
  change (foldl collide_grain (g, gs) (j :: nearby))
    with (foldl collide_grain (collide_grain (g, gs) j) nearby).
  destruct (fixed_collide_grain g gs j) as [H1 H2].
  destruct (collide_grain (g, gs) j) as [g1 gs1].
  destruct (IH g1 gs1) as [H3 H4]. simpl in H1, H2.
  split; [by rewrite H3|by rewrite H4].
Qed.

Lemma fixed_updateGrain geo m dt gs i :
  fixed <$> _updateGrain geo m dt gs i = fixed <$> gs.
Proof.
  unfold _updateGrain.
  destruct (gs !! i) as [g|] eqn:Hi; [|done].
  cbv zeta.
  match goal with |- context [foldl collide_grain (?a, gs) ?n] =>
    destruct (fixed_collide_grains n a gs) as [H1 H2];
    destruct (foldl collide_grain (a, gs) n) as [g5 gs5] end.
  simpl in *.
  destruct (fixed_lookup gs gs5 i g H2 Hi) as (g' & Hi' & Hg').
  rewrite <- H2. apply fixed_insert with g'; [done|].
  rewrite fixed_settle, H1, fixed_ceiling, fixed_floor, fixed_walls, fixed_integrate.
  congruence.
Qed.

Lemma fixed_update_step geo m dt gs i :
  fixed <$> update_step geo m dt gs i = fixed <$> gs.
Proof.
  unfold update_step.
  destruct (gs !! i) as [g|]; [|done].
  destruct (_ || _); [done|]. apply fixed_updateGrain.
Qed.

Lemma fixed_update_steps geo m dt idx : forall gs,
  fixed <$> foldl (update_step geo m dt) gs idx = fixed <$> gs.
Proof.
  induction idx as [|i idx IH]; intros gs; simpl; [done|].
  rewrite IH. apply fixed_update_step.
Qed.

Lemma fixed_length (gs gs' : list Grain) :
  fixed <$> gs' = fixed <$> gs -> length gs' = length gs.
Proof. intros H. apply (f_equal length) in H. by rewrite !length_fmap in H. Qed.

Lemma fixed_colorOffset (gs gs' : list Grain) :
  fixed <$> gs' = fixed <$> gs -> colorOffset <$> gs' = colorOffset <$> gs.
Proof.
  intros H. apply (f_equal (fmap (fun p : R * R * string * bool => p.1.1.1))) in H.
  rewrite <- !list_fmap_compose in H. exact H.
Qed.

Lemma fixed_active (gs gs' : list Grain) :
  fixed <$> gs' = fixed <$> gs -> active <$> gs' = active <$> gs.
Proof.
  intros H. apply (f_equal (fmap (fun p : R * R * string * bool => p.2))) in H.
  rewrite <- !list_fmap_compose in H. exact H.
Qed.

Lemma count_active_fmap (gs : list Grain) :
  count_active gs = length (List.filter (fun b : bool => b) (active <$> gs)).
Proof.
  unfold count_active. induction gs as [|g gs IH]; simpl; [done|].
  destruct (active g); simpl; by rewrite IH.
Qed.

Lemma fixed_count_active (gs gs' : list Grain) :
  fixed <$> gs' = fixed <$> gs -> count_active gs' = count_active gs.
Proof. intros H. rewrite !count_active_fmap. by rewrite (fixed_active _ _ H). Qed.

Lemma count_active_le (gs : list Grain) : (count_active gs <= length gs)%nat.
Proof. unfold count_active. apply List.filter_length_le. Qed.

Lemma count_active_inactive (gs : list Grain) :
  (count_active gs < length gs)%nat ->
  exists i g, gs !! i = Some g /\ active g = false.
Proof.
  unfold count_active. induction gs as [|g gs IH]; simpl; [lia|].
  destruct (active g) eqn:Ha; simpl; intros H.
  - destruct IH as (i & g' & Hi & Hg'); [lia|]. by exists (S i), g'.
  - by exists 0%nat, g.
Qed.

Lemma count_active_all (gs : list Grain) :
  (forall i g, gs !! i = Some g -> active g = false) -> count_active gs = 0%nat.
Proof.
  unfold count_active. induction gs as [|g gs IH]; intros H; simpl; [done|].
  rewrite (H 0%nat g eq_refl). apply IH. intros i g'. apply (H (S i) g').
Qed.

Lemma count_active_activate (gs : list Grain) i g g' :
  gs !! i = Some g -> active g = false -> active g' = true ->
  count_active (<[i := g']> gs) = S (count_active gs).
Proof.
  unfold count_active. revert i.
  induction gs as [|g0 gs IH]; intros [|i] Hi Hg Hg'; simpl in *; try done.
  - injection Hi as ->. by rewrite Hg, Hg'.
  - destruct (active g0); simpl; by rewrite (IH i).
Qed.

(** ** Release of the next grain *)

Lemma with_grains_id s : with_grains (_grains s) s = s.
Proof. by destruct s. Qed.

(** The search finds an inactive grain whenever there is one. *)
Lemma best_steps_spec (gs : list Grain) n :
  (n <= length gs)%nat ->
  let acc := foldl (best_step gs) (None, NegInf) (seq 0 n) in
  match acc.1 with
  | Some i => exists g, gs !! i = Some g /\ active g = false
  | None => acc.2 = NegInf /\
            forall i g, (i < n)%nat -> gs !! i = Some g -> active g = true
  end.
Proof.
  induction n as [|n IH]; intros Hn; cbv zeta.
  - simpl. split; [done|]. intros; lia.
  - rewrite seq_S, foldl_app. simpl.
    specialize (IH ltac:(lia)). cbv zeta in IH.
    destruct (foldl (best_step gs) (None, NegInf) (seq 0 n)) as [b bY].
    unfold best_step. simpl in *.
    destruct (lookup_lt_is_Some_2 gs n ltac:(lia)) as [g Hg]. rewrite Hg.
    destruct (active g) eqn:Ha; simpl.
    + destruct b as [i|]; [done|]. destruct IH as [-> IH]. split; [done|].
      intros i g' Hi Hg'. destruct (decide (i = n)) as [->|Hne].
      * congruence.
      * apply (IH i g'); [lia|done].
    + destruct b as [i|].
      * destruct (js_gt (y g) bY); simpl; [by exists g|done].
      * destruct IH as [-> _]. simpl. by exists g.
Qed.

Lemma find_best_spec (gs : list Grain) :
  match find_best gs with
  | Some i => exists g, gs !! i = Some g /\ active g = false
  | None => forall i g, gs !! i = Some g -> active g = true
  end.
Proof.
  unfold find_best. pose proof (best_steps_spec gs (length gs) ltac:(lia)) as H.
  simpl in H. destruct (foldl _ _ _).1 as [i|]; [done|].
  destruct H as [_ H]. intros i g Hi. apply (H i g); [|done].
  by apply lookup_lt_Some in Hi.
Qed.

Section ReleaseProperties.

Variable rnd : nat -> R.

Lemma fixed_release_grain geo k g :
  colorOffset (release_grain rnd geo k g) = colorOffset g /\
  radius (release_grain rnd geo k g) = radius g /\
  active (release_grain rnd geo k g) = true /\
  settled (release_grain rnd geo k g) = false.
Proof. done. Qed.

(** The result of [_releaseNextGrain] with the geometry set: the counter
    goes up by one, and the grain found, if any, is the only one written. *)
Lemma releaseNextGrain_spec s k geo :
  _geometry s = Some geo ->
  exists gs' k',
    _releaseNextGrain rnd s k = (with_releasedCount (_releasedCount s + 1) (with_grains gs' s), k') /\
    ((exists i g, _grains s !! i = Some g /\ active g = false /\
        gs' = <[i := release_grain rnd geo k g]> (_grains s)) \/
     ((forall i g, _grains s !! i = Some g -> active g = true) /\ gs' = _grains s)).
Proof.
  intros Hgeo. unfold _releaseNextGrain. rewrite Hgeo.
  pose proof (find_best_spec (_grains s)) as Hb.
  destruct (find_best (_grains s)) as [i|].
  - destruct Hb as (g & Hi & Hg). rewrite Hi.
    eexists _, _. split; [reflexivity|]. left. by exists i, g.
  - exists (_grains s), k. split; [by rewrite with_grains_id|]. by right.
Qed.

Lemma releaseNextGrain_released s k geo :
  _geometry s = Some geo ->
  _releasedCount (_releaseNextGrain rnd s k).1 = (_releasedCount s + 1)%Z.
Proof.
  intros Hgeo. destruct (releaseNextGrain_spec s k geo Hgeo) as (gs' & k' & -> & _). done.
Qed.

Lemma same_settings_refl s : same_settings s s.
Proof. done. Qed.

Lemma same_settings_trans s1 s2 s3 :
  same_settings s1 s2 -> same_settings s2 s3 -> same_settings s1 s3.
Proof. unfold same_settings. intros (?&?&?&?) (?&?&?&?). repeat split; congruence. Qed.

Lemma releaseNextGrain_settings s k :
  same_settings s (_releaseNextGrain rnd s k).1.
Proof.
  unfold _releaseNextGrain. destruct (_geometry s) as [geo|] eqn:Hgeo; [|done].
  destruct (find_best (_grains s)) as [i|]; [|done].
  destruct (_grains s !! i); done.
Qed.

Lemma releaseNextGrain_grains s k :
  length (_grains (_releaseNextGrain rnd s k).1) = length (_grains s) /\
  colorOffset <$> _grains (_releaseNextGrain rnd s k).1 = colorOffset <$> _grains s.
Proof.
  unfold _releaseNextGrain. destruct (_geometry s) as [geo|] eqn:Hgeo; [|done].
  destruct (find_best (_grains s)) as [i|]; [|done].
  destruct (_grains s !! i) as [g|] eqn:Hi; [|done]. simpl. split.
  - apply length_insert.
  - rewrite list_fmap_insert. apply list_insert_id. by rewrite list_lookup_fmap, Hi.
Qed.

Lemma counted_released_le s : counted s -> (_releasedCount s <= _totalGrains s)%Z.
Proof. intros [H1 H2]. pose proof (count_active_le (_grains s)). lia. Qed.

(** Each release activates exactly one grain that was inactive. *)
Lemma releaseNextGrain_counted s k geo :
  _geometry s = Some geo -> counted s -> (_releasedCount s < _totalGrains s)%Z ->
  counted (_releaseNextGrain rnd s k).1 /\
  count_active (_grains (_releaseNextGrain rnd s k).1) = S (count_active (_grains s)).
Proof.
  intros Hgeo [Hc Hl] Hlt.
  destruct (releaseNextGrain_spec s k geo Hgeo) as (gs' & k' & -> & Hgs').
  destruct Hgs' as [(i & g & Hi & Hg & ->)|[Hall ->]]; simpl.
  - assert (Hn : count_active (<[i := release_grain rnd geo k g]> (_grains s))
                 = S (count_active (_grains s)))
      by (by apply count_active_activate with g).
    unfold counted. simpl. rewrite length_insert, Hn. split; [split|]; lia.
  - destruct (count_active_inactive (_grains s)) as (i & g & Hi & Hg); [lia|].
    rewrite (Hall i g Hi) in Hg. done.
Qed.

(** ** The release loop *)

Lemma release_loop_done fuel target s k :
  js_lt (_releasedCount s) target = false ->
  release_loop rnd fuel target s k = Some (s, k).
Proof. intros H. destruct fuel; simpl; by rewrite H. Qed.

Lemma release_loop_more fuel target : forall s k r fuel',
  release_loop rnd fuel target s k = Some r -> (fuel <= fuel')%nat ->
  release_loop rnd fuel' target s k = Some r.
Proof.
  induction fuel as [|fuel IH]; intros s k r fuel' H Hle.
  - simpl in H. destruct (js_lt _ _) eqn:E; [done|].
    by rewrite release_loop_done.
  - destruct fuel' as [|fuel']; [lia|]. simpl in *.
    destruct (js_lt _ _); [|done].
    destruct (_releaseNextGrain rnd s k) as [s1 k1].
    apply IH; [done|lia].
Qed.

(** The loop ends, with the counter at the target when it was below it; a
    property that every release keeps holds at its end. *)
Lemma release_loop_spec (P : ParticleSystem -> Prop) (t : Z) :
  (forall s k, P s -> (_releasedCount s < t)%Z ->
     P (_releaseNextGrain rnd s k).1 /\
     _releasedCount (_releaseNextGrain rnd s k).1 = (_releasedCount s + 1)%Z) ->
  forall fuel s k, P s -> (Z.to_nat (t - _releasedCount s) <= fuel)%nat ->
  exists s' k', release_loop rnd fuel (Fin t) s k = Some (s', k') /\
    P s' /\ _releasedCount s' = Z.max (_releasedCount s) t.
Proof.
  intros Hstep. induction fuel as [|fuel IH]; intros s k HP Hfuel.
  - exists s, k. rewrite release_loop_done; [|simpl; lia]. split; [done|]. split; [done|lia].
  - simpl. destruct (_releasedCount s <? t)%Z eqn:E.
    + apply Z.ltb_lt in E. destruct (Hstep s k HP E) as [HP1 Hrc1].
      destruct (_releaseNextGrain rnd s k) as [s1 k1]. simpl in *.
      destruct (IH s1 k1 HP1 ltac:(lia)) as (s' & k' & -> & HP' & Hrc').
      exists s', k'. split; [done|]. split; [done|lia].
    + apply Z.ltb_ge in E. exists s, k. split; [done|]. split; [done|lia].
Qed.

End ReleaseProperties.

(** ** The release target *)

Lemma targetReleased_nonzero s e :
  _releaseInterval s <> 0 ->
  targetReleased s e =
    Fin (Z.min (_totalGrains s) (Zfloor (binary64 (e / _releaseInterval s)))).
Proof.
  intros H. unfold targetReleased, js_div.
  destruct (Req_dec_T (_releaseInterval s) 0); [done|]. reflexivity.
Qed.

(** With a release interval of zero the quotient is not finite: plus
    infinity for a positive elapsed time, which [Math.min] caps at the
    number of grains, minus infinity or NaN otherwise. *)
Lemma targetReleased_zero s e :
  _releaseInterval s = 0 ->
  targetReleased s e =
    if Rlt_dec 0 e then Fin (_totalGrains s) else if Rlt_dec e 0 then NegInf else NaN.
Proof.
  intros H. unfold targetReleased, js_div.
  destruct (Req_dec_T (_releaseInterval s) 0); [|done].
  destruct (Rlt_dec 0 e); [done|]. destruct (Rlt_dec e 0); done.
Qed.

Lemma targetReleased_le s e t :
  targetReleased s e = Fin t -> (t <= _totalGrains s)%Z.
Proof.
  unfold targetReleased.
  destruct (js_floor (js_div e (_releaseInterval s))) as [z| | |]; simpl; intros H;
    try done; injection H as <-; lia.
Qed.

(** [Math.min] with the finite number of grains is never plus infinity. *)
Lemma targetReleased_finite_above s e : targetReleased s e <> PosInf.
Proof.
  unfold targetReleased.
  by destruct (js_floor (js_div e (_releaseInterval s))).
Qed.

Section UpdateProperties.

Variable rnd : nat -> R.

Lemma release_phase s k e geo :
  _geometry s = Some geo -> counted s ->
  exists s2 k2,
    (forall fuel, (releases_needed s e <= fuel)%nat ->
       release_loop rnd fuel (targetReleased s e) s k = Some (s2, k2)) /\
    _releasedCount s2 = released_after s e /\
    counted s2 /\ same_settings s s2 /\ _elapsedMs s2 = _elapsedMs s /\
    length (_grains s2) = length (_grains s) /\
    colorOffset <$> _grains s2 = colorOffset <$> _grains s.
Proof.
  intros Hgeo Hc. unfold released_after, releases_needed.
  destruct (targetReleased s e) as [t| | |] eqn:Ht.
  - pose proof (targetReleased_le s e t Ht) as Hle.
    set (P := fun s1 : ParticleSystem =>
      counted s1 /\ same_settings s s1 /\ _elapsedMs s1 = _elapsedMs s /\
      length (_grains s1) = length (_grains s) /\
      colorOffset <$> _grains s1 = colorOffset <$> _grains s).
    assert (Hstep : forall s1 k1, P s1 -> (_releasedCount s1 < t)%Z ->
      P (_releaseNextGrain rnd s1 k1).1 /\
      _releasedCount (_releaseNextGrain rnd s1 k1).1 = (_releasedCount s1 + 1)%Z).
    { intros s1 k1 (Hc1 & Hs1 & He1 & Hl1 & Hco1) Hlt.
      assert (Hgeo1 : _geometry s1 = Some geo) by (destruct Hs1 as (-> & _); done).
      assert (Hlt1 : (_releasedCount s1 < _totalGrains s1)%Z)
        by (destruct Hs1 as (_ & -> & _); lia).
      destruct (releaseNextGrain_counted rnd s1 k1 geo Hgeo1 Hc1 Hlt1) as [Hc2 _].
      destruct (releaseNextGrain_grains rnd s1 k1) as [Hl2 Hco2].
      split; [|by apply releaseNextGrain_released with geo].
      split; [done|]. split.
      { eapply same_settings_trans; [exact Hs1|apply releaseNextGrain_settings]. }
      split; [|split; congruence].
      rewrite <- He1. unfold _releaseNextGrain. rewrite Hgeo1.
      destruct (find_best (_grains s1)) as [i|]; [|done].
      destruct (_grains s1 !! i); done. }
    assert (HP : P s) by (split; [exact Hc|repeat split; done]).
    destruct (release_loop_spec rnd P t Hstep (Z.to_nat (t - _releasedCount s)) s k HP
                ltac:(lia)) as (s2 & k2 & Hrun & HP2 & Hrc).
    exists s2, k2. split.
    { intros fuel Hfuel. by apply release_loop_more with (Z.to_nat (t - _releasedCount s)). }
    split; [done|]. exact HP2.
  - by destruct (targetReleased_finite_above s e).
  - exists s, k. split; [intros; by apply release_loop_done|].
    split; [done|]. split; [exact Hc|repeat split; done].
  - exists s, k. split; [intros; by apply release_loop_done|].
    split; [done|]. split; [exact Hc|repeat split; done].
Qed.

(** [update] on a system with its geometry and grains: it returns, and
    its release loop takes the counter to [released_after]; the physics
    writes neither the counter nor a fixed field of a grain. *)
Lemma update_spec dt e s k geo :
  _geometry s = Some geo -> _grains s <> [] -> counted s ->
  exists s' k',
    (forall fuel, (releases_needed s e <= fuel)%nat ->
       update rnd fuel dt e s k = Some (s', k')) /\
    _releasedCount s' = released_after s e /\
    counted s' /\ same_settings s s' /\
    length (_grains s') = length (_grains s) /\
    colorOffset <$> _grains s' = colorOffset <$> _grains s.
Proof.
  intros Hgeo Hne Hc.
  destruct (release_phase (with_elapsedMs e s) k e geo Hgeo Hc)
    as (s2 & k2 & Hrun & Hrc & [Hc2 Hl2] & Hs2 & _ & Hlen & Hco).
  set (s3 := _buildSpatialGrid s2).
  set (gs := foldl (update_step geo (_spatialGrid s3) dt) (_grains s3)
               (seq 0 (length (_grains s3)))).
  assert (Hfix : fixed <$> gs = fixed <$> _grains s2) by apply fixed_update_steps.
  exists (with_grains gs s3), k2. split.
  { intros fuel Hfuel. unfold update. rewrite Hgeo.
    destruct (_grains s) as [|g0 gs0] eqn:Hg; [done|]. simpl length. simpl Nat.eqb. cbv iota.
    change (targetReleased (with_elapsedMs e s) e) with (targetReleased s e) in Hrun.
    change (releases_needed (with_elapsedMs e s) e) with (releases_needed s e) in Hrun.
    change (targetReleased (with_elapsedMs e s) e) with (targetReleased s e).
    by rewrite (Hrun fuel Hfuel). }
  split; [exact Hrc|]. split.
  { split; simpl.
    - by rewrite (fixed_count_active _ _ Hfix).
    - by rewrite (fixed_length _ _ Hfix). }
  split; [exact Hs2|]. simpl. split.
  - by rewrite (fixed_length _ _ Hfix).
  - by rewrite (fixed_colorOffset _ _ Hfix).
Qed.

Lemma update_more fuel fuel' dt e s k r :
  update rnd fuel dt e s k = Some r -> (fuel <= fuel')%nat ->
  update rnd fuel' dt e s k = Some r.
Proof.
  unfold update. intros H Hle.
  destruct (_geometry s) as [geo|]; [|done].
  destruct (Nat.eqb _ _); [done|].
  destruct (release_loop rnd fuel _ _ _) as [[s2 k2]|] eqn:E; [|done].
  by rewrite (release_loop_more rnd _ _ _ _ _ _ E Hle).
Qed.

(** Without geometry or without grains [update] returns at once. *)
Lemma update_noop fuel dt e s k :
  _geometry s = None \/ _grains s = [] ->
  update rnd fuel dt e s k = Some (s, k).
Proof.
  unfold update. intros [H|H].
  - by rewrite H.
  - rewrite H. by destruct (_geometry s).
Qed.

(** [update] always returns. *)
Lemma update_total dt e s k :
  counted s -> exists st', update rnd (releases_needed s e) dt e s k = Some st'.
Proof.
  intros Hc. destruct (_geometry s) as [geo|] eqn:Hgeo.
  - destruct (_grains s) as [|g0 gs0] eqn:Hg.
    + exists (s, k). apply update_noop. by right.
    + destruct (update_spec dt e s k geo Hgeo ltac:(by rewrite Hg) Hc) as (s' & k' & H & _).
      exists (s', k'). by apply H.
  - exists (s, k). apply update_noop. by left.
Qed.

End UpdateProperties.

(** ** init *)

Section InitProperties.

Variable rnd : nat -> R.

(** What [init] writes into every grain, whatever the draws. *)
Lemma new_grain_flags s geo i k :
  active (new_grain rnd s geo i k) = false /\
  settled (new_grain rnd s geo i k) = true /\
  vx (new_grain rnd s geo i k) = 0 /\ vy (new_grain rnd s geo i k) = 0.
Proof. done. Qed.

Lemma new_grain_bounds s geo i k :
  unit_draws rnd ->
  y (new_grain rnd s geo i k) <= neckTopY geo - 11 /\
  -1 <= colorOffset (new_grain rnd s geo i k) < 1 /\
  GRAIN_RADIUS - 0.4 <= radius (new_grain rnd s geo i k) < GRAIN_RADIUS + 0.4.
Proof.
  intros Hr. unfold new_grain. cbv zeta. cbn [y colorOffset radius].
  pose proof (Hr (k + 1)%nat). pose proof (Hr (k + 2)%nat). pose proof (Hr (k + 3)%nat).
  pose proof (pos_INR (i / 20)) as Hrow.
  assert (0 <= INR (i / 20) * (GRAIN_RADIUS * 2.2)) by (unfold GRAIN_RADIUS; nra).
  pose proof (Rmin_l (neckTopY geo - 12 - INR (i / 20) * (GRAIN_RADIUS * 2.2))
                (topCeilingY geo + (neckTopY geo - topCeilingY geo) * 0.9)).
  unfold GRAIN_RADIUS in *. repeat split; lra.
Qed.

Lemma init_loop_spec geo n : forall i s k,
  exists new,
    init_loop rnd geo n i s k = (with_grains (_grains s ++ new) s, (k + 4 * n)%nat) /\
    length new = n /\
    Forall (fun g => exists s0 j k0, g = new_grain rnd s0 geo j k0) new.
Proof.
  induction n as [|n IH]; intros i s k; simpl.
  - exists []. rewrite app_nil_r, with_grains_id. split; [f_equal; lia|done].
  - destruct (IH (S i) (with_grains (_grains s ++ [new_grain rnd s geo i k]) s) (k + 4)%nat)
      as (new & -> & Hlen & Hall).
    exists (new_grain rnd s geo i k :: new). simpl. split.
    + rewrite <- app_assoc. simpl. f_equal. lia.
    + split; [by rewrite Hlen|]. constructor; [by eexists _, _, _|done].
Qed.

Lemma grain_count_bounds totalMs : (200 <= grain_count totalMs <= 400)%Z.
Proof. unfold grain_count. lia. Qed.

Lemma init_spec totalMs s k geo :
  _geometry s = Some geo ->
  exists new,
    (init rnd totalMs s k).1 =
      mkParticleSystem new (Some geo) (_spatialGrid s) (grain_count totalMs) 0
        (binary64 (totalMs / IZR (grain_count totalMs))) 0 0 totalMs /\
    length new = Z.to_nat (grain_count totalMs) /\
    Forall (fun g => exists s0 j k0, g = new_grain rnd s0 geo j k0) new.
Proof.
  intros Hgeo. unfold init. simpl. rewrite Hgeo. simpl.
  match goal with |- context [init_loop rnd geo ?n ?i ?s0 ?k0] =>
    destruct (init_loop_spec geo n i s0 k0) as (new & -> & Hlen & Hall) end.
  exists new. simpl. split; [|done]. unfold with_grains. simpl. by rewrite Hgeo.
Qed.

Lemma init_without_geometry totalMs s k :
  _geometry s = None ->
  init rnd totalMs s k =
    (with_elapsedMs 0 (with_lastReleaseTime 0 (with_releasedCount 0 (with_grains [] s))), k).
Proof. intros Hgeo. unfold init. simpl. by rewrite Hgeo. Qed.

(** ** explode *)

Lemma explode_steps_spec (gs : list Grain) k n :
  (n <= length gs)%nat ->
  let r := foldl (explode_step rnd) (gs, k) (seq 0 n) in
  length r.1 = length gs /\
  forall i g, gs !! i = Some g ->
    exists g', r.1 !! i = Some g' /\ if (i <? n)%nat then exploded rnd g g' else g' = g.
Proof.
  induction n as [|n IH]; intros Hn; cbv zeta.
  - simpl. split; [done|]. intros i g Hi. by exists g.
  - rewrite seq_S, foldl_app. simpl.
    specialize (IH ltac:(lia)). cbv zeta in IH.
    destruct (foldl (explode_step rnd) (gs, k) (seq 0 n)) as [gs1 k1].
    simpl in IH. destruct IH as [Hlen IH].
    destruct (lookup_lt_is_Some_2 gs n ltac:(lia)) as [gn Hgn].
    destruct (IH n gn Hgn) as (gn' & Hgn' & Hsame).
    rewrite Nat.ltb_irrefl in Hsame. subst gn'.
    unfold explode_step. rewrite Hgn'.
    destruct (settled gn && active gn) eqn:Hk; simpl.
    + split; [by rewrite length_insert|].
      intros i g Hi. destruct (decide (i = n)) as [->|Hne].
      * rewrite list_lookup_insert_eq by lia.
        eexists. split; [done|].
        replace (n <? S n)%nat with true by (symmetry; apply Nat.ltb_lt; lia).
        unfold exploded. assert (g = gn) as -> by congruence.
        rewrite Hk. by exists k1.
      * rewrite list_lookup_insert_ne by done.
        destruct (IH i g Hi) as (g' & Hg' & Hrel). exists g'. split; [done|].
        destruct (i <? n)%nat eqn:E.
        -- replace (i <? S n)%nat with true; [done|].
           symmetry. apply Nat.ltb_lt. apply Nat.ltb_lt in E. lia.
        -- replace (i <? S n)%nat with false; [done|].
           symmetry. apply Nat.ltb_ge. apply Nat.ltb_ge in E. lia.
    + split; [done|].
      intros i g Hi. destruct (IH i g Hi) as (g' & Hg' & Hrel). exists g'. split; [done|].
      destruct (decide (i = n)) as [->|Hne].
      * replace (n <? S n)%nat with true by (symmetry; apply Nat.ltb_lt; lia).
        rewrite Nat.ltb_irrefl in Hrel. subst g'.
        assert (g = gn) as -> by congruence. unfold exploded. by rewrite Hk.
      * destruct (i <? n)%nat eqn:E.
        -- replace (i <? S n)%nat with true; [done|].
           symmetry. apply Nat.ltb_lt. apply Nat.ltb_lt in E. lia.
        -- replace (i <? S n)%nat with false; [done|].
           symmetry. apply Nat.ltb_ge. apply Nat.ltb_ge in E. lia.
Qed.

Lemma explode_spec s k :
  length (_grains (explode rnd s k).1) = length (_grains s) /\
  forall i g, _grains s !! i = Some g ->
    exists g', _grains (explode rnd s k).1 !! i = Some g' /\ exploded rnd g g'.
Proof.
  unfold explode.
  pose proof (explode_steps_spec (_grains s) k (length (_grains s)) ltac:(lia)) as H.
  cbv zeta in H. destruct (foldl _ _ _) as [gs' k']. simpl in *.
  destruct H as [Hlen H]. split; [done|].
  intros i g Hi. destruct (H i g Hi) as (g' & Hg' & Hrel). exists g'. split; [done|].
  apply lookup_lt_Some in Hi.
  by replace (i <? length (_grains s))%nat with true in Hrel
    by (symmetry; by apply Nat.ltb_lt).
Qed.

Lemma exploded_fixed g g' : exploded rnd g g' -> fixed g' = fixed g.
Proof.
  unfold exploded. destruct (_ && _).
  - by intros [k ->].
  - by intros ->.
Qed.

Lemma fixed_explode s k :
  fixed <$> _grains (explode rnd s k).1 = fixed <$> _grains s.
Proof.
  destruct (explode_spec s k) as [Hlen H].
  apply list_eq. intros i. rewrite !list_lookup_fmap.
  destruct (_grains s !! i) as [g|] eqn:Hi.
  - destruct (H i g Hi) as (g' & -> & Hrel). simpl. f_equal. by apply exploded_fixed.
  - apply lookup_ge_None in Hi. rewrite (lookup_ge_None_2 (_grains (explode rnd s k).1) i); [done|lia].
Qed.

Lemma explode_settings s k :
  same_settings s (explode rnd s k).1 /\
  _releasedCount (explode rnd s k).1 = _releasedCount s.
Proof. unfold explode. by destruct (foldl _ _ _). Qed.

End InitProperties.

(** ** The invariant of the store *)

Lemma Inv_new : Inv new_ParticleSystem.
Proof. split; [by split|]. intros H. by destruct H. Qed.

Lemma Inv_no_geometry s :
  Inv s -> _geometry s = None ->
  _grains s = [] /\ _releasedCount s = 0%Z /\ _totalGrains s = 0%Z.
Proof.
  intros [[Hc Hl] Hg] Hgeo.
  destruct (_grains s) as [|g gs] eqn:E.
  - simpl in *. unfold count_active in Hc. simpl in Hc. by repeat split.
  - destruct Hg as [Hg _]; [done|]. by destruct Hg.
Qed.

Section Reachability.

Variable rnd : nat -> R.

Lemma release_loop_colorOffset fuel target : forall s k s' k',
  release_loop rnd fuel target s k = Some (s', k') ->
  colorOffset <$> _grains s' = colorOffset <$> _grains s /\
  (_releasedCount s <= _releasedCount s')%Z.
Proof.
  induction fuel as [|fuel IH]; intros s k s' k'; simpl.
  - destruct (js_lt _ _); [done|]. intros [= <- <-]. split; [done|lia].
  - destruct (js_lt _ _); [|intros [= <- <-]; split; [done|lia]].
    destruct (releaseNextGrain_grains rnd s k) as [_ Hco].
    assert (Hrc : (_releasedCount s <= _releasedCount (_releaseNextGrain rnd s k).1)%Z).
    { unfold _releaseNextGrain. destruct (_geometry s); [|simpl; lia].
      destruct (find_best (_grains s)) as [i|]; [|simpl; lia].
      destruct (_grains s !! i); simpl; lia. }
    destruct (_releaseNextGrain rnd s k) as [s1 k1]. simpl in *.
    intros H. destruct (IH s1 k1 s' k' H) as [H1 H2]. split; [congruence|lia].
Qed.

(** Whatever [update] returns, it has written no [colorOffset] and has not
    lowered the counter. *)
Lemma update_colorOffset fuel dt e s k s' k' :
  update rnd fuel dt e s k = Some (s', k') ->
  colorOffset <$> _grains s' = colorOffset <$> _grains s /\
  (_releasedCount s <= _releasedCount s')%Z.
Proof.
  unfold update. destruct (_geometry s) as [geo|]; [|intros [= <- <-]; split; [done|lia]].
  destruct (Nat.eqb _ _); [intros [= <- <-]; split; [done|lia]|].
  destruct (release_loop rnd fuel _ _ _) as [[s2 k2]|] eqn:E; [|done].
  intros [= <- <-]. simpl.
  destruct (release_loop_colorOffset _ _ _ _ _ _ E) as [Hco Hrc]. simpl in *.
  split; [|done]. rewrite <- Hco.
  apply fixed_colorOffset, fixed_update_steps.
Qed.

Lemma step_Inv st c st' : step rnd st c st' -> Inv st.1 -> Inv st'.1.
Proof.
  intros Hstep HI. destruct Hstep as [geo s k|totalMs s k|fuel dt e s k st' Hup|s k|s k];
    simpl in *.
  - destruct HI as [Hc Hg]. split; [exact Hc|]. intros Hne.
    destruct (Hg Hne) as [_ Hint]. by split.
  - destruct (_geometry s) as [geo|] eqn:Hgeo.
    + destruct (init_spec rnd totalMs s k geo Hgeo) as (new & -> & Hlen & Hall).
      pose proof (grain_count_bounds totalMs) as Hb.
      split; [split|]; simpl.
      * rewrite count_active_all; [done|]. intros i g Hi.
        apply list_elem_of_lookup_2 in Hi.
        rewrite Forall_forall in Hall. by destruct (Hall g Hi) as (s0 & j & k0 & ->).
      * rewrite Hlen. lia.
      * by intros _.
    + rewrite init_without_geometry by done.
      destruct (Inv_no_geometry s HI Hgeo) as (Hgs & Hrc & Htg).
      split; [split|]; simpl; [done|by rewrite Htg|done].
  - destruct (_geometry s) as [geo|] eqn:Hgeo.
    + destruct (_grains s) as [|g0 gs0] eqn:Hgs.
      * rewrite update_noop in Hup by (by right). by injection Hup as <-.
      * destruct HI as [Hc Hg].
        destruct (update_spec rnd dt e s k geo Hgeo ltac:(by rewrite Hgs) Hc)
          as (s' & k' & Hrun & _ & Hc' & (Hs1 & Hs2 & Hs3 & Hs4) & _).
        assert (st' = (s', k')) as ->.
        { pose proof (update_more rnd fuel (Nat.max fuel (releases_needed s e)) dt e s k st'
                        Hup ltac:(lia)) as H1.
          rewrite Hrun in H1 by lia. congruence. }
        simpl. split; [exact Hc'|]. intros _.
        destruct Hg as [_ Hint]; [by rewrite Hgs|].
        rewrite Hs1, Hs2, Hs3, Hs4, Hgeo. by split.
    + rewrite update_noop in Hup by (by left). by injection Hup as <-.
  - destruct HI as [[Hc Hl] Hg].
    pose proof (fixed_explode rnd s k) as Hfix.
    destruct (explode_settings rnd s k) as [(Hs1 & Hs2 & Hs3 & Hs4) Hrc].
    split; [split|].
    + by rewrite (fixed_count_active _ _ Hfix), Hrc.
    + by rewrite (fixed_length _ _ Hfix), Hs2.
    + intros Hne. rewrite Hs1, Hs2, Hs3, Hs4. apply Hg.
      intros Hnil. apply Hne. apply fixed_length in Hfix. rewrite Hnil in Hfix.
      by apply length_zero_iff_nil.
  - split; [by split|]. intros H. by destruct H.
Qed.

Lemma run_Inv st cs st' : run rnd st cs st' -> Inv st.1 -> Inv st'.1.
Proof.
  induction 1 as [st|st c st1 cs st2 Hstep Hrun IH]; [done|].
  intros HI. apply IH. by apply step_Inv with st c.
Qed.

Lemma reachable_Inv st : reachable rnd st -> Inv st.1.
Proof. intros (k0 & cs & Hrun). apply (run_Inv _ _ _ Hrun). apply Inv_new. Qed.

Lemma updates_released_le st cs st' :
  run rnd st cs st' -> Forall update_call cs ->
  (_releasedCount st.1 <= _releasedCount st'.1)%Z.
Proof.
  induction 1 as [st|st c st1 cs st2 Hstep Hrun IH]; intros Hall; [lia|].
  inversion Hall as [|? ? Hc Hcs]; subst.
  specialize (IH Hcs).
  destruct Hstep as [geo s k|totalMs s k|fuel dt e s k [s' k'] Hup|s k|s k]; try done.
  destruct (update_colorOffset _ _ _ _ _ _ _ Hup) as [_ Hle]. simpl in *. lia.
Qed.

End Reachability.

(** ** A concrete system *)

Lemma half_draws_unit : unit_draws half_draws.
Proof. intros n. unfold half_draws. lra. Qed.

Lemma test_system_reachable k : reachable half_draws (test_system, k).
Proof.
  exists k, [CallSetGeometry test_geometry].
  eapply run_cons; [apply step_setGeometry|apply run_nil].
Qed.

(** ** Number of grains *)

Lemma grain_count_clamp totalMs :
  grain_count totalMs = clamp (Zfloor (totalMs / 500)) 200 400.
Proof.
  unfold grain_count, clamp.
  destruct (Z.ltb_spec (Zfloor (totalMs / 500)) 200); [lia|].
  destruct (Z.ltb_spec 400 (Zfloor (totalMs / 500))); lia.
Qed.

Lemma grain_count_of (z : Z) totalMs :
  IZR z <= totalMs / 500 < IZR z + 1 ->
  grain_count totalMs = Z.min 400 (Z.max 200 z).
Proof. intros H. unfold grain_count. by rewrite (Zfloor_eq z). Qed.

Lemma totalGrains_after_init rnd totalMs s k geo :
  _geometry s = Some geo -> _totalGrains (init rnd totalMs s k).1 = grain_count totalMs.
Proof.
  intros Hgeo. by destruct (init_spec rnd totalMs s k geo Hgeo) as (new & -> & _).
Qed.

(** C2. With the geometry set, [init] computes
    [clamp (floor (totalMs / 500), 200, 400)] grains, between 200 and 400:
    200 for 1000 ms, 300 for 150000 ms and 400 for 600000 ms. *)
Theorem init_totalGrains rnd s k geo :
  _geometry s = Some geo ->
  (forall totalMs,
     _totalGrains (init rnd totalMs s k).1 = clamp (Zfloor (totalMs / 500)) 200 400 /\
     (200 <= _totalGrains (init rnd totalMs s k).1 <= 400)%Z /\
     length (_grains (init rnd totalMs s k).1) = Z.to_nat (_totalGrains (init rnd totalMs s k).1)) /\
  _totalGrains (init rnd 1000 s k).1 = 200%Z /\
  _totalGrains (init rnd 150000 s k).1 = 300%Z /\
  _totalGrains (init rnd 600000 s k).1 = 400%Z.
Proof.
  intros Hgeo. split.
  - intros totalMs. rewrite (totalGrains_after_init rnd totalMs s k geo Hgeo).
    split; [apply grain_count_clamp|]. split; [apply grain_count_bounds|].
    by destruct (init_spec rnd totalMs s k geo Hgeo) as (new & -> & Hlen & _).
  - rewrite !(totalGrains_after_init rnd _ s k geo Hgeo).
    rewrite (grain_count_of 2 1000) by (simpl; lra).
    rewrite (grain_count_of 300 150000) by (simpl; lra).
    rewrite (grain_count_of 1200 600000) by (simpl; lra).
    done.
Qed.

Lemma init_totalGrains_witness :
  _geometry test_system = Some test_geometry /\
  _totalGrains (init half_draws 150000 test_system 0).1 = 300%Z.
Proof.
  split; [reflexivity|].
  apply (init_totalGrains half_draws test_system 0%nat test_geometry eq_refl).
Defined.

(** ** The grains [init] creates *)

(** C8. Right after [init] with the geometry set, the store holds the
    grains just created, and each of them is inactive and settled, lies at
    or above the top of the neck, and has a [colorOffset] in [-1, 1]. *)
Theorem init_grains rnd totalMs s k geo :
  unit_draws rnd -> _geometry s = Some geo ->
  (200 <= length (_grains (init rnd totalMs s k).1))%nat /\
  Forall (fun g =>
            active g = false /\ settled g = true /\
            y g <= neckTopY geo /\ -1 <= colorOffset g <= 1)
         (_grains (init rnd totalMs s k).1).
Proof.
  intros Hr Hgeo.
  destruct (init_spec rnd totalMs s k geo Hgeo) as (new & -> & Hlen & Hall). simpl.
  pose proof (grain_count_bounds totalMs). split; [lia|].
  eapply Forall_impl; [exact Hall|].
  intros g (s0 & j & k0 & ->).
  destruct (new_grain_bounds rnd s0 geo j k0 Hr) as (Hy & Hco & _).
  repeat split; lra.
Qed.

Lemma init_grains_witness :
  (200 <= length (_grains (init half_draws 60000 test_system 0).1))%nat /\
  Forall (fun g =>
            active g = false /\ settled g = true /\
            y g <= neckTopY test_geometry /\ -1 <= colorOffset g <= 1)
         (_grains (init half_draws 60000 test_system 0).1).
Proof.
  apply (init_grains half_draws 60000 test_system 0%nat test_geometry).
  - intros n. unfold half_draws. lra.
  - reflexivity.
Defined.

(** ** [update] right after [init] *)

Lemma init_state rnd totalMs s k geo :
  _geometry s = Some geo ->
  let s1 := (init rnd totalMs s k).1 in
  _geometry s1 = Some geo /\ _grains s1 <> [] /\ counted s1 /\
  _totalGrains s1 = grain_count totalMs /\
  _releaseInterval s1 = binary64 (totalMs / IZR (grain_count totalMs)) /\
  _releasedCount s1 = 0%Z /\ _totalMs s1 = totalMs.
Proof.
  intros Hgeo. cbv zeta.
  destruct (init_spec rnd totalMs s k geo Hgeo) as (new & -> & Hlen & Hall). simpl.
  pose proof (grain_count_bounds totalMs) as Hb.
  split; [done|]. split.
  { intros ->. simpl in Hlen. lia. }
  split; [|done]. split; simpl.
  - rewrite count_active_all; [done|]. intros i g Hi.
    apply list_elem_of_lookup_2 in Hi.
    rewrite Forall_forall in Hall. by destruct (Hall g Hi) as (s0 & j & k0 & ->).
  - rewrite Hlen. lia.
Qed.

(** The first [update] after [init]: it returns, with the counter at the
    release target. *)
Lemma init_then_update rnd totalMs s k geo dt e :
  _geometry s = Some geo ->
  let st := init rnd totalMs s k in
  exists s' k',
    (forall fuel, (releases_needed st.1 e <= fuel)%nat ->
       update rnd fuel dt e st.1 st.2 = Some (s', k')) /\
    _releasedCount s' = released_after st.1 e /\
    _totalGrains s' = grain_count totalMs.
Proof.
  intros Hgeo st.
  destruct (init_state rnd totalMs s k geo Hgeo) as (Hg1 & Hne & Hc & Htg & _).
  destruct (update_spec rnd dt e st.1 st.2 geo Hg1 Hne Hc)
    as (s' & k' & Hrun & Hrc & _ & (_ & Hs2 & _) & _).
  exists s', k'. split; [done|]. split; [done|]. by rewrite Hs2.
Qed.

Lemma grain_count_nonpositive totalMs : totalMs <= 0 -> grain_count totalMs = 200%Z.
Proof.
  intros H. unfold grain_count.
  assert (Zfloor (totalMs / 500) <= 0)%Z; [|lia].
  pose proof (Zfloor_bound (totalMs / 500)) as [Hb _].
  apply le_IZR. lra.
Qed.

(** ** The end-to-end scenario of the specification *)

(** One [update] on a system with a non-zero interval, with the floor of
    the quotient given; as many iterations as there are grains suffice. *)
Lemma update_released_value rnd dt e s k geo (z : Z) :
  _geometry s = Some geo -> _grains s <> [] -> counted s ->
  _releaseInterval s <> 0 -> IZR z <= binary64 (e / _releaseInterval s) < IZR z + 1 ->
  exists s' k',
    (forall fuel, (Z.to_nat (_totalGrains s) <= fuel)%nat ->
       update rnd fuel dt e s k = Some (s', k')) /\
    _releasedCount s' = Z.max (_releasedCount s) (Z.min (_totalGrains s) z) /\
    _geometry s' = Some geo /\ _grains s' <> [] /\ counted s' /\
    _totalGrains s' = _totalGrains s /\ _releaseInterval s' = _releaseInterval s.
Proof.
  intros Hgeo Hne Hc Hnz Hz.
  destruct (update_spec rnd dt e s k geo Hgeo Hne Hc)
    as (s' & k' & Hrun & Hrc & Hc' & (Hs1 & Hs2 & Hs3 & _) & Hlen & _).
  pose proof (targetReleased_nonzero s e Hnz) as Ht. rewrite (Zfloor_eq z) in Ht by done.
  exists s', k'. split.
  { intros fuel Hfuel. apply Hrun. unfold releases_needed. rewrite Ht.
    destruct Hc as [Hc _]. lia. }
  split; [by rewrite Hrc; unfold released_after; rewrite Ht|].
  split; [by rewrite Hs1|]. split; [|done].
  intros Hnil. apply Hne. rewrite Hnil in Hlen. symmetry in Hlen.
  by apply length_zero_iff_nil.
Qed.

(** [init (60000)] gives 200 grains and an interval of 300 ms; then
    [update] at 300 ms, 30000 ms and 60000 ms leaves 1, 100 and 200 grains
    released: here every quotient is an integer and no rounding occurs. *)
Lemma end_to_end_scenario rnd s k geo dt :
  _geometry s = Some geo ->
  let st := init rnd 60000 s k in
  _totalGrains st.1 = 200%Z /\ _releaseInterval st.1 = 300 /\
  exists s1 k1 s2 k2 s3 k3,
    update rnd 200 dt 300 st.1 st.2 = Some (s1, k1) /\ _releasedCount s1 = 1%Z /\
    update rnd 200 dt 30000 s1 k1 = Some (s2, k2) /\ _releasedCount s2 = 100%Z /\
    update rnd 200 dt 60000 s2 k2 = Some (s3, k3) /\ _releasedCount s3 = 200%Z.
Proof.
  intros Hgeo st.
  destruct (init_state rnd 60000 s k geo Hgeo) as (Hg0 & Hne0 & Hc0 & Htg0 & Hint0 & Hrc0 & _).
  fold st in Hg0, Hne0, Hc0, Htg0, Hint0, Hrc0.
  rewrite (grain_count_of 120 60000) in Htg0, Hint0 by (simpl; lra).
  change (Z.min 400 (Z.max 200 120)) with 200%Z in Htg0, Hint0.
  assert (Hint0' : _releaseInterval st.1 = 300).
  { rewrite Hint0, (binary64_int _ 300) by (first [lra|reflexivity]). lra. }
  split; [done|]. split; [done|].
  destruct (update_released_value rnd dt 300 st.1 st.2 geo 1 Hg0 Hne0 Hc0)
    as (s1 & k1 & Hrun1 & Hrc1 & Hg1 & Hne1 & Hc1 & Htg1 & Hint1);
    [rewrite Hint0'; lra
    |rewrite Hint0', (binary64_int _ 1) by (first [lra|reflexivity]); lra|].
  rewrite Hint0' in Hint1. rewrite Htg0 in Htg1.
  destruct (update_released_value rnd dt 30000 s1 k1 geo 100 Hg1 Hne1 Hc1)
    as (s2 & k2 & Hrun2 & Hrc2 & Hg2 & Hne2 & Hc2 & Htg2 & Hint2);
    [rewrite Hint1; lra
    |rewrite Hint1, (binary64_int _ 100) by (first [lra|reflexivity]); lra|].
  rewrite Hint1 in Hint2. rewrite Htg1 in Htg2.
  destruct (update_released_value rnd dt 60000 s2 k2 geo 200 Hg2 Hne2 Hc2)
    as (s3 & k3 & Hrun3 & Hrc3 & _);
    [rewrite Hint2; lra
    |rewrite Hint2, (binary64_int _ 200) by (first [lra|reflexivity]); lra|].
  exists s1, k1, s2, k2, s3, k3.
  split; [apply Hrun1; rewrite Htg0; simpl; lia|].
  split; [rewrite Hrc1, Hrc0, Htg0; done|].
  split; [apply Hrun2; rewrite Htg1; simpl; lia|].
  split; [rewrite Hrc2, Hrc1, Hrc0, Htg0, Htg1; done|].
  split; [apply Hrun3; rewrite Htg2; simpl; lia|].
  rewrite Hrc3, Hrc2, Hrc1, Hrc0, Htg0, Htg1, Htg2. done.
Qed.

(** ** Durations that are not positive *)

(** C3, as the code has it.  After [init] with a duration that is not
    positive there are 200 grains and the release interval is the duration
    over 200, rounded: it is not floored, so it is negative, or zero for a
    zero duration.  A later [update] still returns: for a zero interval the
    quotient is not finite, and all grains are released when the elapsed
    time is positive and none otherwise; for a negative duration nothing
    is released unless the elapsed time is negative too. *)
Theorem init_nonpositive_duration rnd totalMs s k geo :
  _geometry s = Some geo -> totalMs <= 0 ->
  let st := init rnd totalMs s k in
  _totalGrains st.1 = 200%Z /\
  _releaseInterval st.1 = binary64 (totalMs / 200) /\
  _releaseInterval st.1 <= 0 /\
  forall dt e, exists s' k',
    (forall fuel, (releases_needed st.1 e <= fuel)%nat ->
       update rnd fuel dt e st.1 st.2 = Some (s', k')) /\
    _releasedCount s' =
      (if Req_dec_T totalMs 0 then (if Rlt_dec 0 e then 200%Z else 0%Z)
       else Z.max 0 (Z.min 200 (Zfloor (binary64 (e / binary64 (totalMs / 200)))))) /\
    (totalMs < 0 -> 0 <= e -> _releasedCount s' = 0%Z).
Proof.
  intros Hgeo Hle st.
  destruct (init_state rnd totalMs s k geo Hgeo) as (_ & _ & _ & Htg & Hint & Hrc & _).
  rewrite (grain_count_nonpositive totalMs Hle) in Htg, Hint.
  fold st in Htg, Hint, Hrc.
  destruct (binary64_sign (totalMs / 200)) as (_ & Hneg & Hzero).
  assert (Hiff : _releaseInterval st.1 = 0 <-> totalMs = 0).
  { rewrite Hint. split.
    - intros H0. destruct (Req_dec_T totalMs 0) as [|Hnz]; [done|].
      exfalso. apply (binary64_nonzero (totalMs / 200)); [lra|done].
    - intros ->. apply Hzero. lra. }
  split; [done|]. split; [done|]. split.
  { rewrite Hint. destruct (Req_dec_T totalMs 0) as [->|Hnz].
    - rewrite Hzero; lra.
    - apply Rlt_le, Hneg. lra. }
  intros dt e.
  destruct (init_then_update rnd totalMs s k geo dt e Hgeo) as (s' & k' & Hrun & Hres & _).
  fold st in Hrun, Hres. exists s', k'. split; [done|].
  rewrite Hres. unfold released_after.
  destruct (Req_dec_T totalMs 0) as [->|Hnz].
  - rewrite targetReleased_zero by (by apply Hiff).
    rewrite Htg, Hrc. split; [|lra].
    destruct (Rlt_dec 0 e); [lia|]. by destruct (Rlt_dec e 0).
  - rewrite targetReleased_nonzero by (by rewrite Hiff).
    rewrite Htg, Hrc, Hint. split; [done|]. intros Hlt He.
    assert (Hq : binary64 (e / binary64 (totalMs / 200)) <= 0).
    { specialize (Hneg ltac:(lra)).
      assert (Hq0 : e / binary64 (totalMs / 200) <= 0).
      { unfold Rdiv. pose proof (Rinv_lt_0_compat _ Hneg). nra. }
      destruct (binary64_sign (e / binary64 (totalMs / 200))) as (_ & Hn & Hz).
      destruct (Req_dec_T (e / binary64 (totalMs / 200)) 0) as [H0|H0].
      - rewrite (Hz H0). lra.
      - apply Rlt_le, Hn. lra. }
    assert (Zfloor (binary64 (e / binary64 (totalMs / 200))) <= 0)%Z; [|lia].
    pose proof (Zfloor_bound (binary64 (e / binary64 (totalMs / 200)))) as [Hb _].
    apply le_IZR. lra.
Qed.

Lemma init_nonpositive_duration_witness :
  _totalGrains (init half_draws 0 test_system 0).1 = 200%Z /\
  _releaseInterval (init half_draws 0 test_system 0).1 = binary64 (0 / 200).
Proof.
  pose proof (init_nonpositive_duration half_draws 0 test_system 0%nat test_geometry
                eq_refl ltac:(lra)) as H.
  cbv zeta in H. destruct H as (H1 & H2 & _). by split.
Defined.

(** The claim C3 fails for a zero duration: the interval is zero, not a
    small positive number, and the target of [update] is the quotient of a
    division by zero. *)
Lemma init_zero_interval_is_zero :
  let s0 := (init half_draws 0 test_system 0).1 in
  _totalGrains s0 = 200%Z /\
  ~ 0 < _releaseInterval s0 /\
  js_div 0 (_releaseInterval s0) = NaN /\
  js_div 1 (_releaseInterval s0) = PosInf.
Proof.
  cbv zeta.
  destruct (init_state half_draws 0 test_system 0%nat test_geometry eq_refl)
    as (_ & _ & _ & Htg & Hint & _).
  rewrite (grain_count_nonpositive 0) in Htg, Hint by lra.
  split; [done|]. rewrite Hint.
  replace (0 / 200) with 0 by lra. rewrite binary64_0. split; [lra|].
  unfold js_div. destruct (Req_dec_T 0 0); [|done].
  split.
  - destruct (Rlt_dec 0 0); [lra|]. done.
  - destruct (Rlt_dec 0 1); [done|lra].
Qed.

(** ** The release count of [update] *)

(** C1, as the code has it.  On a system that holds its geometry and
    grains, [update] returns, its result does not depend on the fuel, and
    the counter never goes down, in one call or over any further [update]
    calls, and never exceeds the number of grains.  The release interval
    is not zero when the duration over the number of grains lies in the
    normal range of binary64.  When the interval is not zero the counter
    ends at the maximum of its value before the call and the target
    [min (totalGrains, floor (e / releaseInterval))], the quotient rounded
    as the code rounds it; hence it is [totalGrains] once that floor has
    reached the number of grains. *)
Theorem update_releasedCount rnd s k dt e :
  reachable rnd (s, k) -> _geometry s <> None -> _grains s <> [] ->
  exists s' k',
    (forall fuel, (releases_needed s e <= fuel)%nat ->
       update rnd fuel dt e s k = Some (s', k')) /\
    (forall fuel r, update rnd fuel dt e s k = Some r -> r = (s', k')) /\
    (powerRZ 2 (-1022) <= Rabs (_totalMs s / IZR (_totalGrains s)) ->
     _releaseInterval s <> 0) /\
    (_releaseInterval s <> 0 ->
     _releasedCount s' =
       Z.max (_releasedCount s)
             (Z.min (_totalGrains s) (Zfloor (binary64 (e / _releaseInterval s))))) /\
    (_releasedCount s <= _releasedCount s' <= _totalGrains s)%Z /\
    (forall cs st'', run rnd (s', k') cs st'' -> Forall update_call cs ->
       (_releasedCount s' <= _releasedCount st''.1)%Z) /\
    (_releaseInterval s <> 0 ->
     (_totalGrains s <= Zfloor (binary64 (e / _releaseInterval s)))%Z ->
     _releasedCount s' = _totalGrains s) /\
    _totalGrains s' = _totalGrains s.
Proof.
  intros Hreach Hgeo Hne.
  destruct (reachable_Inv rnd _ Hreach) as [Hc Hg]. simpl in Hc, Hg.
  destruct (Hg Hne) as [_ Hint].
  destruct (_geometry s) as [geo|] eqn:Hgeo'; [|done].
  destruct (update_spec rnd dt e s k geo Hgeo' Hne Hc)
    as (s' & k' & Hrun & Hrc & Hc' & (_ & Hs2 & _) & _).
  assert (Htg : (0 < _totalGrains s)%Z).
  { destruct Hc as [_ Hl]. destruct (_grains s); [done|]. simpl in Hl. lia. }
  pose proof (counted_released_le s Hc) as Hle.
  pose proof (counted_released_le s' Hc') as Hle'. rewrite Hs2 in Hle'.
  exists s', k'. split; [done|]. split.
  { intros fuel r Hup.
    pose proof (update_more rnd fuel (Nat.max fuel (releases_needed s e)) dt e s k r
                  Hup ltac:(lia)) as H1.
    rewrite Hrun in H1 by lia. congruence. }
  split.
  { intros Hms. rewrite Hint. apply binary64_nonzero.
    intros H. rewrite H, Rabs_R0 in Hms. pose proof (pow2_pos (-1022)). lra. }
  split.
  { intros Hnz. rewrite Hrc. unfold released_after.
    by rewrite targetReleased_nonzero by done. }
  split.
  { split; [|done]. rewrite Hrc. unfold released_after. destruct (targetReleased s e); lia. }
  split.
  { intros cs st'' Hcs Hall. apply (updates_released_le rnd _ _ _ Hcs Hall). }
  split; [|done].
  intros Hnz Hfl. rewrite Hrc. unfold released_after.
  rewrite targetReleased_nonzero by done. lia.
Qed.

Lemma update_releasedCount_witness :
  reachable half_draws (init half_draws 60000 test_system 0) /\
  exists s' k',
    update half_draws 200 0.016 60000 (init half_draws 60000 test_system 0).1
      (init half_draws 60000 test_system 0).2 = Some (s', k') /\
    _releasedCount s' = 200%Z.
Proof.
  assert (Hreach : reachable half_draws (init half_draws 60000 test_system 0)).
  { exists 0%nat, [CallSetGeometry test_geometry; CallInit 60000].
    eapply run_cons; [apply step_setGeometry|].
    eapply run_cons; [apply step_init|apply run_nil]. }
  split; [exact Hreach|].
  destruct (init_state half_draws 60000 test_system 0%nat test_geometry eq_refl)
    as (Hgeo & Hne & Hc & Htg & Hint & Hrc & Hms).
  rewrite (grain_count_of 120 60000) in Htg, Hint by (simpl; lra).
  change (Z.min 400 (Z.max 200 120)) with 200%Z in Htg, Hint.
  rewrite (binary64_int _ 300) in Hint by (first [lra|reflexivity]).
  destruct (init half_draws 60000 test_system 0) as [s0 k0] eqn:E. simpl in *.
  destruct (update_releasedCount half_draws s0 k0 0.016 60000 Hreach
              ltac:(by rewrite Hgeo) Hne)
    as (s' & k' & Hrun & _ & _ & _ & _ & _ & Hall & _).
  exists s', k'. split.
  - apply Hrun. unfold releases_needed.
    pose proof (targetReleased_le s0 60000) as Hle.
    destruct (targetReleased s0 60000) as [t| | |]; try lia.
    specialize (Hle t eq_refl). rewrite Htg in Hle. lia.
  - rewrite Hall, Htg; [done|rewrite Hint; lra|].
    rewrite Htg, Hint, (binary64_int _ 200) by (first [lra|reflexivity]).
    apply Zfloor_lub. lra.
Defined.

(** The claim C1 fails after [init 0], which the application issues when a
    timer is cleared: the elapsed time 0 has reached the duration 0, and
    [update] releases nothing, since 0 / 0 is NaN. *)
Lemma update_zero_duration_releases_nothing :
  let st := init half_draws 0 test_system 0 in
  _geometry st.1 <> None /\ _grains st.1 <> [] /\ _totalMs st.1 <= 0 /\
  exists s' k',
    update half_draws 0 0.016 0 st.1 st.2 = Some (s', k') /\
    _releasedCount s' = 0%Z /\ _totalGrains s' = 200%Z /\
    _releasedCount s' <> _totalGrains s'.
Proof.
  intros st.
  destruct (init_state half_draws 0 test_system 0%nat test_geometry eq_refl)
    as (Hgeo & Hne & Hc & Htg & Hint & Hrc & Hms).
  fold st in Hgeo, Hne, Hc, Htg, Hint, Hrc, Hms.
  rewrite (grain_count_nonpositive 0) in Htg, Hint by lra.
  split; [by rewrite Hgeo|]. split; [done|]. split; [lra|].
  destruct (init_then_update half_draws 0 test_system 0%nat test_geometry 0.016 0 eq_refl)
    as (s' & k' & Hrun & Hres & Htg').
  fold st in Hrun, Hres.
  rewrite (grain_count_nonpositive 0) in Htg' by lra.
  assert (Ht : targetReleased st.1 0 = NaN).
  { rewrite targetReleased_zero
      by (rewrite Hint; replace (0 / IZR 200) with 0 by lra; apply binary64_0).
    destruct (Rlt_dec 0 0); [lra|]. by destruct (Rlt_dec 0 0). }
  unfold released_after in Hres. unfold releases_needed in Hrun.
  rewrite Ht in Hres, Hrun.
  exists s', k'. split; [by apply Hrun|].
  rewrite Hres, Hrc, Htg'. done.
Qed.

(** ** Without geometry *)

(** C4. On a system whose geometry has not been set, [init], [update] and
    [explode] return without an error and leave the grains, the number of
    grains and the release count as they were. *)
Theorem no_geometry_noop rnd s k :
  reachable rnd (s, k) -> _geometry s = None ->
  (forall totalMs,
     _grains (init rnd totalMs s k).1 = _grains s /\
     _totalGrains (init rnd totalMs s k).1 = _totalGrains s /\
     _releasedCount (init rnd totalMs s k).1 = _releasedCount s /\
     _geometry (init rnd totalMs s k).1 = None) /\
  (forall fuel dt e, update rnd fuel dt e s k = Some (s, k)) /\
  explode rnd s k = (s, k) /\
  (forall py, _getWidthAtY s py = 0).
Proof.
  intros Hreach Hgeo.
  destruct (Inv_no_geometry s (reachable_Inv rnd _ Hreach) Hgeo) as (Hgs & Hrc & Htg).
  split; [|split; [|split]].
  - intros totalMs. rewrite init_without_geometry by done. simpl. by rewrite Hgs, Hrc.
  - intros fuel dt e. apply update_noop. by left.
  - unfold explode. rewrite Hgs. simpl. rewrite <- Hgs. by rewrite with_grains_id.
  - intros py. unfold _getWidthAtY. by rewrite Hgeo.
Qed.

Lemma no_geometry_noop_witness :
  reachable half_draws (new_ParticleSystem, 0%nat) /\
  _geometry new_ParticleSystem = None /\
  _grains (init half_draws 60000 new_ParticleSystem 0).1 = [] /\
  update half_draws 0 0.016 1000 new_ParticleSystem 0 = Some (new_ParticleSystem, 0%nat).
Proof.
  assert (Hreach : reachable half_draws (new_ParticleSystem, 0%nat))
    by (exists 0%nat, []; apply run_nil).
  destruct (no_geometry_noop half_draws new_ParticleSystem 0%nat Hreach eq_refl)
    as (Hinit & Hup & _).
  split; [exact Hreach|]. split; [reflexivity|]. split.
  - apply (Hinit 60000).
  - apply Hup.
Defined.

(** ** Active grains and the release count *)

(** C10. After any calls on a fresh system the active grains are as many
    as the release count, which is at most the number of grains; while it
    is below that number an inactive grain exists, and a release activates
    exactly one grain and adds one to the count. *)
Theorem active_is_released rnd s k :
  reachable rnd (s, k) ->
  Z.of_nat (count_active (_grains s)) = _releasedCount s /\
  (_releasedCount s <= _totalGrains s)%Z /\
  ((_releasedCount s < _totalGrains s)%Z ->
   (exists i g, _grains s !! i = Some g /\ active g = false) /\
   count_active (_grains (_releaseNextGrain rnd s k).1) = S (count_active (_grains s)) /\
   length (_grains (_releaseNextGrain rnd s k).1) = length (_grains s) /\
   _releasedCount (_releaseNextGrain rnd s k).1 = (_releasedCount s + 1)%Z).
Proof.
  intros Hreach.
  destruct (reachable_Inv rnd _ Hreach) as [Hc Hg]. simpl in Hc, Hg.
  split; [apply Hc|]. split; [by apply counted_released_le|].
  intros Hlt.
  assert (Hin : exists i g, _grains s !! i = Some g /\ active g = false).
  { apply count_active_inactive. destruct Hc as [H1 H2]. lia. }
  split; [exact Hin|].
  assert (Hne : _grains s <> []).
  { destruct Hin as (i & g & Hi & _). intros Hnil. by rewrite Hnil in Hi. }
  destruct (Hg Hne) as [Hgeo _].
  destruct (_geometry s) as [geo|] eqn:Hgeo'; [|done].
  destruct (releaseNextGrain_counted rnd s k geo Hgeo' Hc Hlt) as [_ Hn].
  split; [exact Hn|]. split.
  - apply releaseNextGrain_grains.
  - by apply releaseNextGrain_released with geo.
Qed.

Lemma active_is_released_witness :
  reachable half_draws (init half_draws 60000 test_system 0) /\
  Z.of_nat (count_active (_grains (init half_draws 60000 test_system 0).1))
    = _releasedCount (init half_draws 60000 test_system 0).1.
Proof.
  assert (Hreach : reachable half_draws (init half_draws 60000 test_system 0)).
  { exists 0%nat, [CallSetGeometry test_geometry; CallInit 60000].
    eapply run_cons; [apply step_setGeometry|].
    eapply run_cons; [apply step_init|apply run_nil]. }
  split; [exact Hreach|].
  destruct (init half_draws 60000 test_system 0) as [s0 k0] eqn:E.
  apply (active_is_released half_draws s0 k0 Hreach).
Defined.

(** ** colorOffset *)

Lemma step_colorOffset rnd st c st' :
  step rnd st c st' -> physics_call c ->
  colorOffset <$> _grains st'.1 = colorOffset <$> _grains st.1.
Proof.
  intros Hstep Hc.
  destruct Hstep as [geo s k|totalMs s k|fuel dt e s k [s' k'] Hup|s k|s k]; try done.
  - by destruct (update_colorOffset rnd _ _ _ _ _ _ _ Hup) as [H _].
  - simpl. apply fixed_colorOffset, fixed_explode.
Qed.

(** C9. Over any number of [update] and [explode] calls the [colorOffset]
    of every grain stays what it was: the array keeps its grains in place
    and none of the two calls writes the field. *)
Theorem colorOffset_unchanged rnd st cs st' :
  run rnd st cs st' -> Forall physics_call cs ->
  length (_grains st'.1) = length (_grains st.1) /\
  forall i g, _grains st.1 !! i = Some g ->
    exists g', _grains st'.1 !! i = Some g' /\ colorOffset g' = colorOffset g.
Proof.
  intros Hrun Hall.
  assert (H : colorOffset <$> _grains st'.1 = colorOffset <$> _grains st.1).
  { revert Hall. induction Hrun as [st|st c st1 cs st2 Hstep Hrun IH]; intros Hall; [done|].
    inversion Hall as [|? ? Hc Hcs]; subst.
    rewrite (IH Hcs). exact (step_colorOffset rnd st c st1 Hstep Hc). }
  split.
  - apply (f_equal length) in H. by rewrite !length_fmap in H.
  - intros i g Hi.
    assert (Hl : (colorOffset <$> _grains st'.1) !! i = Some (colorOffset g))
      by (by rewrite H, list_lookup_fmap, Hi).
    rewrite list_lookup_fmap in Hl.
    destruct (_grains st'.1 !! i) as [g'|]; simpl in Hl; [|done].
    exists g'. split; [done|congruence].
Qed.

Lemma colorOffset_unchanged_witness :
  run half_draws (two_grains, 0%nat) [CallExplode] (explode half_draws two_grains 0) /\
  Forall physics_call [CallExplode] /\
  exists g', _grains (explode half_draws two_grains 0).1 !! 0%nat = Some g' /\
             colorOffset g' = 0.25.
Proof.
  assert (Hrun : run half_draws (two_grains, 0%nat) [CallExplode]
                   (explode half_draws two_grains 0))
    by (eapply run_cons; [apply step_explode|apply run_nil]).
  assert (Hall : Forall physics_call [CallExplode]) by (by constructor).
  split; [exact Hrun|]. split; [exact Hall|].
  destruct (colorOffset_unchanged half_draws _ _ _ Hrun Hall) as [_ H].
  apply (H 0%nat resting_grain eq_refl).
Defined.

(** ** explode *)

(** C7. [explode] keeps the grains in place.  A grain that is active and
    settled is unsettled and gets, from two draws, an upward [vy] in
    [-500, -200] and a lateral [vx] in [-100, 100], its other fields
    kept; any other grain is left as it was.  If an active settled grain
    existed, some grain has a negative [vy] afterwards. *)
Theorem explode_kicks_resting rnd s k :
  unit_draws rnd ->
  length (_grains (explode rnd s k).1) = length (_grains s) /\
  (forall i g, _grains s !! i = Some g ->
     exists g', _grains (explode rnd s k).1 !! i = Some g' /\
       if active g && settled g then
         settled g' = false /\
         (exists n m, vy g' = - (200 + rnd n * 300) /\ vx g' = (rnd m - 0.5) * 200) /\
         -500 <= vy g' <= -200 /\ -100 <= vx g' <= 100 /\
         x g' = x g /\ y g' = y g /\ fixed g' = fixed g
       else g' = g) /\
  ((exists i g, _grains s !! i = Some g /\ active g = true /\ settled g = true) ->
   exists i g', _grains (explode rnd s k).1 !! i = Some g' /\ vy g' < 0).
Proof.
  intros Hr. destruct (explode_spec rnd s k) as [Hlen H].
  assert (Hone : forall i g, _grains s !! i = Some g ->
     exists g', _grains (explode rnd s k).1 !! i = Some g' /\
       if active g && settled g then
         settled g' = false /\
         (exists n m, vy g' = - (200 + rnd n * 300) /\ vx g' = (rnd m - 0.5) * 200) /\
         -500 <= vy g' <= -200 /\ -100 <= vx g' <= 100 /\
         x g' = x g /\ y g' = y g /\ fixed g' = fixed g
       else g' = g).
  { intros i g Hi. destruct (H i g Hi) as (g' & Hg' & Hrel).
    exists g'. split; [done|]. unfold exploded in Hrel.
    rewrite andb_comm in Hrel. destruct (active g && settled g); [|done].
    destruct Hrel as [n ->]. simpl.
    pose proof (Hr n). pose proof (Hr (n + 1)%nat).
    split; [done|]. split; [by exists n, (n + 1)%nat|].
    repeat split; lra. }
  split; [done|]. split; [exact Hone|].
  intros (i & g & Hi & Ha & Hs).
  destruct (Hone i g Hi) as (g' & Hg' & Hrel). rewrite Ha, Hs in Hrel. simpl in Hrel.
  exists i, g'. split; [done|]. lra.
Qed.

Lemma explode_kicks_resting_witness :
  unit_draws half_draws /\
  exists i g', _grains (explode half_draws two_grains 0).1 !! i = Some g' /\ vy g' < 0.
Proof.
  split; [exact half_draws_unit|].
  destruct (explode_kicks_resting half_draws two_grains 0%nat half_draws_unit) as (_ & _ & H).
  apply H. exists 0%nat, resting_grain. by repeat split.
Defined.

(** ** Wall collision *)

Lemma wall_dist_nonneg g w : 0 <= wall_dist g w.
Proof. unfold wall_dist. apply sqrt_pos. Qed.

Lemma wall_dist_sqr g w :
  wall_dist g w * wall_dist g w =
  (x g - closestX g w) * (x g - closestX g w) + (y g - closestY g w) * (y g - closestY g w).
Proof.
  unfold wall_dist. cbv zeta. apply sqrt_sqrt.
  apply Rplus_le_le_0_compat;
    [apply (Rle_0_sqr (x g - closestX g w))|apply (Rle_0_sqr (y g - closestY g w))].
Qed.

(** The contact normal is a unit vector. *)
Lemma wall_normal_unit g w :
  wall_nx g w * wall_nx g w + wall_ny g w * wall_ny g w = 1.
Proof.
  unfold wall_nx, wall_ny. destruct (Rltb 0 (wall_dist g w)) eqn:E.
  - apply Rltb_lt in E. pose proof (wall_dist_sqr g w) as H.
    set (d := wall_dist g w) in *. set (a := x g - closestX g w) in *.
    set (b := y g - closestY g w) in *.
    replace (a / d * (a / d) + b / d * (b / d)) with ((a * a + b * b) / (d * d))
      by (field; lra).
    rewrite <- H. field. lra.
  - lra.
Qed.

(** The whole of [_collideWall] on a wall that the grain overlaps. *)
Lemma collideWall_overlap g w :
  wall_len2 w <> 0 -> wall_dist g w < radius g ->
  let nx := wall_nx g w in
  let ny := wall_ny g w in
  let dot := vx g * nx + vy g * ny in
  let c := if Rltb dot 0 then 2 * dot * DAMPING else 0 in
  _collideWall g w =
    mkGrain (closestX g w + nx * radius g) (closestY g w + ny * radius g)
      (vx g - c * nx) (vy g - c * ny)
      (radius g) (color g) (colorOffset g) (settled g) (active g).
Proof.
  intros Hlen Hd. cbv zeta. unfold _collideWall.
  apply Reqb_neq in Hlen. apply Rltb_lt in Hd. rewrite Hlen, Hd. cbv zeta. simpl.
  destruct (Rltb (vx g * wall_nx g w + vy g * wall_ny g w) 0);
    unfold set_vy, set_vx, set_y, set_x; simpl; f_equal; ring.
Qed.

(** How the code changes the component of the velocity along the normal
    when the grain moves into the wall: it is scaled by [1 - 2 * DAMPING],
    which keeps its sign. *)
Lemma collideWall_normal_velocity g w :
  wall_len2 w <> 0 -> wall_dist g w < radius g ->
  let nx := wall_nx g w in
  let ny := wall_ny g w in
  let dot := vx g * nx + vy g * ny in
  dot < 0 ->
  vx (_collideWall g w) * nx + vy (_collideWall g w) * ny = (1 - 2 * DAMPING) * dot /\
  vx (_collideWall g w) * nx + vy (_collideWall g w) * ny < 0.
Proof.
  intros Hlen Hd nx ny dot Hdot.
  rewrite (collideWall_overlap g w Hlen Hd). cbv zeta. simpl.
  fold nx ny dot. apply Rltb_lt in Hdot. rewrite Hdot.
  pose proof (wall_normal_unit g w) as Hn. fold nx ny in Hn.
  assert (Heq : (vx g - 2 * dot * DAMPING * nx) * nx + (vy g - 2 * dot * DAMPING * ny) * ny
                = (1 - 2 * DAMPING) * dot).
  { replace ((vx g - 2 * dot * DAMPING * nx) * nx + (vy g - 2 * dot * DAMPING * ny) * ny)
      with (dot - 2 * dot * DAMPING * (nx * nx + ny * ny)) by (unfold dot; ring).
    rewrite Hn. ring. }
  split; [exact Heq|]. rewrite Heq. apply Rltb_lt in Hdot. unfold DAMPING. nra.
Qed.

(** C5, as the code has it.  For a wall segment of non-zero length whose
    closest point is nearer to the centre than the radius, the grain is put
    on the contact normal at exactly its radius from the closest point; the
    velocity is written only when the grain moves into the wall, and then
    only along the normal: its tangential component is kept. *)
Theorem collideWall_contact g w :
  wall_len2 w <> 0 -> wall_dist g w < radius g ->
  let g' := _collideWall g w in
  let nx := wall_nx g w in
  let ny := wall_ny g w in
  nx * nx + ny * ny = 1 /\
  x g' = closestX g w + nx * radius g /\
  y g' = closestY g w + ny * radius g /\
  sqrt ((x g' - closestX g w) * (x g' - closestX g w) +
        (y g' - closestY g w) * (y g' - closestY g w)) = radius g /\
  vx g' * - ny + vy g' * nx = vx g * - ny + vy g * nx /\
  (0 <= vx g * nx + vy g * ny -> vx g' = vx g /\ vy g' = vy g) /\
  fixed g' = fixed g /\ settled g' = settled g.
Proof.
  intros Hlen Hd. cbv zeta.
  rewrite (collideWall_overlap g w Hlen Hd). cbv zeta. simpl.
  pose proof (wall_normal_unit g w) as Hn.
  pose proof (wall_dist_nonneg g w) as Hpos.
  set (nx := wall_nx g w) in *. set (ny := wall_ny g w) in *.
  split; [exact Hn|]. split; [done|]. split; [done|]. split.
  { replace ((closestX g w + nx * radius g - closestX g w) *
             (closestX g w + nx * radius g - closestX g w) +
             (closestY g w + ny * radius g - closestY g w) *
             (closestY g w + ny * radius g - closestY g w))
      with ((nx * nx + ny * ny) * (radius g * radius g)) by ring.
    rewrite Hn, Rmult_1_l. apply sqrt_square. lra. }
  split; [ring|]. split; [|done].
  intros Hdot. apply Rle_not_lt in Hdot. apply Rltb_nlt in Hdot. rewrite Hdot.
  split; ring.
Qed.

Lemma leaving_grain_closest :
  wall_len2 left_wall = 100 /\
  closestX leaving_grain left_wall = 0 /\ closestY leaving_grain left_wall = 5 /\
  wall_dist leaving_grain left_wall = 1 /\
  wall_nx leaving_grain left_wall = 1 /\ wall_ny leaving_grain left_wall = 0.
Proof.
  assert (Hlen : wall_len2 left_wall = 100) by (unfold wall_len2; simpl; lra).
  assert (Ht : wall_t leaving_grain left_wall = 0.5).
  { unfold wall_t. rewrite Hlen. simpl.
    replace (((1 - 0) * (0 - 0) + (5 - 0) * (10 - 0)) / 100) with 0.5 by lra.
    rewrite Rmin_right by lra. rewrite Rmax_right by lra. done. }
  assert (HcX : closestX leaving_grain left_wall = 0)
    by (unfold closestX; rewrite Ht; simpl; lra).
  assert (HcY : closestY leaving_grain left_wall = 5)
    by (unfold closestY; rewrite Ht; simpl; lra).
  assert (Hd : wall_dist leaving_grain left_wall = 1).
  { unfold wall_dist. rewrite HcX, HcY. simpl.
    replace ((1 - 0) * (1 - 0) + (5 - 5) * (5 - 5)) with 1 by lra. apply sqrt_1. }
  split; [done|]. split; [done|]. split; [done|]. split; [done|].
  unfold wall_nx, wall_ny. rewrite Hd, HcX, HcY.
  assert (E : Rltb 0 1 = true) by (apply Rltb_lt; lra). rewrite E. simpl. split; lra.
Qed.

Lemma collideWall_contact_witness :
  wall_len2 left_wall <> 0 /\
  wall_dist leaving_grain left_wall < radius leaving_grain /\
  x (_collideWall leaving_grain left_wall) = 2.5 /\
  y (_collideWall leaving_grain left_wall) = 5.
Proof.
  destruct leaving_grain_closest as (Hlen & HcX & HcY & Hd & Hnx & Hny).
  assert (H1 : wall_len2 left_wall <> 0) by (rewrite Hlen; lra).
  assert (H2 : wall_dist leaving_grain left_wall < radius leaving_grain)
    by (rewrite Hd; simpl; lra).
  split; [exact H1|]. split; [exact H2|].
  destruct (collideWall_contact leaving_grain left_wall H1 H2) as (_ & Hx & Hy & _).
  rewrite Hx, Hy, HcX, HcY, Hnx, Hny. simpl. split; lra.
Defined.

(** The claim C5 fails for a grain that moves away from the wall it
    overlaps: its velocity is left as it was, so the component along the
    normal, 3 here, is not turned into [- d * 3] for any damping factor
    [d] between 0 and 1. *)
Lemma collideWall_keeps_leaving_velocity :
  let g' := _collideWall leaving_grain left_wall in
  let nx := wall_nx leaving_grain left_wall in
  let ny := wall_ny leaving_grain left_wall in
  wall_len2 left_wall <> 0 /\
  wall_dist leaving_grain left_wall < radius leaving_grain /\
  vx leaving_grain * nx + vy leaving_grain * ny = 3 /\
  vx g' * nx + vy g' * ny = 3 /\
  ~ exists d, 0 < d < 1 /\
      vx g' * nx + vy g' * ny = - d * (vx leaving_grain * nx + vy leaving_grain * ny).
Proof.
  cbv zeta.
  destruct leaving_grain_closest as (Hlen & HcX & HcY & Hd & Hnx & Hny).
  assert (H1 : wall_len2 left_wall <> 0) by (rewrite Hlen; lra).
  assert (H2 : wall_dist leaving_grain left_wall < radius leaving_grain)
    by (rewrite Hd; simpl; lra).
  rewrite (collideWall_overlap _ _ H1 H2). cbv zeta. rewrite Hnx, Hny. simpl.
  assert (E : Rltb (3 * 1 + 4 * 0) 0 = false) by (apply Rltb_nlt; lra). rewrite E.
  split; [done|]. split; [done|]. split; [lra|]. split; [lra|].
  intros (d & Hd01 & Heq). lra.
Qed.

(** ** Width at a height *)

(** C6, as the code has it.  [_getWidthAtY] depends on the height and the
    geometry alone.  On a geometry whose bulbs have a positive height it
    is the neck width in the neck band and, in a bulb, the neck width plus
    120 times [sqrt (min (1, t))], [t] the distance from the neck over the
    height of the bulb: between the neck width and the neck width plus
    120, which it reaches at the far end of the bulb. *)
Theorem getWidthAtY_spec s geo py :
  _geometry s = Some geo ->
  topCeilingY geo < neckTopY geo -> neckTopY geo <= neckBottomY geo ->
  neckBottomY geo < bottomFloorY geo ->
  let neckWidth := neckRight geo - neckLeft geo in
  let maxWidth := neckWidth + 120 in
  (forall s2, _geometry s2 = Some geo -> _getWidthAtY s2 py = _getWidthAtY s py) /\
  (neckTopY geo <= py <= neckBottomY geo -> _getWidthAtY s py = neckWidth) /\
  (py < neckTopY geo ->
   _getWidthAtY s py = neckWidth + (maxWidth - neckWidth) *
     sqrt (Rmin 1 ((neckTopY geo - py) / (neckTopY geo - topCeilingY geo)))) /\
  (neckBottomY geo < py ->
   _getWidthAtY s py = neckWidth + (maxWidth - neckWidth) *
     sqrt (Rmin 1 ((py - neckBottomY geo) / (bottomFloorY geo - neckBottomY geo)))) /\
  (py <= topCeilingY geo \/ bottomFloorY geo <= py -> _getWidthAtY s py = maxWidth) /\
  neckWidth <= _getWidthAtY s py <= maxWidth.
Proof.
  intros Hgeo Htop Hneck Hbot. cbv zeta.
  assert (Hsq : forall t, 0 <= sqrt (Rmin 1 t) <= 1).
  { intros t. split; [apply sqrt_pos|].
    rewrite <- sqrt_1 at 2. apply sqrt_le_1_alt. apply Rmin_l. }
  assert (Hone : forall t, 1 <= t -> sqrt (Rmin 1 t) = 1).
  { intros t Ht. rewrite Rmin_left by done. apply sqrt_1. }
  split.
  { intros s2 Hgeo2. unfold _getWidthAtY. by rewrite Hgeo, Hgeo2. }
  unfold _getWidthAtY. rewrite Hgeo.
  unfold Rleb.
  destruct (Rle_dec (neckTopY geo) py) as [E1|E1];
    destruct (Rle_dec py (neckBottomY geo)) as [E2|E2]; cbn [andb].
  - repeat split; intros; lra.
  - assert (E3 : Rltb py (neckTopY geo) = false) by (apply Rltb_nlt; lra). rewrite E3.
    pose proof (Hsq ((py - neckBottomY geo) / (bottomFloorY geo - neckBottomY geo))).
    split; [intros; lra|]. split; [intros; lra|]. split; [intros; lra|]. split.
    + intros [H1|H1]; [lra|]. rewrite Hone; [lra|].
      apply (Rmult_le_reg_r (bottomFloorY geo - neckBottomY geo)); [lra|].
      unfold Rdiv. rewrite Rmult_assoc, Rinv_l by lra. lra.
    + nra.
  - assert (E3 : Rltb py (neckTopY geo) = true) by (apply Rltb_lt; lra). rewrite E3.
    pose proof (Hsq ((neckTopY geo - py) / (neckTopY geo - topCeilingY geo))).
    split; [intros; lra|]. split; [intros; lra|]. split; [intros; lra|]. split.
    + intros [H1|H1]; [|lra]. rewrite Hone; [lra|].
      apply (Rmult_le_reg_r (neckTopY geo - topCeilingY geo)); [lra|].
      unfold Rdiv. rewrite Rmult_assoc, Rinv_l by lra. lra.
    + nra.
  - lra.
Qed.

Lemma getWidthAtY_spec_witness :
  _geometry test_system = Some test_geometry /\
  topCeilingY test_geometry < neckTopY test_geometry /\
  neckTopY test_geometry <= neckBottomY test_geometry /\
  neckBottomY test_geometry < bottomFloorY test_geometry /\
  _getWidthAtY test_system 200 = 40 /\ _getWidthAtY test_system 5 = 160.
Proof.
  assert (H1 : topCeilingY test_geometry < neckTopY test_geometry) by (simpl; lra).
  assert (H2 : neckTopY test_geometry <= neckBottomY test_geometry) by (simpl; lra).
  assert (H3 : neckBottomY test_geometry < bottomFloorY test_geometry) by (simpl; lra).
  split; [reflexivity|]. split; [exact H1|]. split; [exact H2|]. split; [exact H3|]. split.
  - destruct (getWidthAtY_spec test_system test_geometry 200 eq_refl H1 H2 H3)
      as (_ & H & _). rewrite H; simpl; lra.
  - destruct (getWidthAtY_spec test_system test_geometry 5 eq_refl H1 H2 H3)
      as (_ & _ & _ & _ & H & _). rewrite H; simpl; lra.
Defined.

(** The claim C6 fails a third of the way up the top bulb of the test
    geometry: with the cosine ease the width would be 100, and the code,
    which takes the square root of [t] itself, returns another number. *)
Lemma getWidthAtY_not_cosine_eased :
  let geo := test_geometry in
  let neckWidth := neckRight geo - neckLeft geo in
  let maxWidth := neckWidth + 120 in
  let t := (neckTopY geo - 130) / (neckTopY geo - topCeilingY geo) in
  130 < neckTopY geo /\
  neckWidth + (maxWidth - neckWidth) * sqrt (cosine_ease t) = 100 /\
  _getWidthAtY test_system 130 = 40 + 120 * sqrt (1 / 3) /\
  _getWidthAtY test_system 130 <> neckWidth + (maxWidth - neckWidth) * sqrt (cosine_ease t).
Proof.
  cbv zeta. simpl.
  assert (Hc : cosine_ease ((190 - 130) / (190 - 10)) = 0.25).
  { unfold cosine_ease. replace ((190 - 130) / (190 - 10) * PI) with (PI / 3) by lra.
    rewrite cos_PI3. lra. }
  assert (Hs : sqrt 0.25 = 0.5) by (apply sqrt_lem_1; lra).
  assert (Hw : _getWidthAtY test_system 130 = 40 + 120 * sqrt (1 / 3)).
  { unfold _getWidthAtY. simpl.
    assert (E1 : Rleb 190 130 = false) by (apply Rleb_nle; lra).
    assert (E2 : Rltb 130 190 = true) by (apply Rltb_lt; lra).
    rewrite E1, E2. simpl.
    replace ((190 - 130) / (190 - 10)) with (1 / 3) by lra.
    rewrite Rmin_right by lra. lra. }
  rewrite Hc, Hs, Hw.
  split; [lra|]. split; [lra|]. split; [done|].
  intros H.
  assert (Hthird : sqrt (1 / 3) = 0.5) by lra.
  pose proof (sqrt_sqrt (1 / 3) ltac:(lra)) as Hsq. rewrite Hthird in Hsq. lra.
Qed.

(** * Further properties of the particle system *)

(** ** Which grain is released, and where it is put *)

(** The search keeps the first inactive grain of greatest [y]. *)
Lemma best_steps_lowest (gs : list Grain) n :
  (n <= length gs)%nat ->
  let acc := foldl (best_step gs) (None, NegInf) (seq 0 n) in
  match acc.1 with
  | Some i =>
    exists g, gs !! i = Some g /\ active g = false /\ acc.2 = Fin (y g) /\ (i < n)%nat /\
      forall j gj, (j < n)%nat -> gs !! j = Some gj -> active gj = false ->
        y gj <= y g /\ ((j < i)%nat -> y gj < y g)
  | None =>
    acc.2 = NegInf /\
    forall j gj, (j < n)%nat -> gs !! j = Some gj -> active gj = true
  end.
Proof.
  induction n as [|n IH]; intros Hn; cbv zeta.
  - simpl. split; [done|]. intros; lia.
  - rewrite seq_S, foldl_app. simpl.
    specialize (IH ltac:(lia)). cbv zeta in IH.
    destruct (foldl (best_step gs) (None, NegInf) (seq 0 n)) as [b bY].
    unfold best_step. simpl in *.
    destruct (lookup_lt_is_Some_2 gs n ltac:(lia)) as [gn Hgn]. rewrite Hgn.
    destruct (active gn) eqn:Ha; simpl.
    + destruct b as [i|].
      * destruct IH as (g & Hi & Hg & HbY & Hlt & Hmax).
        exists g. split; [done|]. split; [done|]. split; [done|]. split; [lia|].
        intros j gj Hj Hgj Hin.
        destruct (decide (j = n)) as [->|Hne]; [congruence|].
        apply (Hmax j gj); [lia|done|done].
      * destruct IH as [HbY Hall]. split; [done|].
        intros j gj Hj Hgj.
        destruct (decide (j = n)) as [->|Hne]; [congruence|].
        apply (Hall j gj); [lia|done].
    + destruct b as [i|].
      * destruct IH as (g & Hi & Hg & -> & Hlt & Hmax). simpl.
        destruct (Rltb (y g) (y gn)) eqn:E; simpl.
        -- apply Rltb_lt in E. exists gn.
           split; [done|]. split; [done|]. split; [done|]. split; [lia|].
           intros j gj Hj Hgj Hin.
           destruct (decide (j = n)) as [->|Hne].
           ++ assert (gj = gn) as -> by congruence. split; [lra|lia].
           ++ destruct (Hmax j gj ltac:(lia) Hgj Hin) as [Hle _]. split; [lra|]. intros _. lra.
        -- apply Rltb_nlt in E. exists g.
           split; [done|]. split; [done|]. split; [done|]. split; [lia|].
           intros j gj Hj Hgj Hin.
           destruct (decide (j = n)) as [->|Hne].
           ++ assert (gj = gn) as -> by congruence. split; [lra|lia].
           ++ apply (Hmax j gj); [lia|done|done].
      * destruct IH as [-> Hall]. simpl. exists gn.
        split; [done|]. split; [done|]. split; [done|]. split; [lia|].
        intros j gj Hj Hgj Hin.
        destruct (decide (j = n)) as [->|Hne].
        ++ assert (gj = gn) as -> by congruence. split; [lra|lia].
        ++ rewrite (Hall j gj ltac:(lia) Hgj) in Hin. done.
Qed.

Lemma find_best_lowest (gs : list Grain) i :
  find_best gs = Some i ->
  exists g, gs !! i = Some g /\ active g = false /\
    forall j gj, gs !! j = Some gj -> active gj = false ->
      y gj <= y g /\ ((j < i)%nat -> y gj < y g).
Proof.
  unfold find_best. pose proof (best_steps_lowest gs (length gs) ltac:(lia)) as H.
  cbv zeta in H. intros Hb. rewrite Hb in H.
  destruct H as (g & Hi & Hg & _ & _ & Hmax).
  exists g. split; [done|]. split; [done|].
  intros j gj Hgj Hin. apply (Hmax j gj); [|done|done].
  by apply lookup_lt_Some in Hgj.
Qed.

(** X1. With the geometry set and a grain in the reserve, the grain that
    [_releaseNextGrain] takes is an inactive grain of greatest [y], the first
    such in the array; it is replaced by its released form and no other
    grain is written. *)
Theorem release_takes_lowest rnd s k geo :
  _geometry s = Some geo ->
  (exists i0 g0, _grains s !! i0 = Some g0 /\ active g0 = false) ->
  exists i g,
    _grains s !! i = Some g /\ active g = false /\
    (forall j gj, _grains s !! j = Some gj -> active gj = false ->
       y gj <= y g /\ ((j < i)%nat -> y gj < y g)) /\
    _grains (_releaseNextGrain rnd s k).1 = <[i := release_grain rnd geo k g]> (_grains s) /\
    (forall j, j <> i -> _grains (_releaseNextGrain rnd s k).1 !! j = _grains s !! j) /\
    (_releaseNextGrain rnd s k).2 = (k + 3)%nat.
Proof.
  intros Hgeo (i0 & g0 & Hi0 & Hg0).
  unfold _releaseNextGrain. rewrite Hgeo.
  pose proof (find_best_spec (_grains s)) as Hspec.
  destruct (find_best (_grains s)) as [i|] eqn:Hb.
  - destruct (find_best_lowest _ _ Hb) as (g & Hi & Hg & Hmax).
    rewrite Hi. simpl. exists i, g.
    split; [done|]. split; [done|]. split; [done|]. split; [done|]. split; [|done].
    intros j Hne. by apply list_lookup_insert_ne.
  - rewrite (Hspec i0 g0 Hi0) in Hg0. done.
Qed.

Lemma release_takes_lowest_witness :
  exists i g,
    _grains reserve_system !! i = Some g /\ active g = false /\
    _grains (_releaseNextGrain half_draws reserve_system 0).1
      = <[i := release_grain half_draws test_geometry 0 g]> (_grains reserve_system).
Proof.
  destruct (release_takes_lowest half_draws reserve_system 0%nat test_geometry eq_refl)
    as (i & g & Hi & Hg & _ & Hgs & _).
  - exists 1%nat, reserve_high. by split.
  - by exists i, g.
Defined.

Lemma release_grain_bounds rnd geo k g :
  unit_draws rnd -> 2 * radius g <= neckRight geo - neckLeft geo ->
  let g' := release_grain rnd geo k g in
  neckLeft geo + radius g <= x g' <= neckRight geo - radius g /\
  y g' = neckTopY geo + 2 /\
  -5 <= vx g' <= 5 /\ 20 <= vy g' <= 50 /\
  active g' = true /\ settled g' = false /\ born g' = born g.
Proof.
  intros Hr Hw. cbv zeta. unfold release_grain. simpl.
  pose proof (Hr k). pose proof (Hr (k + 1)%nat). pose proof (Hr (k + 2)%nat).
  repeat split; try done; nra.
Qed.

(** In [reserve_system] the search finds the grain at index 2, the lower
    of the two in the reserve. *)
Lemma find_best_reserve : find_best (_grains reserve_system) = Some 2%nat.
Proof.
  unfold find_best, reserve_system. simpl.
  unfold best_step. simpl. unfold Rltb.
  destruct (Rlt_dec 100 150); [done|lra].
Qed.

(** X2. A grain that [_releaseNextGrain] has just activated is put at the
    entrance of the neck: when the neck is at least as wide as the grains,
    its centre lies in the neck band at least its radius from both edges,
    two pixels below the top of the neck; it moves down at 20 to 50 and
    sideways at no more than 5; it is unsettled and keeps its radius and
    colour offset. *)
Theorem released_grain_placement rnd s k geo :
  unit_draws rnd -> _geometry s = Some geo ->
  Forall (fun g => 2 * radius g <= neckRight geo - neckLeft geo) (_grains s) ->
  forall i g g',
    _grains s !! i = Some g -> active g = false ->
    _grains (_releaseNextGrain rnd s k).1 !! i = Some g' -> active g' = true ->
    neckLeft geo + radius g' <= x g' <= neckRight geo - radius g' /\
    y g' = neckTopY geo + 2 /\
    -5 <= vx g' <= 5 /\ 20 <= vy g' <= 50 /\
    settled g' = false /\ born g' = born g.
Proof.
  intros Hr Hgeo Hall i g g' Hi Hg Hi' Hg'.
  destruct (releaseNextGrain_spec rnd s k geo Hgeo) as (gs' & k' & Heq & Hcase).
  rewrite Heq in Hi'. simpl in Hi'.
  destruct Hcase as [(i0 & g0 & Hi0 & Hg0 & ->)|[_ ->]].
  - destruct (decide (i = i0)) as [->|Hne].
    + rewrite list_lookup_insert_eq in Hi' by (by apply lookup_lt_Some in Hi0).
      injection Hi' as <-. assert (g0 = g) as -> by congruence.
      rewrite Forall_forall in Hall.
      pose proof (Hall g (list_elem_of_lookup_2 _ _ _ Hi)) as Hw.
      destruct (release_grain_bounds rnd geo k g Hr Hw) as (Hx & Hy & Hvx & Hvy & _ & Hs & Hb).
      done.
    + rewrite list_lookup_insert_ne in Hi' by done. congruence.
  - congruence.
Qed.

Lemma released_grain_placement_witness :
  unit_draws half_draws /\ _geometry reserve_system = Some test_geometry /\
  exists g', _grains (_releaseNextGrain half_draws reserve_system 0).1 !! 2%nat = Some g' /\
    active g' = true /\ y g' = 192 /\ 20 <= vy g' <= 50.
Proof.
  split; [exact half_draws_unit|]. split; [reflexivity|].
  assert (Hall : Forall (fun g => 2 * radius g
                   <= neckRight test_geometry - neckLeft test_geometry)
                   (_grains reserve_system)).
  { repeat constructor; simpl; lra. }
  assert (Hi : _grains (_releaseNextGrain half_draws reserve_system 0).1 !! 2%nat
               = Some (release_grain half_draws test_geometry 0 reserve_low)).
  { unfold _releaseNextGrain.
    change (_geometry reserve_system) with (Some test_geometry). cbv iota.
    rewrite find_best_reserve. reflexivity. }
  exists (release_grain half_draws test_geometry 0 reserve_low).
  split; [exact Hi|]. split; [reflexivity|].
  destruct (released_grain_placement half_draws reserve_system 0%nat test_geometry
              half_draws_unit eq_refl Hall 2%nat reserve_low _ eq_refl eq_refl Hi eq_refl)
    as (_ & Hy & _ & Hvy & _).
  split; [|exact Hvy]. rewrite Hy. simpl. lra.
Defined.

(** ** The spatial grid *)

Lemma filter_seq_S (f : nat -> bool) n :
  List.filter f (seq 0 (S n)) = List.filter f (seq 0 n) ++ (if f n then [n] else []).
Proof. rewrite seq_S, List.filter_app. simpl. by destruct (f n). Qed.

(** After the first [n] grains, each cell lists, in the order of the array,
    the active grains among them whose centre it holds; no stored cell is
    empty. *)
Lemma grid_steps_spec (gs : list Grain) n :
  (n <= length gs)%nat ->
  let m := foldl (grid_add gs) ∅ (seq 0 n) in
  forall c, default [] (m !! c) = List.filter (in_cell gs c) (seq 0 n) /\
            m !! c <> Some [].
Proof.
  induction n as [|n IH]; intros Hn; cbv zeta.
  - intros c. simpl. by rewrite lookup_empty.
  - intros c. rewrite filter_seq_S.
    rewrite seq_S, foldl_app. simpl.
    specialize (IH ltac:(lia)). cbv zeta in IH.
    set (m := foldl (grid_add gs) ∅ (seq 0 n)) in *.
    destruct (IH c) as [IHc IHne].
    unfold grid_add. unfold in_cell at 2.
    destruct (lookup_lt_is_Some_2 gs n ltac:(lia)) as [g Hg]. rewrite Hg.
    destruct (active g) eqn:Ha; simpl.
    + destruct (decide (cell_of g = c)) as [Hc|Hc].
      * rewrite (bool_decide_eq_true_2 _ Hc). subst c.
        rewrite !lookup_insert_eq. simpl. split.
        -- rewrite <- IHc. f_equal.
           destruct (m !! cell_of g) eqn:E; [by rewrite E|by rewrite lookup_insert_eq].
        -- intros [= H]. apply List.app_eq_nil in H. by destruct H.
      * rewrite (bool_decide_eq_false_2 _ Hc). rewrite app_nil_r.
        rewrite !lookup_insert_ne by done.
        destruct (m !! cell_of g) eqn:E; [done|].
        by rewrite !lookup_insert_ne by done.
    + by rewrite app_nil_r.
Qed.

Lemma in_filter_seq (f : nat -> bool) n i :
  In i (List.filter f (seq 0 n)) <-> (i < n)%nat /\ f i = true.
Proof. rewrite List.filter_In, List.in_seq. split; intros [? ?]; split; try done; lia. Qed.

Lemma buildSpatialGrid_cell s c :
  default [] (_spatialGrid (_buildSpatialGrid s) !! c)
    = List.filter (in_cell (_grains s) c) (seq 0 (length (_grains s))) /\
  _spatialGrid (_buildSpatialGrid s) !! c <> Some [].
Proof.
  unfold _buildSpatialGrid. simpl.
  apply (grid_steps_spec (_grains s) (length (_grains s))). lia.
Qed.

Lemma buildSpatialGrid_in_grid s i :
  in_grid (_spatialGrid (_buildSpatialGrid s)) i <->
  exists g, _grains s !! i = Some g /\ active g = true.
Proof.
  unfold in_grid. split.
  - intros (c & cell & Hc & Hin).
    destruct (buildSpatialGrid_cell s c) as [Hl _]. rewrite Hc in Hl. simpl in Hl.
    rewrite Hl in Hin.
    apply in_filter_seq in Hin. destruct Hin as [_ Hin]. unfold in_cell in Hin.
    destruct (_grains s !! i) as [g|]; [|done]. exists g. split; [done|].
    by destruct (active g).
  - intros (g & Hi & Ha). exists (cell_of g).
    destruct (buildSpatialGrid_cell s (cell_of g)) as [Hl _].
    assert (Hin : In i (List.filter (in_cell (_grains s) (cell_of g))
                          (seq 0 (length (_grains s))))).
    { apply in_filter_seq. split; [by apply lookup_lt_Some in Hi|].
      unfold in_cell. rewrite Hi, Ha. simpl. by apply bool_decide_eq_true_2. }
    rewrite <- Hl in Hin.
    destruct (_spatialGrid (_buildSpatialGrid s) !! cell_of g) as [cell|]; [|done].
    by exists cell.
Qed.

(** X3. [_buildSpatialGrid] indexes exactly the active grains, each once
    and in the cell of its centre: a cell of the grid lists, in the order of
    the array, the active grains whose centre it holds, and is absent when
    there is none. *)
Theorem buildSpatialGrid_spec s :
  let s' := _buildSpatialGrid s in
  _grains s' = _grains s /\
  (forall c,
     default [] (_spatialGrid s' !! c)
       = List.filter (in_cell (_grains s) c) (seq 0 (length (_grains s))) /\
     _spatialGrid s' !! c <> Some []) /\
  (forall i, in_grid (_spatialGrid s') i <->
     exists g, _grains s !! i = Some g /\ active g = true) /\
  (forall c cell, _spatialGrid s' !! c = Some cell -> NoDup cell).
Proof.
  cbv zeta. split; [done|]. split; [apply buildSpatialGrid_cell|].
  split; [apply buildSpatialGrid_in_grid|].
  intros c cell Hc. destruct (buildSpatialGrid_cell s c) as [Hl _].
  rewrite Hc in Hl. simpl in Hl. rewrite Hl.
  apply NoDup_ListNoDup, List.NoDup_filter, List.seq_NoDup.
Qed.

Lemma in_offsets (d : Z) : In d [(-1)%Z; 0%Z; 1%Z] <-> (-1 <= d <= 1)%Z.
Proof. simpl. lia. Qed.

Lemma getNearby_in m gi g j :
  In j (_getNearby m gi g) <->
  j <> gi /\
  exists dx dy cell, (-1 <= dx <= 1)%Z /\ (-1 <= dy <= 1)%Z /\
    m !! ((Zfloor (x g / CELL_SIZE) + dx)%Z, (Zfloor (y g / CELL_SIZE) + dy)%Z) = Some cell /\
    In j cell.
Proof.
  unfold _getNearby. cbv zeta. rewrite List.in_flat_map. split.
  - intros (dx & Hdx & H). apply List.in_flat_map in H. destruct H as (dy & Hdy & H).
    apply in_offsets in Hdx. apply in_offsets in Hdy.
    destruct (m !! _) as [cell|] eqn:E; [|done].
    apply List.filter_In in H. destruct H as [Hin Hne].
    split.
    + intros ->. by rewrite Nat.eqb_refl in Hne.
    + by exists dx, dy, cell.
  - intros (Hne & dx & dy & cell & Hdx & Hdy & Hc & Hin).
    exists dx. split; [by apply in_offsets|].
    apply List.in_flat_map. exists dy. split; [by apply in_offsets|].
    rewrite Hc. apply List.filter_In. split; [done|].
    apply negb_true_iff. by apply Nat.eqb_neq.
Qed.

(** Centres less than a cell apart lie in the same cell or in adjacent ones. *)
Lemma cell_near (a b : R) :
  Rabs (a - b) < CELL_SIZE ->
  (-1 <= Zfloor (a / CELL_SIZE) - Zfloor (b / CELL_SIZE) <= 1)%Z.
Proof.
  intros H. unfold CELL_SIZE, GRAIN_RADIUS in *.
  apply Rabs_def2 in H. destruct H as [H1 H2].
  pose proof (Zfloor_bound (a / (2.5 * 4))) as [Ha1 Ha2].
  pose proof (Zfloor_bound (b / (2.5 * 4))) as [Hb1 Hb2].
  assert (H3 : IZR (Zfloor (a / (2.5 * 4))) < IZR (Zfloor (b / (2.5 * 4)) + 2))
    by (rewrite plus_IZR; lra).
  assert (H4 : IZR (Zfloor (b / (2.5 * 4))) < IZR (Zfloor (a / (2.5 * 4)) + 2))
    by (rewrite plus_IZR; lra).
  apply lt_IZR in H3, H4. lia.
Qed.

(** X4. On the grid that [_buildSpatialGrid] has built, [_getNearby] returns
    exactly the active grains other than the grain itself whose cell, at
    the time of the build, is the cell of the given position or one of the
    eight around it.  So no active grain whose centre is less than a cell
    (10 px) away in both directions is left out. *)
Theorem getNearby_spec s gi g :
  let m := _spatialGrid (_buildSpatialGrid s) in
  (forall j, In j (_getNearby m gi g) <->
     j <> gi /\
     exists gj, _grains s !! j = Some gj /\ active gj = true /\
       (-1 <= (cell_of gj).1 - (cell_of g).1 <= 1)%Z /\
       (-1 <= (cell_of gj).2 - (cell_of g).2 <= 1)%Z) /\
  (forall j gj, j <> gi -> _grains s !! j = Some gj -> active gj = true ->
     Rabs (x gj - x g) < CELL_SIZE -> Rabs (y gj - y g) < CELL_SIZE ->
     In j (_getNearby m gi g)).
Proof.
  cbv zeta.
  pose proof (buildSpatialGrid_cell s) as Hcells.
  set (m := _spatialGrid (_buildSpatialGrid s)) in *.
  assert (Hiff : forall j, In j (_getNearby m gi g) <->
     j <> gi /\
     exists gj, _grains s !! j = Some gj /\ active gj = true /\
       (-1 <= (cell_of gj).1 - (cell_of g).1 <= 1)%Z /\
       (-1 <= (cell_of gj).2 - (cell_of g).2 <= 1)%Z).
  { intros j. rewrite getNearby_in. split.
    - intros (Hne & dx & dy & cell & Hdx & Hdy & Hc & Hin). split; [done|].
      destruct (Hcells (Zfloor (x g / CELL_SIZE) + dx, Zfloor (y g / CELL_SIZE) + dy)%Z)
        as [Hl _].
      rewrite Hc in Hl. simpl in Hl. rewrite Hl in Hin.
      apply in_filter_seq in Hin. destruct Hin as [_ Hin]. unfold in_cell in Hin.
      destruct (_grains s !! j) as [gj|]; [|done]. exists gj. split; [done|].
      apply andb_true_iff in Hin. destruct Hin as [Ha Hcell].
      apply bool_decide_eq_true_1 in Hcell. rewrite Hcell. unfold cell_of. simpl.
      split; [done|]. lia.
    - intros (Hne & gj & Hj & Ha & H1 & H2). split; [done|].
      exists ((cell_of gj).1 - (cell_of g).1)%Z, ((cell_of gj).2 - (cell_of g).2)%Z.
      replace (Zfloor (x g / CELL_SIZE) + ((cell_of gj).1 - (cell_of g).1),
               Zfloor (y g / CELL_SIZE) + ((cell_of gj).2 - (cell_of g).2))%Z
        with (cell_of gj) by (unfold cell_of; simpl; f_equal; lia).
      destruct (Hcells (cell_of gj)) as [Hl _].
      assert (Hin : In j (List.filter (in_cell (_grains s) (cell_of gj))
                            (seq 0 (length (_grains s))))).
      { apply in_filter_seq. split; [by apply lookup_lt_Some in Hj|].
        unfold in_cell. rewrite Hj, Ha. simpl. by apply bool_decide_eq_true_2. }
      rewrite <- Hl in Hin.
      destruct (m !! cell_of gj) as [cell|]; [|done]. by exists cell. }
  split; [exact Hiff|].
  intros j gj Hne Hj Ha Hx Hy. apply Hiff. split; [done|].
  exists gj. split; [done|]. split; [done|]. unfold cell_of. simpl.
  split; by apply cell_near.
Qed.

(** ** What a release and the physics leave alone *)

Section Untouched.

Variable rnd : nat -> R.

(** A release writes one inactive grain, which it activates, and keeps
    what the grain was born with. *)
Lemma releaseNextGrain_cases s k :
  length (_grains (_releaseNextGrain rnd s k).1) = length (_grains s) /\
  forall i g, _grains s !! i = Some g ->
    exists g', _grains (_releaseNextGrain rnd s k).1 !! i = Some g' /\
      born g' = born g /\
      (g' = g \/ (active g = false /\ active g' = true)).
Proof.
  unfold _releaseNextGrain. destruct (_geometry s) as [geo|]; [|by split; [|eauto]].
  pose proof (find_best_spec (_grains s)) as Hb.
  destruct (find_best (_grains s)) as [i0|]; [|by split; [|eauto]].
  destruct Hb as (g0 & Hi0 & Hg0). rewrite Hi0. simpl.
  split; [apply length_insert|].
  intros i g Hi. destruct (decide (i = i0)) as [->|Hne].
  - rewrite list_lookup_insert_eq by (by apply lookup_lt_Some in Hi0).
    assert (g0 = g) as -> by congruence.
    eexists. split; [done|]. split; [done|]. right. by split.
  - rewrite list_lookup_insert_ne by done. exists g. split; [done|]. split; [done|]. by left.
Qed.

Lemma release_loop_cases fuel target : forall s k s' k',
  release_loop rnd fuel target s k = Some (s', k') ->
  length (_grains s') = length (_grains s) /\
  forall i g, _grains s !! i = Some g ->
    exists g', _grains s' !! i = Some g' /\
      born g' = born g /\
      (g' = g \/ (active g = false /\ active g' = true)).
Proof.
  induction fuel as [|fuel IH]; intros s k s' k'; simpl.
  - destruct (js_lt _ _); [done|]. intros [= <- <-]. split; [done|]. eauto.
  - destruct (js_lt _ _); [|intros [= <- <-]; split; [done|]; eauto].
    destruct (releaseNextGrain_cases s k) as [Hlen1 H1].
    destruct (_releaseNextGrain rnd s k) as [s1 k1]. simpl in *.
    intros Hloop. destruct (IH s1 k1 s' k' Hloop) as [Hlen2 H2].
    split; [congruence|].
    intros i g Hi. destruct (H1 i g Hi) as (g1 & Hi1 & Hb1 & Hc1).
    destruct (H2 i g1 Hi1) as (g2 & Hi2 & Hb2 & Hc2).
    exists g2. split; [done|]. split; [congruence|].
    destruct Hc1 as [->|[Ha Ha1]]; [done|].
    destruct Hc2 as [->|[Ha2 _]]; [by right|congruence].
Qed.

(** One iteration of the grain-to-grain loop leaves a grain alone that it
    was not given or that is settled. *)
Lemma collide_grain_other g gs o i g0 :
  gs !! i = Some g0 -> o <> i \/ settled g0 = true ->
  (collide_grain (g, gs) o).2 !! i = Some g0.
Proof.
  intros Hi Hcase. unfold collide_grain.
  destruct (gs !! o) as [other|] eqn:Ho; [|done].
  cbv zeta. destruct (_ && _); [|done]. simpl.
  destruct (settled other) eqn:Hs; simpl; [done|].
  destruct Hcase as [Hne|Hset].
  - by rewrite list_lookup_insert_ne.
  - destruct (decide (o = i)) as [->|Hne]; [congruence|].
    by rewrite list_lookup_insert_ne.
Qed.

Lemma collide_grains_other nearby i g0 : forall g gs,
  gs !! i = Some g0 -> ~ In i nearby \/ settled g0 = true ->
  (foldl collide_grain (g, gs) nearby).2 !! i = Some g0.
Proof.
  induction nearby as [|o nearby IH]; intros g gs Hi Hcase; [done|].
  change (foldl collide_grain (g, gs) (o :: nearby))
    with (foldl collide_grain (collide_grain (g, gs) o) nearby).
  assert (H1 : (collide_grain (g, gs) o).2 !! i = Some g0).
  { apply collide_grain_other; [done|].
    destruct Hcase as [Hn|Hs]; [left|by right]. intros ->. apply Hn. by left. }
  destruct (collide_grain (g, gs) o) as [g1 gs1]. simpl in H1.
  apply IH; [done|]. destruct Hcase as [Hn|Hs]; [left|by right].
  intros Hin. apply Hn. by right.
Qed.

Lemma getNearby_in_grid m gi g j : In j (_getNearby m gi g) -> in_grid m j.
Proof.
  intros H. apply getNearby_in in H.
  destruct H as (_ & dx & dy & cell & _ & _ & Hc & Hin). by eexists _, cell.
Qed.

(** The step of grain [j] leaves another grain alone that is settled or
    that the grid does not refer to. *)
Lemma updateGrain_other geo m dt gs j i g0 :
  i <> j -> gs !! i = Some g0 -> settled g0 = true \/ ~ in_grid m i ->
  _updateGrain geo m dt gs j !! i = Some g0.
Proof.
  intros Hne Hi Hcase. unfold _updateGrain.
  destruct (gs !! j) as [g|] eqn:Hj; [|done].
  cbv zeta.
  match goal with |- context [foldl collide_grain (?a, gs) ?n] =>
    pose proof (collide_grains_other n i g0 a gs Hi) as H;
    destruct (foldl collide_grain (a, gs) n) as [g5 gs5] eqn:E end.
  simpl in H. rewrite list_lookup_insert_ne by done. apply H.
  destruct Hcase as [Hs|Hg]; [by right|left].
  intros Hin. apply Hg. by apply getNearby_in_grid in Hin.
Qed.

Lemma update_steps_other geo m dt i g0 idx : forall gs,
  gs !! i = Some g0 ->
  (active g0 = true /\ settled g0 = true) \/ (active g0 = false /\ ~ in_grid m i) ->
  foldl (update_step geo m dt) gs idx !! i = Some g0.
Proof.
  induction idx as [|j idx IH]; intros gs Hi Hcase; [done|]. simpl.
  apply IH; [|done]. unfold update_step.
  destruct (gs !! j) as [grain|] eqn:Hj; [|done].
  destruct (negb (active grain) || settled grain) eqn:Hskip; [done|].
  destruct (decide (i = j)) as [->|Hne].
  - assert (grain = g0) as -> by congruence.
    destruct Hcase as [[Ha Hs]|[Ha _]]; rewrite ?Ha, ?Hs in Hskip; by simpl in Hskip.
  - apply updateGrain_other; [done|done|].
    destruct Hcase as [[_ Hs]|[_ Hg]]; [by left|by right].
Qed.

(** The two phases of an [update] that runs. *)
Lemma update_phases fuel dt e s k s' k' geo :
  _geometry s = Some geo -> _grains s <> [] ->
  update rnd fuel dt e s k = Some (s', k') ->
  exists s2,
    release_loop rnd fuel (targetReleased s e) (with_elapsedMs e s) k = Some (s2, k') /\
    _grains s' =
      foldl (update_step geo (_spatialGrid (_buildSpatialGrid s2)) dt) (_grains s2)
        (seq 0 (length (_grains s2))).
Proof.
  intros Hgeo Hne. unfold update. rewrite Hgeo.
  destruct (_grains s) as [|g0 gs0] eqn:Hgs; [done|]. simpl length. simpl Nat.eqb. cbv iota.
  change (targetReleased (with_elapsedMs e s) e) with (targetReleased s e).
  destruct (release_loop rnd fuel _ _ _) as [[s2 k2]|]; [|done].
  intros [= <- <-]. by exists s2.
Qed.

End Untouched.

(** X5. [update] freezes the resting pile: a grain that is active and
    settled before the call is, at the same place of the array, the very
    same grain after it: neither the release nor any step of the physics
    writes it. *)
Theorem update_keeps_settled rnd fuel dt e s k s' k' :
  update rnd fuel dt e s k = Some (s', k') ->
  forall i g, _grains s !! i = Some g -> active g = true -> settled g = true ->
    _grains s' !! i = Some g.
Proof.
  intros Hup i g Hi Ha Hs.
  destruct (_geometry s) as [geo|] eqn:Hgeo;
    [|rewrite update_noop in Hup by (by left); by injection Hup as <-].
  destruct (_grains s) as [|g0 gs0] eqn:Hgs; [done|]. rewrite <- Hgs in Hi.
  destruct (update_phases rnd fuel dt e s k s' k' geo Hgeo ltac:(by rewrite Hgs) Hup)
    as (s2 & Hloop & ->).
  destruct (release_loop_cases rnd _ _ _ _ _ _ Hloop) as [_ H2].
  destruct (H2 i g Hi) as (g2 & Hi2 & _ & [->|[Hina _]]); [|congruence].
  apply update_steps_other; [done|]. by left.
Qed.

Lemma update_keeps_settled_witness :
  exists s' k',
    update half_draws 0 0.016 0 two_grains 0 = Some (s', k') /\
    _grains s' !! 0%nat = Some resting_grain.
Proof.
  assert (Hc : counted two_grains) by (by split).
  destruct (update_total half_draws 0.016 0 two_grains 0%nat Hc) as [[s' k'] Hup].
  assert (Hn : releases_needed two_grains 0 = 0%nat).
  { unfold releases_needed. rewrite targetReleased_nonzero by (simpl; lra). simpl.
    replace (0 / 500) with 0 by lra. by rewrite binary64_0, ZfloorZ. }
  rewrite Hn in Hup. exists s', k'. split; [exact Hup|].
  apply (update_keeps_settled half_draws 0%nat 0.016 0 two_grains 0%nat s' k' Hup
           0%nat resting_grain eq_refl eq_refl eq_refl).
Defined.

(** X6. [update] never moves the reserve: a grain that is inactive after
    the call was, at the same place of the array, the very same grain
    before it. *)
Theorem update_keeps_reserve rnd fuel dt e s k s' k' :
  update rnd fuel dt e s k = Some (s', k') ->
  forall i g', _grains s' !! i = Some g' -> active g' = false ->
    _grains s !! i = Some g'.
Proof.
  intros Hup i g' Hi' Ha'.
  destruct (_geometry s) as [geo|] eqn:Hgeo;
    [|rewrite update_noop in Hup by (by left); by injection Hup as <-].
  destruct (_grains s) as [|g0 gs0] eqn:Hgs;
    [rewrite update_noop in Hup by (by right); injection Hup as <-; by rewrite <- Hgs|].
  rewrite <- Hgs in *.
  destruct (update_phases rnd fuel dt e s k s' k' geo Hgeo ltac:(by rewrite Hgs) Hup)
    as (s2 & Hloop & Heq).
  destruct (release_loop_cases rnd _ _ _ _ _ _ Hloop) as [Hlen H2]. simpl in Hlen, H2.
  pose proof (fixed_update_steps geo (_spatialGrid (_buildSpatialGrid s2)) dt
                (seq 0 (length (_grains s2))) (_grains s2)) as Hfix.
  rewrite <- Heq in Hfix.
  assert (Hlt : (i < length (_grains s2))%nat).
  { apply lookup_lt_Some in Hi'. by rewrite (fixed_length _ _ Hfix) in Hi'. }
  destruct (lookup_lt_is_Some_2 _ _ Hlt) as [g2 Hi2].
  destruct (fixed_lookup _ _ i g2 Hfix Hi2) as (g'' & Hi'' & Hf).
  assert (g'' = g') as -> by congruence.
  assert (Ha2 : active g2 = false).
  { unfold fixed in Hf. injection Hf as _ _ _ Hact. congruence. }
  assert (Hsame : _grains s' !! i = Some g2).
  { rewrite Heq. apply update_steps_other; [done|]. right. split; [done|].
    intros Hin. apply buildSpatialGrid_in_grid in Hin.
    destruct Hin as (g3 & Hi3 & Ha3). congruence. }
  assert (g2 = g') as -> by congruence.
  rewrite Hlen in Hlt. destruct (lookup_lt_is_Some_2 _ _ Hlt) as [g Hi].
  destruct (H2 i g Hi) as (g2' & Hi2' & _ & [->|[_ Hact]]); congruence.
Qed.

Lemma update_keeps_reserve_witness :
  exists s' k',
    update half_draws 0 0.016 0 reserve_system 0 = Some (s', k') /\
    (forall g', _grains s' !! 2%nat = Some g' -> active g' = false -> g' = reserve_low).
Proof.
  assert (Hc : counted reserve_system) by (by split).
  destruct (update_total half_draws 0.016 0 reserve_system 0%nat Hc) as [[s' k'] Hup].
  assert (Hn : releases_needed reserve_system 0 = 0%nat).
  { unfold releases_needed. rewrite targetReleased_nonzero by (simpl; lra). simpl.
    replace (0 / 500) with 0 by lra. by rewrite binary64_0, ZfloorZ. }
  rewrite Hn in Hup. exists s', k'. split; [exact Hup|].
  intros g' Hi Ha.
  pose proof (update_keeps_reserve half_draws 0%nat 0.016 0 reserve_system 0%nat s' k' Hup
                2%nat g' Hi Ha) as H.
  simpl in H. congruence.
Defined.

(** ** What a grain keeps for life *)

Lemma fixed_born g g' : fixed g' = fixed g -> born g' = born g /\ active g' = active g.
Proof. unfold fixed, born. intros [= -> -> -> ->]. done. Qed.

(** Place by place, a call that does not replace the grains keeps what
    each grain was born with and keeps the active grains active. *)
Lemma step_keeps_grains rnd st c st' :
  step rnd st c st' -> keeps_grains c ->
  length (_grains st'.1) = length (_grains st.1) /\
  forall i g, _grains st.1 !! i = Some g ->
    exists g', _grains st'.1 !! i = Some g' /\ born g' = born g /\
      (active g = true -> active g' = true).
Proof.
  intros Hstep Hc.
  destruct Hstep as [geo s k|totalMs s k|fuel dt e s k [s' k'] Hup|s k|s k];
    try done; simpl.
  - split; [done|]. intros i g Hi. by exists g.
  - destruct (_geometry s) as [geo|] eqn:Hgeo;
      [|rewrite update_noop in Hup by (by left); injection Hup as <- _;
        split; [done|]; intros i g Hi; by exists g].
    destruct (_grains s) as [|g0 gs0] eqn:Hgs;
      [rewrite update_noop in Hup by (by right); injection Hup as <- _;
        rewrite Hgs; split; [done|]; intros i g Hi; by exists g|].
    rewrite <- Hgs in *.
    destruct (update_phases rnd fuel dt e s k s' k' geo Hgeo ltac:(by rewrite Hgs) Hup)
      as (s2 & Hloop & Heq).
    destruct (release_loop_cases rnd _ _ _ _ _ _ Hloop) as [Hlen H2]. simpl in Hlen, H2.
    pose proof (fixed_update_steps geo (_spatialGrid (_buildSpatialGrid s2)) dt
                  (seq 0 (length (_grains s2))) (_grains s2)) as Hfix.
    rewrite <- Heq in Hfix.
    split; [by rewrite (fixed_length _ _ Hfix)|].
    intros i g Hi. destruct (H2 i g Hi) as (g2 & Hi2 & Hb2 & Hc2).
    destruct (fixed_lookup _ _ i g2 Hfix Hi2) as (g' & Hi' & Hf).
    destruct (fixed_born _ _ Hf) as [Hb Ha].
    exists g'. split; [done|]. split; [congruence|].
    intros Hact. rewrite Ha. destruct Hc2 as [->|[_ ?]]; done.
  - pose proof (fixed_explode rnd s k) as Hfix.
    split; [by apply fixed_length|].
    intros i g Hi. destruct (fixed_lookup _ _ i g Hfix Hi) as (g' & Hi' & Hf).
    destruct (fixed_born _ _ Hf) as [Hb Ha].
    exists g'. split; [done|]. split; [done|]. congruence.
Qed.

(** X7. Until the next [init] or [reset], whatever [setGeometry], [update]
    and [explode] calls are made, the array keeps its grains in place,
    every grain keeps its radius, colour and colour offset, and a grain that
    is active stays active. *)
Theorem grains_keep_identity rnd st cs st' :
  run rnd st cs st' -> Forall keeps_grains cs ->
  length (_grains st'.1) = length (_grains st.1) /\
  forall i g, _grains st.1 !! i = Some g ->
    exists g', _grains st'.1 !! i = Some g' /\
      radius g' = radius g /\ colorOffset g' = colorOffset g /\ color g' = color g /\
      (active g = true -> active g' = true).
Proof.
  intros Hrun Hall.
  assert (H : length (_grains st'.1) = length (_grains st.1) /\
    forall i g, _grains st.1 !! i = Some g ->
      exists g', _grains st'.1 !! i = Some g' /\ born g' = born g /\
        (active g = true -> active g' = true)).
  { revert Hall. induction Hrun as [st|st c st1 cs st2 Hstep Hrun IH]; intros Hall.
    - split; [done|]. intros i g Hi. by exists g.
    - inversion Hall as [|? ? Hc Hcs]; subst.
      destruct (step_keeps_grains rnd st c st1 Hstep Hc) as [Hlen1 H1].
      destruct (IH Hcs) as [Hlen2 H2]. split; [congruence|].
      intros i g Hi. destruct (H1 i g Hi) as (g1 & Hi1 & Hb1 & Ha1).
      destruct (H2 i g1 Hi1) as (g2 & Hi2 & Hb2 & Ha2).
      exists g2. split; [done|]. split; [congruence|]. auto. }
  destruct H as [Hlen H]. split; [done|].
  intros i g Hi. destruct (H i g Hi) as (g' & Hi' & Hb & Ha).
  exists g'. split; [done|]. unfold born in Hb. injection Hb as -> -> ->. done.
Qed.

Lemma grains_keep_identity_witness :
  run half_draws (reserve_system, 0%nat) [CallExplode; CallSetGeometry test_geometry]
    (setGeometry test_geometry (explode half_draws reserve_system 0).1,
     (explode half_draws reserve_system 0).2) /\
  exists g', _grains (setGeometry test_geometry (explode half_draws reserve_system 0).1)
               !! 0%nat = Some g' /\ active g' = true.
Proof.
  assert (Hrun : run half_draws (reserve_system, 0%nat)
                   [CallExplode; CallSetGeometry test_geometry]
                   (setGeometry test_geometry (explode half_draws reserve_system 0).1,
                    (explode half_draws reserve_system 0).2)).
  { eapply run_cons; [apply step_explode|].
    destruct (explode half_draws reserve_system 0) as [s1 k1].
    eapply run_cons; [apply step_setGeometry|apply run_nil]. }
  split; [exact Hrun|].
  destruct (grains_keep_identity half_draws _ _ _ Hrun ltac:(by repeat constructor))
    as [_ H].
  destruct (H 0%nat falling_grain eq_refl) as (g' & Hi & _ & _ & _ & Ha).
  exists g'. split; [exact Hi|]. by apply Ha.
Defined.

Lemma step_grains_ok rnd st c st' :
  unit_draws rnd -> step rnd st c st' ->
  Forall grain_ok (_grains st.1) -> Forall grain_ok (_grains st'.1).
Proof.
  intros Hr Hstep H0.
  assert (Hdec : keeps_grains c \/ ~ keeps_grains c) by (destruct c; simpl; tauto).
  destruct Hdec as [Hk|Hk].
  - destruct (step_keeps_grains rnd st c st' Hstep Hk) as [Hlen H].
    apply Forall_lookup. intros i g1 Hi1.
    assert (Hlt : (i < length (_grains st.1))%nat)
      by (rewrite <- Hlen; by apply lookup_lt_Some in Hi1).
    destruct (lookup_lt_is_Some_2 _ _ Hlt) as [g Hi].
    destruct (H i g Hi) as (g' & Hi' & Hb & _).
    assert (g' = g1) as -> by congruence.
    rewrite Forall_lookup in H0. specialize (H0 i g Hi).
    unfold born in Hb. injection Hb as Hco Hra _. unfold grain_ok in *.
    by rewrite Hco, Hra.
  - destruct Hstep as [geo s k|totalMs s k|fuel dt e s k [s' k'] Hup|s k|s k];
      simpl in Hk; try (by destruct Hk); simpl.
    + destruct (_geometry s) as [geo|] eqn:Hgeo.
      * destruct (init_spec rnd totalMs s k geo Hgeo) as (new & -> & _ & Hall). simpl.
        eapply Forall_impl; [exact Hall|].
        intros g (s0 & j & k1 & ->).
        destruct (new_grain_bounds rnd s0 geo j k1 Hr) as (_ & Hco & Hra).
        split; lra.
      * rewrite init_without_geometry by done. simpl. constructor.
    + constructor.
Qed.

(** X8. In every state a program can reach, with draws in [0, 1), every
    grain has a radius within 0.4 of the base radius and a colour offset in
    [-1, 1]. *)
Theorem reachable_grains_ok rnd st :
  unit_draws rnd -> reachable rnd st -> Forall grain_ok (_grains st.1).
Proof.
  intros Hr (k0 & cs & Hrun).
  assert (H : forall st0 cs0 st1, run rnd st0 cs0 st1 ->
            Forall grain_ok (_grains st0.1) -> Forall grain_ok (_grains st1.1)).
  { induction 1 as [st0|st0 c st1 cs0 st2 Hstep Hrun0 IH]; [done|].
    intros H0. apply IH. by apply step_grains_ok with rnd st0 c. }
  apply (H _ _ _ Hrun). constructor.
Qed.

Lemma reachable_grains_ok_witness :
  unit_draws half_draws /\
  reachable half_draws (init half_draws 60000 test_system 0) /\
  Forall grain_ok (_grains (init half_draws 60000 test_system 0).1).
Proof.
  assert (Hreach : reachable half_draws (init half_draws 60000 test_system 0)).
  { exists 0%nat, [CallSetGeometry test_geometry; CallInit 60000].
    eapply run_cons; [apply step_setGeometry|].
    eapply run_cons; [apply step_init|apply run_nil]. }
  split; [exact half_draws_unit|]. split; [exact Hreach|].
  apply (reachable_grains_ok half_draws _ half_draws_unit Hreach).
Defined.

(** ** Floor, ceiling and walls *)


(** X9. After the floor and ceiling steps a grain lies between the ceiling
    and the floor, when the container is at least as tall as the grain;
    the steps do not move it sideways and speed it up in neither
    direction, and a hit on the floor turns [vy] round, damped. *)
Theorem floor_ceiling_contain geo g :
  0 <= radius g -> topCeilingY geo + 2 * radius g <= bottomFloorY geo ->
  let g' := collide_ceiling geo (collide_floor geo g) in
  topCeilingY geo <= y g' - radius g' /\ y g' + radius g' <= bottomFloorY geo /\
  x g' = x g /\
  vy g' * vy g' <= vy g * vy g /\ vx g' * vx g' <= vx g * vx g /\
  (bottomFloorY geo < y g + radius g ->
   y g' = bottomFloorY geo - radius g /\ vy g' = - DAMPING * vy g) /\
  fixed g' = fixed g /\ settled g' = settled g.
Proof.
  intros Hr Hh. cbv zeta. unfold collide_ceiling, collide_floor.
  destruct (Rltb (bottomFloorY geo) (y g + radius g)) eqn:E1; simpl.
  - apply Rltb_lt in E1.
    assert (E2 : Rltb (bottomFloorY geo - radius g - radius g) (topCeilingY geo) = false)
      by (apply Rltb_nlt; lra).
    rewrite E2. simpl. unfold DAMPING, FRICTION.
    repeat split; try done; try lra; nra.
  - apply Rltb_nlt in E1.
    destruct (Rltb (y g - radius g) (topCeilingY geo)) eqn:E2; simpl.
    + apply Rltb_lt in E2. unfold DAMPING. repeat split; try done; try lra; nra.
    + apply Rltb_nlt in E2. repeat split; try done; lra.
Qed.

Lemma floor_ceiling_contain_witness :
  0 <= radius falling_grain /\
  topCeilingY test_geometry + 2 * radius falling_grain <= bottomFloorY test_geometry /\
  y (collide_ceiling test_geometry (collide_floor test_geometry falling_grain))
    + radius (collide_ceiling test_geometry (collide_floor test_geometry falling_grain))
    <= bottomFloorY test_geometry.
Proof.
  assert (H1 : 0 <= radius falling_grain) by (simpl; lra).
  assert (H2 : topCeilingY test_geometry + 2 * radius falling_grain
               <= bottomFloorY test_geometry) by (simpl; lra).
  split; [exact H1|]. split; [exact H2|].
  destruct (floor_ceiling_contain test_geometry falling_grain H1 H2) as (_ & H & _).
  exact H.
Defined.

Lemma collideWall_speed g w :
  vx (_collideWall g w) * vx (_collideWall g w) + vy (_collideWall g w) * vy (_collideWall g w)
    <= vx g * vx g + vy g * vy g /\
  fixed (_collideWall g w) = fixed g /\ settled (_collideWall g w) = settled g.
Proof.
  destruct (Req_dec_T (wall_len2 w) 0) as [Hz|Hnz].
  { unfold _collideWall. apply Reqb_eq in Hz. rewrite Hz. split; [lra|done]. }
  destruct (Rlt_dec (wall_dist g w) (radius g)) as [Hd|Hd].
  - rewrite (collideWall_overlap g w Hnz Hd). cbv zeta. simpl.
    pose proof (wall_normal_unit g w) as Hn.
    set (nx := wall_nx g w) in *. set (ny := wall_ny g w) in *.
    set (dot := vx g * nx + vy g * ny).
    split; [|done].
    destruct (Rltb dot 0) eqn:E.
    + set (c := 2 * dot * DAMPING).
      replace ((vx g - c * nx) * (vx g - c * nx) + (vy g - c * ny) * (vy g - c * ny))
        with (vx g * vx g + vy g * vy g - 2 * c * dot + c * c * (nx * nx + ny * ny))
        by (unfold dot; ring).
      rewrite Hn. unfold c, DAMPING. pose proof (Rle_0_sqr dot) as Hsq. unfold Rsqr in Hsq.
      nra.
    + lra.
  - unfold _collideWall. apply Reqb_neq in Hnz. apply Rltb_nlt in Hd. rewrite Hnz, Hd.
    split; [lra|done].
Qed.

Lemma settled_walls ws : forall g, settled (foldl _collideWall g ws) = settled g.
Proof.
  induction ws as [|w ws IH]; intros g; simpl; [done|].
  destruct (collideWall_speed g w) as (_ & _ & H). by rewrite IH.
Qed.

(** X10. The wall pass never speeds a grain up: after the collisions with
    all the walls, one after the other, the speed is at most what it was;
    a wall of zero length, or one whose closest point is a radius or more
    away, leaves the grain as it is. *)
Theorem walls_never_speed_up ws g :
  let g' := foldl _collideWall g ws in
  vx g' * vx g' + vy g' * vy g' <= vx g * vx g + vy g * vy g /\
  settled g' = settled g /\
  forall w, wall_len2 w = 0 \/ radius g <= wall_dist g w -> _collideWall g w = g.
Proof.
  cbv zeta. split; [|split].
  - revert g. induction ws as [|w ws IH]; intros g; simpl; [lra|].
    destruct (collideWall_speed g w) as [H _]. specialize (IH (_collideWall g w)). lra.
  - apply settled_walls.
  - intros w [Hz|Hfar]; unfold _collideWall.
    + apply Reqb_eq in Hz. by rewrite Hz.
    + destruct (Reqb (wall_len2 w) 0); [done|].
      assert (E : Rltb (wall_dist g w) (radius g) = false) by (apply Rltb_nlt; lra).
      by rewrite E.
Qed.

(** ** Settling *)








(** ** The grains of [init], one by one *)

Section InitIndexed.

Variable rnd : nat -> R.

Lemma getWidthAtY_geometry s1 s2 py :
  _geometry s1 = _geometry s2 -> _getWidthAtY s1 py = _getWidthAtY s2 py.
Proof. intros H. unfold _getWidthAtY. by rewrite H. Qed.

Lemma new_grain_geometry s1 s2 geo i k :
  _geometry s1 = _geometry s2 -> new_grain rnd s1 geo i k = new_grain rnd s2 geo i k.
Proof.
  intros H. unfold new_grain. cbv zeta.
  by rewrite (getWidthAtY_geometry s1 s2 _ H).
Qed.

Lemma init_loop_indexed geo n : forall i s k,
  _grains (init_loop rnd geo n i s k).1 =
    _grains s ++ map (fun j => new_grain rnd s geo (i + j) (k + 4 * j)) (seq 0 n) /\
  (init_loop rnd geo n i s k).2 = (k + 4 * n)%nat.
Proof.
  induction n as [|n IH]; intros i s k.
  - simpl. rewrite app_nil_r. split; [done|lia].
  - change (init_loop rnd geo (S n) i s k)
      with (init_loop rnd geo n (S i)
              (with_grains (_grains s ++ [new_grain rnd s geo i k]) s) (k + 4)).
    destruct (IH (S i) (with_grains (_grains s ++ [new_grain rnd s geo i k]) s) (k + 4)%nat)
      as [-> ->].
    split; [|lia]. simpl _grains. rewrite <- app_assoc. f_equal.
    change (seq 0 (S n)) with (0%nat :: seq 1 n). rewrite <- seq_shift.
    cbn [map app]. rewrite List.map_map. f_equal.
    + f_equal; lia.
    + apply map_ext. intros j.
      etrans; [apply (new_grain_geometry _ s); reflexivity|]. f_equal; lia.
Qed.

(** The grains [init] creates, by index, and the draws it takes. *)
Lemma init_indexed totalMs s k geo :
  _geometry s = Some geo ->
  _grains (init rnd totalMs s k).1 =
    map (fun j => new_grain rnd s geo j (k + 4 * j)) (seq 0 (Z.to_nat (grain_count totalMs))) /\
  (init rnd totalMs s k).2 = (k + 4 * Z.to_nat (grain_count totalMs))%nat.
Proof.
  intros Hgeo. unfold init. simpl. rewrite Hgeo. simpl.
  match goal with |- context [init_loop rnd geo ?n ?i ?s0 ?k0] =>
    destruct (init_loop_indexed geo n i s0 k0) as [-> ->] end.
  simpl. split; [|done].
  apply map_ext. intros j. by apply new_grain_geometry.
Qed.

End InitIndexed.

(** X12. [init] starts afresh: with the same geometry, the same duration
    and the same draws it yields the same grains, counters, interval and
    cursor whatever the system held before: grains, counters and settings
    of an earlier countdown leave no trace. *)
Theorem init_discards_previous rnd totalMs s1 s2 k geo :
  _geometry s1 = Some geo -> _geometry s2 = Some geo ->
  _grains (init rnd totalMs s1 k).1 = _grains (init rnd totalMs s2 k).1 /\
  _totalGrains (init rnd totalMs s1 k).1 = _totalGrains (init rnd totalMs s2 k).1 /\
  _releasedCount (init rnd totalMs s1 k).1 = _releasedCount (init rnd totalMs s2 k).1 /\
  _releaseInterval (init rnd totalMs s1 k).1 = _releaseInterval (init rnd totalMs s2 k).1 /\
  _totalMs (init rnd totalMs s1 k).1 = _totalMs (init rnd totalMs s2 k).1 /\
  (init rnd totalMs s1 k).2 = (init rnd totalMs s2 k).2.
Proof.
  intros H1 H2.
  destruct (init_indexed rnd totalMs s1 k geo H1) as [Hg1 Hk1].
  destruct (init_indexed rnd totalMs s2 k geo H2) as [Hg2 Hk2].
  destruct (init_state rnd totalMs s1 k geo H1) as (_ & _ & _ & Ht1 & Hi1 & Hr1 & Hm1).
  destruct (init_state rnd totalMs s2 k geo H2) as (_ & _ & _ & Ht2 & Hi2 & Hr2 & Hm2).
  rewrite Hg1, Hg2, Hk1, Hk2, Ht1, Ht2, Hi1, Hi2, Hr1, Hr2, Hm1, Hm2.
  split; [|done].
  apply map_ext. intros j. apply new_grain_geometry. congruence.
Qed.

Lemma init_discards_previous_witness :
  _grains (init half_draws 60000 reserve_system 0).1
    = _grains (init half_draws 60000 test_system 0).1.
Proof.
  apply (init_discards_previous half_draws 60000 reserve_system test_system 0%nat
           test_geometry eq_refl eq_refl).
Defined.

Lemma getWidthAtY_range s geo py :
  _geometry s = Some geo ->
  neckRight geo - neckLeft geo <= _getWidthAtY s py <= neckRight geo - neckLeft geo + 120.
Proof.
  intros Hgeo. unfold _getWidthAtY. rewrite Hgeo. cbv zeta.
  assert (Hsq : forall t, 0 <= sqrt (Rmin 1 t) <= 1).
  { intros t. split; [apply sqrt_pos|].
    rewrite <- sqrt_1 at 2. apply sqrt_le_1_alt. apply Rmin_l. }
  destruct (_ && _); [lra|].
  destruct (Rltb py (neckTopY geo)).
  - specialize (Hsq ((neckTopY geo - py) / (neckTopY geo - topCeilingY geo))). nra.
  - specialize (Hsq ((py - neckBottomY geo) / (bottomFloorY geo - neckBottomY geo))). nra.
Qed.

(** X13. [init] packs the reserve in rows of twenty above the neck: with
    draws in [0, 1) and a top bulb of positive height, grain [i] lies in
    row [i / 20], at most one pixel below the line of its row, which is
    12 px above the neck for the first row and 5.5 px higher for each
    further one, and sideways within 40% of the widest width of the glass,
    plus one pixel, of the centre of the neck. *)
Theorem init_packing rnd totalMs s k geo i :
  unit_draws rnd -> _geometry s = Some geo ->
  topCeilingY geo < neckTopY geo -> neckLeft geo <= neckRight geo ->
  (i < Z.to_nat (grain_count totalMs))%nat ->
  exists g, _grains (init rnd totalMs s k).1 !! i = Some g /\
    y g <= neckTopY geo - 12 - 5.5 * INR (i / 20) + 1 /\
    (neckLeft geo + neckRight geo) / 2 - (0.4 * (neckRight geo - neckLeft geo + 120) + 1)
      <= x g <=
    (neckLeft geo + neckRight geo) / 2 + (0.4 * (neckRight geo - neckLeft geo + 120) + 1).
Proof.
  intros Hr Hgeo Htop Hneck Hi.
  destruct (init_indexed rnd totalMs s k geo Hgeo) as [-> _].
  exists (new_grain rnd s geo i (k + 4 * i)). split.
  - rewrite list_lookup_fmap, lookup_seq_lt by done. done.
  - unfold new_grain. cbv zeta. cbn [x y].
    pose proof (Hr (k + 4 * i)%nat). pose proof (Hr (k + 4 * i + 1)%nat).
    set (rowY := neckTopY geo - 12 - INR (i / 20) * (GRAIN_RADIUS * 2.2)).
    pose proof (getWidthAtY_range s geo rowY Hgeo) as Hw.
    pose proof (Rmin_l rowY (topCeilingY geo + (neckTopY geo - topCeilingY geo) * 0.9)).
    assert (Hcol : 0 <= INR (i mod 20) / 19 <= 1).
    { pose proof (pos_INR (i mod 20)) as Hp.
      assert (Hle : INR (i mod 20) <= INR 19)
        by (apply le_INR; pose proof (Nat.mod_upper_bound i 20); lia).
      replace (INR 19) with 19 in Hle by (simpl; lra). lra. }
    set (W := _getWidthAtY s rowY) in *. set (c := INR (i mod 20) / 19) in *.
    unfold rowY, GRAIN_RADIUS in *. split; [lra|]. split; nra.
Qed.

Lemma init_packing_witness :
  exists g, _grains (init half_draws 60000 test_system 0).1 !! 25%nat = Some g /\
    y g <= neckTopY test_geometry - 12 - 5.5 * INR (25 / 20) + 1.
Proof.
  assert (Hn : (25 < Z.to_nat (grain_count 60000))%nat).
  { rewrite (grain_count_of 120 60000) by (simpl; lra). simpl. lia. }
  destruct (init_packing half_draws 60000 test_system 0%nat test_geometry 25%nat
              half_draws_unit eq_refl ltac:(simpl; lra) ltac:(simpl; lra) Hn)
    as (g & Hi & Hy & _).
  by exists g.
Defined.

(** ** reset *)

(** X14. [reset] empties the store and is idempotent; it keeps the
    geometry, and on the system it leaves [update] and [explode] do
    nothing until the next [init]. *)
Theorem reset_clears rnd s k :
  reset (reset s) = reset s /\
  _grains (reset s) = [] /\ _totalGrains (reset s) = 0%Z /\ _releasedCount (reset s) = 0%Z /\
  _geometry (reset s) = _geometry s /\
  (forall fuel dt e, update rnd fuel dt e (reset s) k = Some (reset s, k)) /\
  explode rnd (reset s) k = (reset s, k) /\
  Inv (reset s).
Proof.
  split; [done|]. split; [done|]. split; [done|]. split; [done|]. split; [done|].
  split; [|split].
  - intros fuel dt e. apply update_noop. by right.
  - done.
  - split; [by split|]. intros H. by destruct H.
Qed.

(** ** Two grains that overlap *)

Lemma separate_algebra (po pg d m : R) :
  d <> 0 ->
  po + (po - pg) / d * ((m - d) * 0.5) - (pg - (po - pg) / d * ((m - d) * 0.5))
    = (po - pg) * (m / d).
Proof. intros Hd. replace 0.5 with (/ 2) by lra. field. exact Hd. Qed.

Lemma separate_square (a b m d : R) :
  d <> 0 ->
  a * (m / d) * (a * (m / d)) + b * (m / d) * (b * (m / d))
    = (a * a + b * b) * (m * m) / (d * d).
Proof. intros Hd. field. exact Hd. Qed.

(** X15. When the grain being stepped overlaps an unsettled neighbour (their
    centres more than 0.01 apart), one iteration of the grain-to-grain loop
    moves the two apart by the same amount in opposite directions: the
    point midway between them stays where it is, and afterwards their
    centres are exactly the sum of their radii apart.  The neighbour's
    velocity is not written. *)
Theorem collide_grain_separates g gs j other :
  gs !! j = Some other ->
  settled g = false -> settled other = false ->
  let dist := sqrt ((x other - x g) * (x other - x g) + (y other - y g) * (y other - y g)) in
  0.01 < dist -> dist < radius g + radius other ->
  let r := collide_grain (g, gs) j in
  exists other',
    r.2 !! j = Some other' /\
    sqrt ((x other' - x r.1) * (x other' - x r.1) + (y other' - y r.1) * (y other' - y r.1))
      = radius g + radius other /\
    x r.1 + x other' = x g + x other /\ y r.1 + y other' = y g + y other /\
    vx other' = vx other /\ vy other' = vy other /\
    (forall i, i <> j -> r.2 !! i = gs !! i).
Proof.
  intros Hj Hsg Hso dist Hmin Hmax. cbv zeta. unfold collide_grain. rewrite Hj. cbv zeta.
  fold dist.
  assert (E1 : Rltb dist (radius g + radius other) = true) by (by apply Rltb_lt).
  assert (E2 : Rltb 0.01 dist = true) by (by apply Rltb_lt).
  rewrite E1, E2, Hsg, Hso. simpl. rewrite Hsg. simpl.
  rewrite list_lookup_insert_eq by (by apply lookup_lt_Some in Hj).
  eexists. split; [reflexivity|]. simpl.
  set (dx := x other - x g) in *. set (dy := y other - y g) in *.
  set (M := radius g + radius other) in *.
  assert (Hd2 : dist * dist = dx * dx + dy * dy).
  { unfold dist. apply sqrt_sqrt.
    apply Rplus_le_le_0_compat; [apply (Rle_0_sqr dx)|apply (Rle_0_sqr dy)]. }
  clearbody dist.
  split.
  - apply sqrt_lem_1.
    + apply Rplus_le_le_0_compat;
        [apply (Rle_0_sqr (x other + dx / dist * ((M - dist) * 0.5)
                           - (x g - dx / dist * ((M - dist) * 0.5))))
        |apply (Rle_0_sqr (y other + dy / dist * ((M - dist) * 0.5)
                           - (y g - dy / dist * ((M - dist) * 0.5))))].
    + lra.
    + unfold dx, dy. rewrite !separate_algebra by lra. fold dx dy.
      rewrite (separate_square dx dy M dist) by lra.
      rewrite <- Hd2. field. lra.
  - split; [lra|]. split; [lra|]. split; [done|]. split; [done|].
    intros i Hne. by rewrite list_lookup_insert_ne.
Qed.

Lemma collide_grain_separates_witness :
  exists other',
    (collide_grain (pair_left, [pair_left; pair_right]) 1).2 !! 1%nat = Some other' /\
    x (collide_grain (pair_left, [pair_left; pair_right]) 1).1 + x other' = 0 + 1.2.
Proof.
  assert (Hd : sqrt ((x pair_right - x pair_left) * (x pair_right - x pair_left)
                     + (y pair_right - y pair_left) * (y pair_right - y pair_left)) = 2).
  { simpl. apply sqrt_lem_1; lra. }
  destruct (collide_grain_separates pair_left [pair_left; pair_right] 1%nat pair_right
              eq_refl eq_refl eq_refl) as (other' & Hi & _ & Hx & _).
  - rewrite Hd. lra.
  - rewrite Hd. simpl. lra.
  - exists other'. split; [exact Hi|]. exact Hx.
Defined.

(** ** explode, twice *)

Section ExplodeTwice.

Variable rnd : nat -> R.

Lemma explode_steps_none idx : forall (gs : list Grain) k,
  (forall i g, gs !! i = Some g -> settled g && active g = false) ->
  foldl (explode_step rnd) (gs, k) idx = (gs, k).
Proof.
  induction idx as [|i idx IH]; intros gs k Hnone; [done|].
  change (foldl (explode_step rnd) (gs, k) (i :: idx))
    with (foldl (explode_step rnd) (explode_step rnd (gs, k) i) idx).
  assert (Hstep : explode_step rnd (gs, k) i = (gs, k)).
  { unfold explode_step. destruct (gs !! i) as [g|] eqn:Hi; [|done].
    by rewrite (Hnone i g Hi). }
  rewrite Hstep. by apply IH.
Qed.

End ExplodeTwice.

(** X16. After [explode] no active grain is settled, so a second [explode]
    right after the first changes nothing and takes no draw: the alarm can
    only kick a pile that has come to rest again. *)
Theorem explode_twice rnd s k :
  (forall i g', _grains (explode rnd s k).1 !! i = Some g' ->
     active g' = true -> settled g' = false) /\
  forall k', explode rnd (explode rnd s k).1 k' = ((explode rnd s k).1, k').
Proof.
  destruct (explode_spec rnd s k) as [Hlen H].
  assert (Hnone : forall i g', _grains (explode rnd s k).1 !! i = Some g' ->
            settled g' && active g' = false).
  { intros i g' Hi'.
    assert (Hlt : (i < length (_grains s))%nat)
      by (rewrite <- Hlen; by apply lookup_lt_Some in Hi').
    destruct (lookup_lt_is_Some_2 _ _ Hlt) as [g Hi].
    destruct (H i g Hi) as (g'' & Hi'' & Hrel).
    assert (g'' = g') as -> by congruence.
    unfold exploded in Hrel. destruct (settled g && active g) eqn:E.
    - destruct Hrel as [n ->]. done.
    - by subst g'. }
  split.
  - intros i g' Hi' Ha. specialize (Hnone i g' Hi'). rewrite Ha in Hnone.
    by destruct (settled g').
  - intros k'. unfold explode at 1.
    rewrite (explode_steps_none rnd _ _ k' Hnone). by rewrite with_grains_id.
Qed.

(** ** The wall, for a grain that moves into it *)

(** X17. For a grain that moves into a wall it overlaps, the wall step takes
    [2 * DAMPING] of the component of the velocity along the contact normal
    away: the component is scaled by [1 - 2 * DAMPING], that is 0.4, and
    keeps its sign, so the grain still moves towards the wall, more
    slowly. *)
Theorem collideWall_into_wall g w :
  wall_len2 w <> 0 -> wall_dist g w < radius g ->
  vx g * wall_nx g w + vy g * wall_ny g w < 0 ->
  vx (_collideWall g w) * wall_nx g w + vy (_collideWall g w) * wall_ny g w
    = 0.4 * (vx g * wall_nx g w + vy g * wall_ny g w) /\
  vx (_collideWall g w) * wall_nx g w + vy (_collideWall g w) * wall_ny g w < 0.
Proof.
  intros Hlen Hd Hdot.
  destruct (collideWall_normal_velocity g w Hlen Hd Hdot) as [H1 H2].
  split; [|exact H2]. rewrite H1. unfold DAMPING. lra.
Qed.

Lemma collideWall_into_wall_witness :
  wall_len2 left_wall <> 0 /\
  wall_dist approaching_grain left_wall < radius approaching_grain /\
  vx (_collideWall approaching_grain left_wall) * wall_nx approaching_grain left_wall
    + vy (_collideWall approaching_grain left_wall) * wall_ny approaching_grain left_wall < 0.
Proof.
  destruct leaving_grain_closest as (Hlen & HcX & HcY & Hd & Hnx & Hny).
  change (wall_dist leaving_grain left_wall) with (wall_dist approaching_grain left_wall) in Hd.
  change (wall_nx leaving_grain left_wall) with (wall_nx approaching_grain left_wall) in Hnx.
  change (wall_ny leaving_grain left_wall) with (wall_ny approaching_grain left_wall) in Hny.
  assert (H1 : wall_len2 left_wall <> 0) by (rewrite Hlen; lra).
  assert (H2 : wall_dist approaching_grain left_wall < radius approaching_grain)
    by (rewrite Hd; simpl; lra).
  assert (H3 : vx approaching_grain * wall_nx approaching_grain left_wall
               + vy approaching_grain * wall_ny approaching_grain left_wall < 0)
    by (rewrite Hnx, Hny; simpl; lra).
  split; [exact H1|]. split; [exact H2|].
  apply (collideWall_into_wall approaching_grain left_wall H1 H2 H3).
Defined.

(** ** The end of the timer *)

(** The two divisions of the release schedule for a duration of 7 ms:
    the interval, and the quotients at the end and at half time. *)
Lemma binary64_7_200 : binary64 (7 / 200) = 5044031582654956 / 144115188075855872.
Proof.
  rewrite (binary64_eq (7 / 200) (-57) 5044031582654956).
  - rewrite powerRZ2_neg. change (2 ^ 57)%Z with 144115188075855872%Z. lra.
  - change (-57 + 52)%Z with (-5)%Z. change (-57 + 53)%Z with (-4)%Z.
    rewrite !powerRZ2_neg. change (2 ^ 5)%Z with 32%Z. change (2 ^ 4)%Z with 16%Z.
    rewrite Rabs_pos_eq by lra. lra.
  - rewrite powerRZ2_neg. change (2 ^ 57)%Z with 144115188075855872%Z. lra.
Qed.

Lemma binary64_7_interval :
  binary64 (7 / (5044031582654956 / 144115188075855872))
  = 7036874417766399 / 35184372088832.
Proof.
  rewrite (binary64_eq _ (-45) 7036874417766399).
  - rewrite powerRZ2_neg. change (2 ^ 45)%Z with 35184372088832%Z. lra.
  - change (-45 + 52)%Z with 7%Z. change (-45 + 53)%Z with 8%Z.
    rewrite !powerRZ2_pos. change (2 ^ 7)%Z with 128%Z. change (2 ^ 8)%Z with 256%Z.
    rewrite Rabs_pos_eq by lra. lra.
  - rewrite powerRZ2_neg. change (2 ^ 45)%Z with 35184372088832%Z. lra.
Qed.

Lemma binary64_half_interval :
  binary64 (3.5 / (5044031582654956 / 144115188075855872))
  = 7036874417766399 / 70368744177664.
Proof.
  rewrite (binary64_eq _ (-46) 7036874417766399).
  - rewrite powerRZ2_neg. change (2 ^ 46)%Z with 70368744177664%Z. lra.
  - change (-46 + 52)%Z with 6%Z. change (-46 + 53)%Z with 7%Z.
    rewrite !powerRZ2_pos. change (2 ^ 6)%Z with 64%Z. change (2 ^ 7)%Z with 128%Z.
    rewrite Rabs_pos_eq by lra. lra.
  - rewrite powerRZ2_neg. change (2 ^ 46)%Z with 70368744177664%Z. lra.
Qed.

(** The rounded quotient at the end of the timer is less than one below
    the number of grains. *)
Lemma target_at_end T (n : Z) e :
  0 < T -> T <= e -> (200 <= n <= 400)%Z ->
  IZR (n - 1) <= binary64 (e / binary64 (T / IZR n)).
Proof.
  intros HT He [Hn1 Hn2]. apply IZR_le in Hn1, Hn2. rewrite minus_IZR.
  set (u := powerRZ 2 (-53)).
  assert (Hu : 0 < u < / 1000000).
  { unfold u. rewrite powerRZ2_neg. change (2 ^ 53)%Z with 9007199254740992%Z. lra. }
  set (q0 := T / IZR n).
  assert (Hq0 : 0 < q0) by (apply Rdiv_lt_0_compat; lra).
  pose proof (binary64_error q0) as HI. fold u in HI.
  rewrite (Rabs_pos_eq q0) in HI by lra. apply Rabs_le_between in HI.
  destruct (binary64_sign q0) as (HIpos & _). specialize (HIpos Hq0).
  set (I := binary64 q0) in *.
  assert (HTn : T = q0 * IZR n) by (unfold q0; field; lra).
  set (q := e / I).
  assert (Hq : e = q * I) by (unfold q; field; lra).
  assert (Hqpos : 0 < q) by (apply Rdiv_lt_0_compat; lra).
  pose proof (binary64_error q) as Hf. fold u in Hf.
  rewrite (Rabs_pos_eq q) in Hf by lra. apply Rabs_le_between in Hf.
  (* q * (1 + u) >= n *)
  assert (H1 : IZR n <= q * (1 + u)).
  { apply (Rmult_le_reg_r q0); [done|].
    apply Rle_trans with e; [lra|]. rewrite Hq.
    assert (I <= q0 * (1 + u)) by lra.
    replace (q * (1 + u) * q0) with (q * (q0 * (1 + u))) by ring.
    apply Rmult_le_compat_l; lra. }
  (* binary64 q >= q (1 - u) and q (1 - u) (1 + u) >= n (1 - u) *)
  assert (H2 : IZR n * (1 - u) <= q * (1 - u) * (1 + u)).
  { replace (q * (1 - u) * (1 + u)) with (q * (1 + u) * (1 - u)) by ring.
    apply Rmult_le_compat_r; lra. }
  assert (H3 : (IZR n - 1) * (1 + u) <= IZR n * (1 - u)) by nra.
  apply (Rmult_le_reg_r (1 + u)); [lra|].
  apply Rle_trans with (q * (1 - u) * (1 + u)); [lra|].
  apply Rmult_le_compat_r; lra.
Qed.

Section TimerEnd.

Variable rnd : nat -> R.

(** A system that holds grains holds as many as [init] computes: between
    200 and 400. *)
Lemma step_grain_number st c st' :
  step rnd st c st' -> Inv st.1 ->
  (_grains st.1 <> [] -> (200 <= _totalGrains st.1 <= 400)%Z) ->
  _grains st'.1 <> [] -> (200 <= _totalGrains st'.1 <= 400)%Z.
Proof.
  intros Hstep HI Hb.
  destruct Hstep as [geo s k|totalMs s k|fuel dt e s k st' Hup|s k|s k]; simpl in *.
  - exact Hb.
  - destruct (_geometry s) as [geo|] eqn:Hgeo.
    + rewrite (totalGrains_after_init rnd totalMs s k geo Hgeo). intros _.
      apply grain_count_bounds.
    + rewrite init_without_geometry by done. done.
  - destruct (_geometry s) as [geo|] eqn:Hgeo.
    + destruct (_grains s) as [|g0 gs0] eqn:Hgs.
      * rewrite update_noop in Hup by (by right). injection Hup as <-. simpl.
        by rewrite Hgs.
      * destruct HI as [Hc _].
        destruct (update_spec rnd dt e s k geo Hgeo ltac:(by rewrite Hgs) Hc)
          as (s' & k' & Hrun & _ & _ & (_ & Hs2 & _) & _).
        assert (st' = (s', k')) as ->.
        { pose proof (update_more rnd fuel (Nat.max fuel (releases_needed s e)) dt e s k st'
                        Hup ltac:(lia)) as H1.
          rewrite Hrun in H1 by lia. congruence. }
        simpl. intros _. rewrite Hs2. by apply Hb.
    + rewrite update_noop in Hup by (by left). injection Hup as <-. exact Hb.
  - destruct (explode_settings rnd s k) as [(_ & Hs2 & _) _].
    pose proof (fixed_explode rnd s k) as Hfix.
    intros Hne. rewrite Hs2. apply Hb.
    intros Hnil. apply Hne. apply fixed_length in Hfix. rewrite Hnil in Hfix.
    by apply length_zero_iff_nil.
  - done.
Qed.

Lemma run_grain_number st cs st' :
  run rnd st cs st' -> Inv st.1 ->
  (_grains st.1 <> [] -> (200 <= _totalGrains st.1 <= 400)%Z) ->
  _grains st'.1 <> [] -> (200 <= _totalGrains st'.1 <= 400)%Z.
Proof.
  induction 1 as [st|st c st1 cs st2 Hstep Hrun IH]; intros HI Hb; [done|].
  apply IH; [by apply (step_Inv rnd _ _ _ Hstep)|by apply (step_grain_number _ _ _ Hstep)].
Qed.

Lemma reachable_grain_number s k :
  reachable rnd (s, k) -> _grains s <> [] -> (200 <= _totalGrains s <= 400)%Z.
Proof.
  intros (k0 & cs & Hrun).
  apply (run_grain_number _ _ _ Hrun); [apply Inv_new|done].
Qed.

(** X27. Once the elapsed time has reached the duration, [update] leaves
    at most one grain unreleased: the two rounded divisions can take the
    quotient below the number of grains, but by less than one.  The
    duration is positive and large enough for the interval to lie in the
    normal range of binary64. *)
Theorem update_at_timer_end s k dt e :
  reachable rnd (s, k) -> _geometry s <> None -> _grains s <> [] ->
  powerRZ 2 (-1022) <= _totalMs s / IZR (_totalGrains s) -> _totalMs s <= e ->
  exists s' k',
    (forall fuel, (releases_needed s e <= fuel)%nat ->
       update rnd fuel dt e s k = Some (s', k')) /\
    (_totalGrains s - 1 <= _releasedCount s' <= _totalGrains s)%Z.
Proof.
  intros Hreach Hgeo Hne Hnorm He.
  destruct (reachable_Inv rnd _ Hreach) as [Hc Hg]. simpl in Hc, Hg.
  destruct (Hg Hne) as [_ Hint].
  pose proof (reachable_grain_number s k Hreach Hne) as Hn.
  assert (Hpos : 0 < _totalMs s).
  { pose proof (pow2_pos (-1022)) as Hp.
    assert (Hn0 : 0 < IZR (_totalGrains s)) by (apply IZR_lt; lia).
    replace (_totalMs s) with (_totalMs s / IZR (_totalGrains s) * IZR (_totalGrains s))
      by (field; lra).
    apply Rmult_lt_0_compat; lra. }
  destruct (_geometry s) as [geo|] eqn:Hgeo'; [|done].
  destruct (update_spec rnd dt e s k geo Hgeo' Hne Hc)
    as (s' & k' & Hrun & Hrc & Hc' & (_ & Hs2 & _) & _).
  pose proof (counted_released_le s' Hc') as Hle'. rewrite Hs2 in Hle'.
  exists s', k'. split; [done|]. split; [|done].
  pose proof (target_at_end (_totalMs s) (_totalGrains s) e Hpos He Hn) as Ht.
  rewrite <- Hint in Ht. apply Zfloor_lub in Ht.
  rewrite Hrc. unfold released_after.
  rewrite targetReleased_nonzero; [lia|].
  rewrite Hint. apply binary64_nonzero.
  assert (0 < IZR (_totalGrains s)) by (apply IZR_lt; lia).
  apply Rgt_not_eq. by apply Rdiv_lt_0_compat.
Qed.

(** X28. The bound is met: for a duration of 7 ms the interval 7 / 200 is
    rounded up, and at the end of the timer 7 over it is rounded to the
    number below 200, so one grain stays in the reserve; at half time 99
    grains are out, not 100. *)
Theorem timer_7ms_keeps_one_grain s k geo dt :
  _geometry s = Some geo ->
  let st := init rnd 7 s k in
  _totalGrains st.1 = 200%Z /\ _totalMs st.1 = 7 /\
  (exists s' k', update rnd 200 dt 7 st.1 st.2 = Some (s', k') /\
     _releasedCount s' = 199%Z) /\
  (exists s' k', update rnd 200 dt 3.5 st.1 st.2 = Some (s', k') /\
     _releasedCount s' = 99%Z).
Proof.
  intros Hgeo st.
  destruct (init_state rnd 7 s k geo Hgeo) as (Hg0 & Hne0 & Hc0 & Htg0 & Hint0 & Hrc0 & Hms0).
  fold st in Hg0, Hne0, Hc0, Htg0, Hint0, Hrc0, Hms0.
  rewrite (grain_count_of 0 7) in Htg0, Hint0 by (simpl; lra).
  change (Z.min 400 (Z.max 200 0)) with 200%Z in Htg0, Hint0.
  rewrite binary64_7_200 in Hint0.
  split; [done|]. split; [done|]. split.
  - destruct (update_released_value rnd dt 7 st.1 st.2 geo 199 Hg0 Hne0 Hc0)
      as (s1 & k1 & Hrun1 & Hrc1 & _);
      [rewrite Hint0; lra|rewrite Hint0, binary64_7_interval; lra|].
    exists s1, k1. split; [apply Hrun1; rewrite Htg0; simpl; lia|].
    by rewrite Hrc1, Hrc0, Htg0.
  - destruct (update_released_value rnd dt 3.5 st.1 st.2 geo 99 Hg0 Hne0 Hc0)
      as (s1 & k1 & Hrun1 & Hrc1 & _);
      [rewrite Hint0; lra|rewrite Hint0, binary64_half_interval; lra|].
    exists s1, k1. split; [apply Hrun1; rewrite Htg0; simpl; lia|].
    by rewrite Hrc1, Hrc0, Htg0.
Qed.

End TimerEnd.

Lemma update_at_timer_end_witness :
  exists s' k',
    update half_draws 200 0.016 7 (init half_draws 7 test_system 0).1
      (init half_draws 7 test_system 0).2 = Some (s', k') /\
    (199 <= _releasedCount s' <= 200)%Z.
Proof.
  assert (Hreach : reachable half_draws (init half_draws 7 test_system 0)).
  { exists 0%nat, [CallSetGeometry test_geometry; CallInit 7].
    eapply run_cons; [apply step_setGeometry|].
    eapply run_cons; [apply step_init|apply run_nil]. }
  destruct (init_state half_draws 7 test_system 0%nat test_geometry eq_refl)
    as (Hgeo & Hne & Hc & Htg & _ & Hrc & Hms).
  rewrite (grain_count_of 0 7) in Htg by (simpl; lra).
  change (Z.min 400 (Z.max 200 0)) with 200%Z in Htg.
  destruct (init half_draws 7 test_system 0) as [s0 k0] eqn:E. simpl in *.
  assert (Hnorm : powerRZ 2 (-1022) <= _totalMs s0 / IZR (_totalGrains s0)).
  { rewrite Hms, Htg. apply Rle_trans with (powerRZ 2 (-5)); [apply pow2_le; lia|].
    rewrite powerRZ2_neg. change (2 ^ 5)%Z with 32%Z. lra. }
  destruct (update_at_timer_end half_draws s0 k0 0.016 7 Hreach
              ltac:(by rewrite Hgeo) Hne Hnorm ltac:(lra))
    as (s' & k' & Hrun & Hb).
  exists s', k'. split.
  - apply Hrun. unfold releases_needed.
    pose proof (targetReleased_le s0 7) as Hle.
    destruct (targetReleased s0 7) as [t| | |]; try lia.
    specialize (Hle t eq_refl). rewrite Htg in Hle. lia.
  - by rewrite Htg in Hb.
Defined.

Lemma timer_7ms_keeps_one_grain_witness :
  _geometry test_system = Some test_geometry /\
  exists s' k',
    update half_draws 200 0.016 7 (init half_draws 7 test_system 0).1
      (init half_draws 7 test_system 0).2 = Some (s', k') /\
    _releasedCount s' = 199%Z.
Proof.
  split; [reflexivity|].
  pose proof (timer_7ms_keeps_one_grain half_draws test_system 0%nat test_geometry 0.016
                eq_refl) as H.
  cbv zeta in H. by destruct H as (_ & _ & H & _).
Defined.

(** * Colours and effects *)

Lemma clamp_range v : (0 <= effects.clamp v <= 255)%Z.
Proof. unfold effects.clamp. lia. Qed.

Lemma round_IZR (z : Z) : effects.round (IZR z) = z.
Proof. unfold effects.round. apply Zfloor_eq. lra. Qed.

Lemma round_between (lo hi : Z) v :
  IZR lo <= v <= IZR hi -> (lo <= effects.round v <= hi)%Z.
Proof.
  intros [H1 H2]. unfold effects.round.
  pose proof (Zfloor_bound (v + 0.5)) as [Hb1 Hb2]. split.
  - apply Zfloor_lub. lra.
  - assert (IZR (Zfloor (v + 0.5)) < IZR (hi + 1)) by (rewrite plus_IZR; lra).
    apply lt_IZR in H. lia.
Qed.

Lemma clamp_id (z : Z) : (0 <= z <= 255)%Z -> effects.clamp (IZR z + 0 * 25) = z.
Proof.
  intros H. unfold effects.clamp.
  replace (IZR z + 0 * 25) with (IZR z) by lra. rewrite round_IZR. lia.
Qed.

(** X18. Whatever the progress, the phase and the brightness offset, the
    three channels of [sandColorVariant] are integers from 0 to 255, and
    its alpha is 0.9. *)
Theorem sandColorVariant_channels progress phase offset :
  let c := effects.sandColorVariant progress phase offset in
  (0 <= effects.red c <= 255)%Z /\ (0 <= effects.green c <= 255)%Z /\
  (0 <= effects.blue c <= 255)%Z /\ effects.alpha c = 0.9.
Proof.
  cbv zeta. unfold effects.sandColorVariant. cbv zeta.
  destruct (effects.is_phase phase "shortBreak");
    [|destruct (effects.is_phase phase "longBreak");
      [|destruct (Rltb progress 0.6)]];
    simpl; (split; [|split; [|split]]); try apply clamp_range; done.
Qed.

(** The channels of [sandColor] between the start and the end of the
    countdown. *)
Lemma sandColor_channels progress phase :
  0 <= progress <= 1 ->
  let c := effects.sandColor progress phase in
  (0 <= effects.red c <= 255)%Z /\ (0 <= effects.green c <= 255)%Z /\
  (0 <= effects.blue c <= 255)%Z.
Proof.
  intros Hp. cbv zeta. unfold effects.sandColor. cbv zeta.
  destruct (effects.is_phase phase "shortBreak"); [simpl; lia|].
  destruct (effects.is_phase phase "longBreak"); [simpl; lia|].
  destruct (Rltb progress 0.6) eqn:E; simpl.
  - apply Rltb_lt in E.
    assert (Ht : 0 <= progress / 0.6 <= 1).
    { split; [apply Rmult_le_pos; lra|].
      apply (Rmult_le_reg_r 0.6); [lra|]. unfold Rdiv. rewrite Rmult_assoc, Rinv_l; lra. }
    split; [|split]; apply round_between; simpl; nra.
  - apply Rltb_nlt in E.
    assert (Ht : 0 <= (progress - 0.6) / 0.4 <= 1).
    { split; [apply Rmult_le_pos; lra|].
      apply (Rmult_le_reg_r 0.4); [lra|]. unfold Rdiv. rewrite Rmult_assoc, Rinv_l; lra. }
    split; [lia|]. split; apply round_between; simpl; nra.
Qed.

(** X19. Between the start and the end of the countdown the sand colour has
    its channels from 0 to 255, and a grain with a brightness offset of 0
    is painted in exactly the sand colour. *)
Theorem sandColorVariant_zero_offset progress phase :
  0 <= progress <= 1 ->
  (0 <= effects.red (effects.sandColor progress phase) <= 255)%Z /\
  (0 <= effects.green (effects.sandColor progress phase) <= 255)%Z /\
  (0 <= effects.blue (effects.sandColor progress phase) <= 255)%Z /\
  effects.sandColorVariant progress phase 0 = effects.sandColor progress phase.
Proof.
  intros Hp. pose proof (sandColor_channels progress phase Hp) as H. cbv zeta in H.
  destruct H as (Hr & Hg & Hb). split; [done|]. split; [done|]. split; [done|].
  revert Hr Hg Hb. unfold effects.sandColorVariant, effects.sandColor. cbv zeta.
  destruct (effects.is_phase phase "shortBreak").
  { intros _ _ _. f_equal; apply (clamp_id 0) || apply (clamp_id 230) || apply (clamp_id 118);
      lia. }
  destruct (effects.is_phase phase "longBreak").
  { intros _ _ _. f_equal; apply (clamp_id 179) || apply (clamp_id 136) || apply (clamp_id 255);
      lia. }
  destruct (Rltb progress 0.6); simpl; intros Hr Hg Hb; f_equal; by apply clamp_id.
Qed.

Lemma sandColorVariant_zero_offset_witness :
  0 <= 0.3 <= 1 /\
  effects.sandColorVariant 0.3 None 0 = effects.sandColor 0.3 None.
Proof.
  assert (H : 0 <= 0.3 <= 1) by lra. split; [exact H|].
  apply (sandColorVariant_zero_offset 0.3 None H).
Defined.

(** ** Screen shake *)

(** X20. The shake decays with the time passed, whatever the frames: two
    [update] calls amount to one over the sum of their times, the
    intensity never goes below zero, and once the decay has taken the
    triggered intensity down to 0.5 the shake is no longer active. *)
Theorem shake_decay sh i dt1 dt2 :
  0 <= effects._decayRate sh -> 0 <= dt1 -> 0 <= dt2 ->
  effects.update dt2 (effects.update dt1 sh) = effects.update (dt1 + dt2) sh /\
  0 <= effects._intensity (effects.update dt1 sh) /\
  effects._decayRate (effects.update dt1 (effects.trigger i sh)) = effects._decayRate sh /\
  (effects.active (effects.update dt1 (effects.trigger i sh)) = true <->
   0.5 < i - effects._decayRate sh * dt1).
Proof.
  intros Hr H1 H2. unfold effects.update, effects.trigger, effects.active. simpl.
  set (r := effects._decayRate sh) in *. set (I := effects._intensity sh).
  assert (Hp1 : 0 <= r * dt1) by (by apply Rmult_le_pos).
  assert (Hp2 : 0 <= r * dt2) by (by apply Rmult_le_pos).
  split; [|split; [apply Rmax_l|split; [done|]]].
  - f_equal. destruct (Rle_dec 0 (I - r * dt1)) as [Hge|Hlt].
    + rewrite (Rmax_right 0 (I - r * dt1)) by done. f_equal. lra.
    + rewrite (Rmax_left 0 (I - r * dt1)) by lra.
      rewrite Rmax_left by lra. rewrite Rmax_left by lra. done.
  - rewrite Rltb_lt. split; intros H.
    + destruct (Rle_dec 0 (i - r * dt1)) as [Hge|Hlt].
      * by rewrite Rmax_right in H.
      * rewrite Rmax_left in H by lra. lra.
    + rewrite Rmax_right by lra. done.
Qed.

Lemma shake_decay_witness :
  effects.update 0.016 (effects.update 0.016 effects.new_ScreenShake)
    = effects.update (0.016 + 0.016) effects.new_ScreenShake.
Proof.
  apply (shake_decay effects.new_ScreenShake 10 0.016 0.016);
    [simpl; lra|lra|lra].
Defined.

(** X21. The offsets of the shake: below an intensity of 0.5 both are 0
    and no draw is taken; from 0.5 on each takes one draw and is at most
    half the intensity either way.  The shake counts as active only above
    0.5, so at exactly 0.5 it is not active and still offsets the frame. *)
Theorem shake_offsets rnd sh k :
  unit_draws rnd ->
  (effects._intensity sh < 0.5 ->
   effects.offsetX rnd sh k = (0, k) /\ effects.offsetY rnd sh k = (0, k) /\
   effects.active sh = false) /\
  (0.5 <= effects._intensity sh ->
   effects.offsetX rnd sh k = ((rnd k - 0.5) * effects._intensity sh, S k) /\
   effects.offsetY rnd sh k = ((rnd k - 0.5) * effects._intensity sh, S k) /\
   - (effects._intensity sh / 2) <= (effects.offsetX rnd sh k).1 <= effects._intensity sh / 2) /\
  (effects.active sh = true <-> 0.5 < effects._intensity sh) /\
  (effects._intensity sh = 0.5 ->
   effects.active sh = false /\ (effects.offsetX rnd sh k).1 = (rnd k - 0.5) * 0.5).
Proof.
  intros Hr. unfold effects.offsetX, effects.offsetY, effects.active.
  pose proof (Hr k) as Hk.
  split; [|split; [|split]].
  - intros Hlt. assert (E : Rltb (effects._intensity sh) 0.5 = true) by (by apply Rltb_lt).
    rewrite E. split; [done|]. split; [done|]. apply Rltb_nlt. lra.
  - intros Hge. assert (E : Rltb (effects._intensity sh) 0.5 = false) by (apply Rltb_nlt; lra).
    rewrite E. simpl. split; [done|]. split; [done|]. nra.
  - apply Rltb_lt.
  - intros Heq. assert (E : Rltb (effects._intensity sh) 0.5 = false) by (apply Rltb_nlt; lra).
    rewrite E, Heq. simpl. split; [|done]. apply Rltb_nlt. lra.
Qed.

Lemma shake_offsets_witness :
  unit_draws half_draws /\
  effects.offsetX half_draws effects.new_ScreenShake 0 = (0, 0%nat).
Proof.
  split; [exact half_draws_unit|].
  destruct (shake_offsets half_draws effects.new_ScreenShake 0%nat half_draws_unit)
    as (H & _).
  apply H. simpl. lra.
Defined.

(** ** Glow *)

(** X22. The glow has the colour of the sand: for every progress and
    phase its three channels are those of [sandColor]; between the start
    and the end of the countdown its alpha lies between 0.2 and 0.5. *)
Theorem glowColor_matches_sand progress phase :
  effects.red (effects.glowColor progress phase)
    = effects.red (effects.sandColor progress phase) /\
  effects.green (effects.glowColor progress phase)
    = effects.green (effects.sandColor progress phase) /\
  effects.blue (effects.glowColor progress phase)
    = effects.blue (effects.sandColor progress phase) /\
  (0 <= progress <= 1 -> 0.2 <= effects.alpha (effects.glowColor progress phase) <= 0.5).
Proof.
  unfold effects.glowColor, effects.sandColor. cbv zeta.
  destruct (effects.is_phase phase "shortBreak"); [simpl; repeat split; try done; lra|].
  destruct (effects.is_phase phase "longBreak"); [simpl; repeat split; try done; lra|].
  destruct (Rltb progress 0.6) eqn:E; simpl.
  - apply Rltb_lt in E. split; [done|]. split; [done|]. split; [done|]. intros Hp. lra.
  - apply Rltb_nlt in E. split; [done|]. split; [done|]. split; [done|]. intros Hp. lra.
Qed.

(** X23. The idle breathing stays between 0 and 1 and repeats every
    1000 ms; the alarm pulse stays between 0.2 and 1 and repeats every
    250 ms. *)
Theorem glow_oscillations time :
  0 <= effects.idleBreathValue time <= 1 /\
  effects.idleBreathValue (time + 1000) = effects.idleBreathValue time /\
  0.2 <= effects.alarmPulse time <= 1 /\
  effects.alarmPulse (time + 250) = effects.alarmPulse time.
Proof.
  unfold effects.idleBreathValue, effects.alarmPulse.
  pose proof (SIN_bound (time * 0.002 * PI)) as [H1 H2].
  pose proof (SIN_bound (time * 0.008 * PI)) as [H3 H4].
  split; [lra|]. split; [|split; [lra|]].
  - replace ((time + 1000) * 0.002 * PI) with (time * 0.002 * PI + 2 * INR 1 * PI)
      by (simpl; lra).
    by rewrite sin_period.
  - replace ((time + 250) * 0.008 * PI) with (time * 0.008 * PI + 2 * INR 1 * PI)
      by (simpl; lra).
    by rewrite sin_period.
Qed.

(** * The renderer's geometry and reservoir *)

Lemma cosine_ease_range t : 0 <= cosine_ease t <= 1.
Proof. unfold cosine_ease. pose proof (COS_bound (t * PI)) as [H1 H2]. lra. Qed.

Lemma outlineX_range m py :
  HourglassRenderer.neckW m <= HourglassRenderer.maxW m ->
  HourglassRenderer.cx m + HourglassRenderer.neckW m
    <= HourglassRenderer.outlineX m py
    <= HourglassRenderer.cx m + HourglassRenderer.maxW m.
Proof.
  intros Hw. unfold HourglassRenderer.outlineX. cbv zeta.
  destruct (Rleb py (HourglassRenderer.neckTopY m)).
  - match goal with |- context [cosine_ease ?t] => pose proof (cosine_ease_range t) end. nra.
  - destruct (Rleb (HourglassRenderer.neckBotY m) py); [|lra].
    match goal with |- context [cosine_ease ?t] => pose proof (cosine_ease_range t) end. nra.
Qed.

Lemma buildWallSegments_lookup m i :
  (i < 16)%nat ->
  HourglassRenderer._buildWallSegments m !! i = Some (HourglassRenderer.right_segment m i) /\
  HourglassRenderer._buildWallSegments m !! (16 + i)%nat
    = Some (HourglassRenderer.left_segment m i).
Proof.
  intros Hi. unfold HourglassRenderer._buildWallSegments, HourglassRenderer.steps. split.
  - rewrite lookup_app_l by (rewrite length_map, length_seq; lia).
    change (map (HourglassRenderer.right_segment m) (seq 0 16))
      with (HourglassRenderer.right_segment m <$> seq 0 16).
    by rewrite list_lookup_fmap, lookup_seq_lt.
  - rewrite lookup_app_r by (rewrite length_map, length_seq; lia).
    rewrite length_map, length_seq.
    replace (16 + i - 16)%nat with i by lia.
    change (map (HourglassRenderer.left_segment m) (seq 0 16))
      with (HourglassRenderer.left_segment m <$> seq 0 16).
    by rewrite list_lookup_fmap, lookup_seq_lt.
Qed.

(** X24. The walls the renderer builds, for a glass of positive height at
    least as wide as its neck: 32 segments, 16 down the right outline
    from the top to the bottom of the glass, each starting where the one
    before ends, and their 16 mirror images about the centre line; each
    has a positive height, so the wall collision never skips one as
    degenerate, and lies between the neck and the widest width. *)
Theorem buildWallSegments_spec m :
  HourglassRenderer.topY m < HourglassRenderer.botY m ->
  HourglassRenderer.neckW m <= HourglassRenderer.maxW m ->
  length (HourglassRenderer._buildWallSegments m) = 32%nat /\
  (forall w, In w (HourglassRenderer._buildWallSegments m) -> wall_len2 w <> 0) /\
  forall i, (i < 16)%nat ->
    exists wr wl,
      HourglassRenderer._buildWallSegments m !! i = Some wr /\
      HourglassRenderer._buildWallSegments m !! (16 + i)%nat = Some wl /\
      y1 wr < y2 wr /\
      HourglassRenderer.cx m + HourglassRenderer.neckW m <= x1 wr
        <= HourglassRenderer.cx m + HourglassRenderer.maxW m /\
      HourglassRenderer.cx m + HourglassRenderer.neckW m <= x2 wr
        <= HourglassRenderer.cx m + HourglassRenderer.maxW m /\
      x1 wl = 2 * HourglassRenderer.cx m - x1 wr /\
      x2 wl = 2 * HourglassRenderer.cx m - x2 wr /\
      y1 wl = y1 wr /\ y2 wl = y2 wr /\
      (i = 0%nat -> y1 wr = HourglassRenderer.topY m) /\
      (i = 15%nat -> y2 wr = HourglassRenderer.botY m) /\
      (forall wn, HourglassRenderer._buildWallSegments m !! (i + 1)%nat = Some wn ->
         (i + 1 < 16)%nat -> x1 wn = x2 wr /\ y1 wn = y2 wr).
Proof.
  intros Hh Hw.
  assert (Hstep : forall i, INR i / INR HourglassRenderer.steps
                            < INR (i + 1) / INR HourglassRenderer.steps).
  { intros i. rewrite plus_INR. unfold HourglassRenderer.steps. simpl. lra. }
  assert (Hpos : forall w, In w (HourglassRenderer._buildWallSegments m) -> y1 w < y2 w).
  { intros w Hin. unfold HourglassRenderer._buildWallSegments in Hin.
    apply List.in_app_or in Hin.
    destruct Hin as [Hin|Hin]; apply List.in_map_iff in Hin;
      destruct Hin as (i & <- & _);
      unfold HourglassRenderer.right_segment, HourglassRenderer.left_segment; cbn [y1 y2];
      apply Rplus_lt_compat_l, Rmult_lt_compat_l; [lra|apply Hstep|lra|apply Hstep]. }
  split; [done|]. split.
  - intros w Hin. specialize (Hpos w Hin). unfold wall_len2.
    pose proof (Rle_0_sqr (x2 w - x1 w)) as Hsq. unfold Rsqr in Hsq. nra.
  - intros i Hi. destruct (buildWallSegments_lookup m i Hi) as [Hr Hl].
    exists (HourglassRenderer.right_segment m i), (HourglassRenderer.left_segment m i).
    split; [done|]. split; [done|].
    unfold HourglassRenderer.right_segment, HourglassRenderer.left_segment.
    cbn [x1 x2 y1 y2].
    split; [apply Rplus_lt_compat_l, Rmult_lt_compat_l; [lra|apply Hstep]|].
    split; [by apply outlineX_range|]. split; [by apply outlineX_range|].
    split; [done|]. split; [done|]. split; [done|]. split; [done|].
    split; [intros ->; unfold HourglassRenderer.steps; simpl; lra|].
    split; [intros ->; unfold HourglassRenderer.steps; simpl; lra|].
    intros wn Hn Hlt.
    destruct (buildWallSegments_lookup m (i + 1) Hlt) as [Hr' _].
    assert (wn = HourglassRenderer.right_segment m (i + 1)) as -> by congruence.
    done.
Qed.

Lemma buildWallSegments_spec_witness :
  length (HourglassRenderer._buildWallSegments
            (HourglassRenderer._computeMetrics 400 400 new_ParticleSystem).1) = 32%nat.
Proof.
  apply (buildWallSegments_spec (HourglassRenderer._computeMetrics 400 400 new_ParticleSystem).1).
  - simpl. rewrite Rmin_right by lra. lra.
  - simpl. rewrite Rmin_right by lra. lra.
Defined.

(** X25. For a container at least 25 px high, the geometry that
    [_computeMetrics] gives the particle system has a ceiling above the
    neck, a floor below it, bulbs of equal height, a neck 14 px wide, which
    is wider than any grain, and room between ceiling and floor for any
    grain; its walls are those of [_buildWallSegments]; grains and counters
    are left as they were. *)
Theorem computeMetrics_geometry w h particles :
  25 <= h ->
  let r := HourglassRenderer._computeMetrics w h particles in
  exists geo,
    _geometry r.2 = Some geo /\
    walls geo = HourglassRenderer._buildWallSegments r.1 /\
    topCeilingY geo < neckTopY geo /\ neckTopY geo < neckBottomY geo /\
    neckBottomY geo < bottomFloorY geo /\
    neckTopY geo - topCeilingY geo = bottomFloorY geo - neckBottomY geo /\
    neckRight geo - neckLeft geo = 14 /\
    2 * (GRAIN_RADIUS + 0.4) <= neckRight geo - neckLeft geo /\
    topCeilingY geo + 2 * (GRAIN_RADIUS + 0.4) <= bottomFloorY geo /\
    HourglassRenderer.topY r.1 < HourglassRenderer.botY r.1 /\
    _grains r.2 = _grains particles /\ _totalGrains r.2 = _totalGrains particles /\
    _releasedCount r.2 = _releasedCount particles.
Proof.
  intros Hh. cbv zeta. unfold HourglassRenderer._computeMetrics. cbv zeta.
  eexists. split; [reflexivity|]. simpl. unfold GRAIN_RADIUS.
  destruct (Rle_dec (h * 0.88) 320) as [Hle|Hgt].
  - rewrite (Rmin_left (h * 0.88) 320) by done. repeat split; try done; lra.
  - rewrite (Rmin_right (h * 0.88) 320) by lra. repeat split; try done; lra.
Qed.

Lemma computeMetrics_geometry_witness :
  25 <= 400 /\
  exists geo,
    _geometry (HourglassRenderer._computeMetrics 400 400 new_ParticleSystem).2 = Some geo /\
    neckRight geo - neckLeft geo = 14.
Proof.
  assert (H : 25 <= 400) by lra. split; [exact H|].
  destruct (computeMetrics_geometry 400 400 new_ParticleSystem H)
    as (geo & Hgeo & _ & _ & _ & _ & _ & Hw & _).
  by exists geo.
Defined.

(** X26. The reservoir drawn in the top bulb, for a particle system a
    program can hold and a bulb at least 16 px high: nothing is drawn
    exactly when every grain has been released; otherwise the path starts
    on the top edge of the sand, whose height is the share of the grains
    still in the reserve times the height of the bulb less 16 px, so that
    the edge lies between 8 px below the top of the glass, where it is
    before any release, and 8 px above the neck. *)
Theorem drawTopSand_level rnd particles k cx topY neckTopY maxW neckW color :
  reachable rnd (particles, k) -> topY + 16 <= neckTopY ->
  let calls := HourglassRenderer._drawTopSand particles cx topY neckTopY maxW neckW color in
  let total := _totalGrains particles in
  let released := _releasedCount particles in
  (calls = [] <-> released = total) /\
  ((released < total)%Z ->
   exists sandTopY w1 rest,
     calls = HourglassRenderer.save :: HourglassRenderer.beginPath ::
             HourglassRenderer.moveTo (cx - w1) sandTopY ::
             HourglassRenderer.lineTo (cx + w1) sandTopY :: rest /\
     sandTopY = neckTopY - 8 - (neckTopY - topY - 16) * (IZR (total - released) / IZR total) /\
     topY + 8 <= sandTopY <= neckTopY - 8 /\
     (released = 0%Z -> sandTopY = topY + 8)).
Proof.
  intros Hreach Hbulb. cbv zeta.
  destruct (reachable_Inv rnd _ Hreach) as [Hc _]. simpl in Hc.
  pose proof (counted_released_le particles Hc) as Hle.
  assert (Hnn : (0 <= _releasedCount particles)%Z) by (destruct Hc as [<- _]; lia).
  unfold HourglassRenderer._drawTopSand. cbv zeta.
  destruct ((_totalGrains particles - _releasedCount particles <=? 0)%Z
            || (_totalGrains particles <=? 0)%Z) eqn:E.
  - apply orb_true_iff in E. rewrite !Z.leb_le in E.
    split; [split; [intros _; lia|done]|]. lia.
  - apply orb_false_iff in E. rewrite !Z.leb_gt in E. destruct E as [E1 E2].
    split; [split; [done|lia]|]. intros Hlt.
    eexists _, _, _. split; [reflexivity|]. split; [reflexivity|].
    assert (Htot : 0 < IZR (_totalGrains particles)) by (by apply IZR_lt).
    assert (Hrem : 0 < IZR (_totalGrains particles - _releasedCount particles)
                   <= IZR (_totalGrains particles)).
    { split; [by apply IZR_lt|]. apply IZR_le. lia. }
    assert (Hfrac : 0 <= IZR (_totalGrains particles - _releasedCount particles)
                         / IZR (_totalGrains particles) <= 1).
    { split; [apply Rmult_le_pos; [lra|]; left; by apply Rinv_0_lt_compat|].
      apply (Rmult_le_reg_r (IZR (_totalGrains particles))); [done|].
      unfold Rdiv. rewrite Rmult_assoc, Rinv_l; lra. }
    split; [nra|].
    intros H0. rewrite H0, Z.sub_0_r. unfold Rdiv. rewrite Rinv_r by lra. lra.
Qed.

Lemma drawTopSand_level_witness :
  reachable half_draws (init half_draws 60000 test_system 0) /\
  HourglassRenderer._drawTopSand (init half_draws 60000 test_system 0).1
    200 40 190.4 75 7 (effects.sandColor 0 None) <> [].
Proof.
  assert (Hreach : reachable half_draws (init half_draws 60000 test_system 0)).
  { exists 0%nat, [CallSetGeometry test_geometry; CallInit 60000].
    eapply run_cons; [apply step_setGeometry|].
    eapply run_cons; [apply step_init|apply run_nil]. }
  split; [exact Hreach|].
  destruct (init_state half_draws 60000 test_system 0%nat test_geometry eq_refl)
    as (_ & _ & _ & Htg & _ & Hrc & _).
  pose proof (grain_count_bounds 60000) as Hb.
  destruct (init half_draws 60000 test_system 0) as [s0 k0] eqn:E. simpl in *.
  destruct (drawTopSand_level half_draws s0 k0 200 40 190.4 75 7 (effects.sandColor 0 None)
              Hreach ltac:(lra)) as [Hnil _].
  intros Hcalls. apply Hnil in Hcalls. lia.
Defined.
